(** * The segmented dubbing pipeline of [src/app/layout.tsx]

    A shallow embedding of the [Page] component's [handleStart] run and of
    the three service helpers [transcribeWithOpenAI], [translateWithOpenAI]
    and [ttsWithOpenAI].  The asynchronous code is sequential (every call
    is awaited), so a run is a state transformer that either returns or
    throws; the code of ffmpeg.wasm and the OpenAI services is not part of
    the repository and is taken as an environment. *)

From Stdlib Require Import ZArith QArith Qround Qabs Qreduction Ascii.
From stdpp Require Import gmap strings list fin_maps sorting pretty.

Local Open Scope string_scope.
Local Open Scope list_scope.
Local Open Scope Z_scope.

(** ** JavaScript values the code computes with *)

(** A JS [number]: [NaN], the two infinities, and the finite doubles as
    the rationals they denote (the sign of zero plays no role here). *)
Inductive JSNum :=
  | NaN
  | Num (q : Q)
  | Infinity (negative : bool).

(** The number of an integer that a double holds exactly (a length, an
    index, a literal of the source). *)
Definition of_Z (z : Z) : JSNum := Num (inject_Z z).

(** *** Rounding to a double *)

(** [2^k] for any integer [k]. *)
Definition Qpow2 (k : Z) : Q :=
  if 0 <=? k then inject_Z (2 ^ k) else 1 # Z.to_pos (2 ^ (- k)).

(** The position of the leading bit of a positive rational: the [k] with
    [2^k <= x < 2^(k+1)]. *)
Definition Qlog2 (x : Q) : Z :=
  let k := Z.log2 (Qnum x) - Z.log2 (Z.pos (Qden x)) in
  if Qle_bool (Qpow2 k) x then k else k - 1.

(** The nearest integer, the even one on a tie. *)
Definition round_half_even (x : Q) : Z :=
  let q := Qfloor x in
  match (x - inject_Z q ?= 1 # 2)%Q with
  | Lt => q
  | Eq => if Z.even q then q else q + 1
  | Gt => q + 1
  end.

(** The Number value of a real [x]: the nearest double, ties to the even
    mantissa, with 53 bits of precision, the least exponent of the
    subnormals, and an infinity from [2^1024 - 2^970] on.  Every result of
    an arithmetic operation, and of reading a numeral, is rounded so. *)
Definition to_double (x : Q) : JSNum :=
  if Qeq_bool x 0 then Num 0
  else
    let m := Qabs x in
    let e := Z.max (Qlog2 m - 52) (-1074) in
    let v := (inject_Z (round_half_even (m / Qpow2 e)) * Qpow2 e)%Q in
    if Qle_bool (Qpow2 1024) v then Infinity (negb (Qle_bool 0 x))
    else Num (Qred (if Qle_bool 0 x then v else - v)).

(** [x * y] *)
Definition js_mul (x y : JSNum) : JSNum :=
  match x, y with
  | NaN, _ | _, NaN => NaN
  | Num a, Num b => to_double (a * b)
  | Infinity s, Num b | Num b, Infinity s =>
      if Qeq_bool b 0 then NaN else Infinity (xorb s (negb (Qle_bool 0 b)))
  | Infinity s, Infinity t => Infinity (xorb s t)
  end.

(** [x / y], for a divisor whose zero is the positive one (the code
    divides by an array length). *)
Definition js_div (x y : JSNum) : JSNum :=
  match x, y with
  | NaN, _ | _, NaN => NaN
  | Infinity _, Infinity _ => NaN
  | Infinity s, Num b => Infinity (xorb s (negb (Qle_bool 0 b)))
  | Num _, Infinity _ => Num 0
  | Num a, Num b =>
      if Qeq_bool b 0
      then (if Qeq_bool a 0 then NaN else Infinity (negb (Qle_bool 0 a)))
      else to_double (a / b)
  end.

(** [Math.round]: the nearest integer, the larger one on a tie. *)
Definition Math_round (x : JSNum) : JSNum :=
  match x with
  | Num q => of_Z (Qfloor (q + (1 # 2)))
  | _ => x
  end.

(** [Math.ceil] *)
Definition Math_ceil (x : JSNum) : JSNum :=
  match x with
  | Num q => of_Z (Qceiling q)
  | _ => x
  end.

(** [Math.min] of two arguments: [NaN] as soon as one argument is. *)
Definition Math_min (x y : JSNum) : JSNum :=
  match x, y with
  | NaN, _ | _, NaN => NaN
  | Infinity true, _ | _, Infinity true => Infinity true
  | Infinity false, z | z, Infinity false => z
  | Num a, Num b => Num (if Qle_bool a b then a else b)
  end.

(** [ToIntegerOrInfinity]: [NaN] becomes 0, a finite number is truncated
    towards zero, an infinity stays. *)
Inductive IntegerOrInfinity :=
  | Finite (z : Z)
  | PlusInfinity
  | MinusInfinity.

Definition ToIntegerOrInfinity (x : JSNum) : IntegerOrInfinity :=
  match x with
  | NaN => Finite 0
  | Num q => Finite (if Qle_bool 0 q then Qfloor q else Qceiling q)
  | Infinity false => PlusInfinity
  | Infinity true => MinusInfinity
  end.

(** [arr.slice(0, end)]: a negative [end] counts from the end of the array. *)
Definition slice0 {A} (arr : list A) (end_ : JSNum) : list A :=
  let len := Z.of_nat (length arr) in
  let final :=
    match ToIntegerOrInfinity end_ with
    | MinusInfinity => 0
    | Finite rel => if rel <? 0 then Z.max (len + rel) 0 else Z.min rel len
    | PlusInfinity => len
    end in
  take (Z.to_nat final) arr.

(** [s.startsWith(p)] and [s.endsWith(p)] *)
Definition startsWith (p s : string) : bool := String.prefix p s.

Definition endsWith (p s : string) : bool :=
  let n := String.length s in
  let k := String.length p in
  (k <=? n)%nat && String.eqb (String.substring (n - k) k s) p.

(** [arr.sort()] with the default comparison, on an array of strings:
    ascending order of code units. *)
Definition js_sort (arr : list string) : list string := merge_sort String.le arr.

(** [arr.join(sep)] *)
Fixpoint join (sep : string) (arr : list string) : string :=
  match arr with
  | [] => ""
  | [x] => x
  | x :: rest => x +:+ sep +:+ join sep rest
  end.

(** *** [parseInt] with no radix argument *)

Definition is_white_space (c : Ascii.ascii) : bool :=
  let n := Ascii.N_of_ascii c in
  ((9 <=? n) && (n <=? 13) || (n =? 32))%N.

Fixpoint trim_start (s : string) : string :=
  match s with
  | String c rest => if is_white_space c then trim_start rest else s
  | "" => ""
  end.

Definition digit_value (radix : Z) (c : Ascii.ascii) : option Z :=
  let n := Z.of_N (Ascii.N_of_ascii c) in
  let v := if (48 <=? n) && (n <=? 57) then n - 48
           else if (97 <=? n) && (n <=? 122) then n - 87
           else if (65 <=? n) && (n <=? 90) then n - 55
           else radix in
  if v <? radix then Some v else None.

Fixpoint parse_digits (radix : Z) (acc : option Z) (s : string) : option Z :=
  match s with
  | String c rest =>
      match digit_value radix c with
      | Some d => parse_digits radix (Some (radix * default 0 acc + d)) rest
      | None => acc
      end
  | "" => acc
  end.

(** The digits are read as an integer, and the result is the Number value
    of that integer: the nearest double, an infinity when it is too
    large.  (Past the 20th significant decimal digit the standard also
    allows an approximation of the integer.) *)
Definition parseInt (input : string) : JSNum :=
  let s1 := trim_start input in
  let '(neg, s2) :=
    match s1 with
    | String "-"%char rest => (true, rest)
    | String "+"%char rest => (false, rest)
    | _ => (false, s1)
    end in
  let '(radix, s3) :=
    match s2 with
    | String "0"%char (String "x"%char rest) => (16, rest)
    | String "0"%char (String "X"%char rest) => (16, rest)
    | _ => (10, s2)
    end in
  match parse_digits radix None s3 with
  | Some v => to_double (inject_Z (if neg then - v else v))
  | None => NaN
  end.

(** *** Parsed JSON and property access *)

#[warnings="-register-all"]
Inductive JSVal :=
  | JUndefined
  | JNull
  | JBool (b : bool)
  | JNum (n : Q)
  | JStr (s : string)
  | JArr (items : list JSVal)
  | JObj (fields : list (string * JSVal)).

Fixpoint assoc (k : string) (fields : list (string * JSVal)) : option JSVal :=
  match fields with
  | [] => None
  | (k', v) :: rest => if String.eqb k k' then Some v else assoc k rest
  end.

(** [v.k] for one of the names the code reads ([text], [choices],
    [message], [content]); none of them is a built-in property of arrays,
    strings, numbers or booleans.  [v] is neither [null] nor [undefined]. *)
Definition js_get (v : JSVal) (k : string) : JSVal :=
  match v with
  | JObj fields => default JUndefined (assoc k fields)
  | _ => JUndefined
  end.

(** [v[0]], [v] neither [null] nor [undefined]. *)
Definition js_index0 (v : JSVal) : JSVal :=
  match v with
  | JArr items => default JUndefined (head items)
  | JStr (String c _) => JStr (String c "")
  | JObj fields => default JUndefined (assoc "0" fields)
  | _ => JUndefined
  end.

Definition nullish (v : JSVal) : bool :=
  match v with
  | JUndefined | JNull => true
  | _ => false
  end.

(** The optional chain [v?.access]. *)
Definition opt_chain (v : JSVal) (access : JSVal -> JSVal) : JSVal :=
  if nullish v then JUndefined else access v.

Definition truthy (v : JSVal) : bool :=
  match v with
  | JUndefined | JNull | JBool false | JStr "" => false
  | JNum n => negb (Qeq_bool n 0)
  | _ => true
  end.

(** [a || b] *)
Definition js_or (a b : JSVal) : JSVal := if truthy a then a else b.

(** [choices?.[0]?.message?.content] *)
Definition content_field (choices : JSVal) : JSVal :=
  let first := opt_chain choices js_index0 in
  let message := opt_chain first (fun v => js_get v "message") in
  opt_chain message (fun v => js_get v "content").

(** ** Data of the page *)

Inductive VoicePreset :=
  | alloy | verse | aria | bright | calypso | lively | sage | soft.

Inductive Step :=
  | idle
  | preparing
  | extracting
  | segmenting
  | transcribing
  | translating
  | synthesizing
  | concatenating
  | muxing
  | done.

(** Bytes of a file, a blob or a response body. *)
Abbreviation Content := string.

(** The uploaded [File]. *)
Record File := { name : string; bytes : Content }.

(** The in-memory file system of one ffmpeg.wasm instance. *)
Abbreviation FS := (gmap string Content).

(** The object behind [ffmpegRef.current]. *)
Record Instance := { loaded : bool; fs : FS }.

(** The value of the memoised binding [ffmpeg] (line 66): the memo reads
    [ffmpegRef.current] when React computes it, so it is [null] when
    computed before the instance exists and otherwise aliases the very
    object of [ffmpegRef.current]. *)
Inductive Handle :=
  | Null
  | RefCurrent.

(** What one render binds and [handleStart] closes over. *)
Record Closure := {
  apiKey : string;
  videoFile : option File;
  targetLang : string;
  voice : VoicePreset;
  maxMinutes : JSNum;
  ffmpeg : Handle;
}.

(** ** The environment: the OpenAI endpoints and the media engine *)

Inductive Request :=
  | Transcriptions (key : string) (audio : Content)
      (* POST /v1/audio/transcriptions, model whisper-1 *)
  | ChatCompletions (key : string) (sys : string) (user : JSVal)
      (* POST /v1/chat/completions, model gpt-4o-mini *)
  | Speech (key : string) (v : VoicePreset) (input : JSVal).
      (* POST /v1/audio/speech, model gpt-4o-mini-tts, format wav *)

(** A response: [json] is [None] when the body is not JSON. *)
Record Response := { res_status : Z; json : option JSVal; body : Content }.

(** [res.ok]: the status is in the range 200-299. *)
Definition res_ok (res : Response) : bool :=
  (200 <=? res_status res) && (res_status res <=? 299).

Inductive FetchResult :=
  | Rejected
  | Resolved (res : Response).

(** The outside world.  [engine_exec] is what one [ffmpeg.exec(args)] does
    to the file system; the promise resolves with ffmpeg's exit code,
    which the code never reads, so a failed command is only visible
    through the files it did not write. *)
Class Env := {
  World : Type;
  fetch : Request -> World -> FetchResult * World;
  engine_load : World -> bool * World;
  engine_exec : list string -> FS -> FS;
}.

(** ** State of a run and the monad of [async] code *)

(** The mutable state a run reads and writes.  [statusLog], [fetchLog] and
    [execLog] record, in the order made, the [setStatus] calls, the
    requests with their outcome, and the engine commands with the file
    system each one was given. *)
Record Run `{Env} := {
  status : Step;
  detail : string;
  progress : JSNum;
  downloadUrl : option Content;
  ffmpegRef : option Instance;
  world : World;
  statusLog : list Step;
  fetchLog : list (Request * FetchResult);
  execLog : list (list string * FS);
}.

Inductive Exn :=
  | Error (message : string)       (* [throw new Error(message)] in the source *)
  | TypeError (message : string)   (* a property read on [null] *)
  | SyntaxError                    (* [res.json()] on a body that is not JSON *)
  | NetworkError                   (* [fetch] rejected *)
  | EngineError (message : string) (* a rejected ffmpeg.wasm call *).

Inductive Result (A : Type) :=
  | Ok (a : A)
  | Throw (e : Exn).
Arguments Ok {A} a.
Arguments Throw {A} e.

Definition M `{Env} (A : Type) : Type := Run -> Result A * Run.

Definition ret `{Env} {A} (a : A) : M A := fun r => (Ok a, r).

Definition throw `{Env} {A} (e : Exn) : M A := fun r => (Throw e, r).

Definition bind `{Env} {A B} (m : M A) (k : A -> M B) : M B := fun r =>
  match m r with
  | (Ok a, r') => k a r'
  | (Throw e, r') => (Throw e, r')
  end.

Notation "x <- m ;;; k" := (bind m (fun x => k))
  (at level 100, m at next level, k at level 200, right associativity, only parsing).
Notation "m ;;; k" := (bind m (fun _ => k))
  (at level 100, k at level 200, right associativity, only parsing).

(** [try { await m } catch {}] *)
Definition try_ `{Env} {A} (m : M A) : M unit := fun r => (Ok tt, snd (m r)).

(** *** State setters *)

Section Program.
Context `{Env}.

Definition setStatus (s : Step) : M unit := fun r =>
  (Ok tt,
   {| status := s; detail := detail r; progress := progress r;
      downloadUrl := downloadUrl r; ffmpegRef := ffmpegRef r;
      world := world r; statusLog := statusLog r ++ [s];
      fetchLog := fetchLog r; execLog := execLog r |}).

Definition setDetail (d : string) : M unit := fun r =>
  (Ok tt,
   {| status := status r; detail := d; progress := progress r;
      downloadUrl := downloadUrl r; ffmpegRef := ffmpegRef r;
      world := world r; statusLog := statusLog r; fetchLog := fetchLog r;
      execLog := execLog r |}).

Definition setProgress (p : JSNum) : M unit := fun r =>
  (Ok tt,
   {| status := status r; detail := detail r; progress := p;
      downloadUrl := downloadUrl r; ffmpegRef := ffmpegRef r;
      world := world r; statusLog := statusLog r; fetchLog := fetchLog r;
      execLog := execLog r |}).

Definition setDownloadUrl (u : option Content) : M unit := fun r =>
  (Ok tt,
   {| status := status r; detail := detail r; progress := progress r;
      downloadUrl := u; ffmpegRef := ffmpegRef r;
      world := world r; statusLog := statusLog r; fetchLog := fetchLog r;
      execLog := execLog r |}).

Definition set_ffmpegRef (i : option Instance) (r : Run) : Run :=
  {| status := status r; detail := detail r; progress := progress r;
     downloadUrl := downloadUrl r; ffmpegRef := i;
     world := world r; statusLog := statusLog r; fetchLog := fetchLog r;
      execLog := execLog r |}.

Definition set_world (w : World) (r : Run) : Run :=
  {| status := status r; detail := detail r; progress := progress r;
     downloadUrl := downloadUrl r; ffmpegRef := ffmpegRef r;
     world := w; statusLog := statusLog r; fetchLog := fetchLog r;
     execLog := execLog r |}.

Definition log_fetch (req : Request) (res : FetchResult) (r : Run) : Run :=
  {| status := status r; detail := detail r; progress := progress r;
     downloadUrl := downloadUrl r; ffmpegRef := ffmpegRef r;
     world := world r; statusLog := statusLog r;
     fetchLog := fetchLog r ++ [(req, res)]; execLog := execLog r |}.

Definition log_exec (args : list string) (files : FS) (r : Run) : Run :=
  {| status := status r; detail := detail r; progress := progress r;
     downloadUrl := downloadUrl r; ffmpegRef := ffmpegRef r;
     world := world r; statusLog := statusLog r; fetchLog := fetchLog r;
     execLog := execLog r ++ [(args, files)] |}.

(** ** The engine seen through [ffmpegRef] and through [ffmpeg] *)

(** [await ffmpegRef.current.load()] *)
Definition instance_load : M unit := fun r =>
  match ffmpegRef r with
  | Some inst =>
      let '(ok, w) := engine_load (world r) in
      if ok
      then (Ok tt, set_ffmpegRef (Some {| loaded := true; fs := fs inst |}) (set_world w r))
      else (Throw (EngineError "failed to load ffmpeg.wasm"), set_world w r)
  | None => (Throw (TypeError "Cannot read properties of null (reading 'load')"), r)
  end.

(** [ffmpegRef.current = new FFmpeg()] *)
Definition new_FFmpeg : M unit := fun r =>
  (Ok tt, set_ffmpegRef (Some {| loaded := false; fs := ∅ |}) r).

(** [ensureFFmpeg] (lines 68-84).  The progress listener it registers only
    writes [progress] while a command runs and is left out. *)
Definition ensureFFmpeg : M unit := fun r =>
  match ffmpegRef r with
  | None =>
      (setStatus preparing ;;;
       setDetail "Loading ffmpeg.wasm (~25MB)..." ;;;
       new_FFmpeg ;;;
       instance_load) r
  | Some inst => if loaded inst then (Ok tt, r) else instance_load r
  end.

(** A method call [ffmpeg.method(...)] on the memoised binding: a
    [TypeError] when the binding is [null], a rejection when the instance
    is not loaded, and otherwise [op] on the instance's file system. *)
Definition call {A} (c : Closure) (method : string)
    (op : FS -> Result A * FS) : M A := fun r =>
  match ffmpeg c, ffmpegRef r with
  | RefCurrent, Some inst =>
      if loaded inst
      then let '(res, fs') := op (fs inst) in
           (res, set_ffmpegRef (Some {| loaded := true; fs := fs' |}) r)
      else (Throw (EngineError "ffmpeg is not loaded"), r)
  | _, _ =>
      (Throw (TypeError ("Cannot read properties of null (reading '"
                         +:+ method +:+ "')")), r)
  end.

Definition deleteFile (c : Closure) (path : string) : M unit :=
  call c "deleteFile" (fun fs =>
    match fs !! path with
    | Some _ => (Ok tt, delete path fs)
    | None => (Throw (EngineError "ErrnoError: FS error"), fs)
    end).

Definition writeFile (c : Closure) (path : string) (data : Content) : M unit :=
  call c "writeFile" (fun fs => (Ok tt, <[path := data]> fs)).

Definition readFile (c : Closure) (path : string) : M Content :=
  call c "readFile" (fun fs =>
    match fs !! path with
    | Some data => (Ok data, fs)
    | None => (Throw (EngineError "ErrnoError: FS error"), fs)
    end).

(** [ffmpeg.listDir("/")] followed by [entries.map(e => e.name)]. *)
Definition listDir_names (c : Closure) : M (list string) :=
  call c "listDir" (fun fs => (Ok ("." :: ".." :: (map_to_list fs).*1), fs)).

Definition record_exec (args : list string) (files : FS) : M unit := fun r =>
  (Ok tt, log_exec args files r).

Definition exec (c : Closure) (args : list string) : M unit :=
  files <- call c "exec" (fun fs => (Ok fs, engine_exec args fs)) ;;;
  record_exec args files.

(** ** The three service helpers (lines 277-333) *)

Definition do_fetch (req : Request) : M Response := fun r =>
  let '(res, w) := fetch req (world r) in
  let r' := log_fetch req res (set_world w r) in
  match res with
  | Resolved res => (Ok res, r')
  | Rejected => (Throw NetworkError, r')
  end.

(** [await res.json()] *)
Definition res_json (res : Response) : M JSVal :=
  match json res with
  | Some data => ret data
  | None => throw SyntaxError
  end.

(** [data.k], a [TypeError] on [null]. *)
Definition member (data : JSVal) (k : string) : M JSVal :=
  if nullish data
  then throw (TypeError ("Cannot read properties of null (reading '" +:+ k +:+ "')"))
  else ret (js_get data k).

Definition transcribeWithOpenAI (key : string) (audio : Content) : M JSVal :=
  res <- do_fetch (Transcriptions key audio) ;;;
  if negb (res_ok res)
  then throw (Error ("Transcription failed: " +:+ pretty (res_status res)))
  else
    data <- res_json res ;;;
    member data "text".

(** The system message of line 295. *)
Definition system_prompt (lang : string) : string :=
  "You are a professional media translator. Translate the user's text to "
  +:+ lang +:+
  " for voice dubbing. Keep meaning and tone. Do not add extra commentary."
  +:+ " Output only the translation.".

Definition translateWithOpenAI (key : string) (text : JSVal) (lang : string) : M JSVal :=
  let sys := system_prompt lang in
  res <- do_fetch (ChatCompletions key sys text) ;;;
  if negb (res_ok res)
  then throw (Error ("Translation failed: " +:+ pretty (res_status res)))
  else
    data <- res_json res ;;;
    choices <- member data "choices" ;;;
    ret (js_or (content_field choices) (JStr "")).

Definition ttsWithOpenAI (key : string) (text : JSVal) (v : VoicePreset) : M Content :=
  res <- do_fetch (Speech key v text) ;;;
  if negb (res_ok res)
  then throw (Error ("TTS failed: " +:+ pretty (res_status res)))
  else ret (body res).

(** ** [handleStart] (lines 90-195), cut along the source's own comments *)

Definition newline : string := String "010"%char "".

(** Lines 97-110: "Reset FS", write the upload (whose bytes [fetchFile]
    reads), "Extract mono 16k wav". *)
Definition reset_and_extract (c : Closure) (video : File) : M string :=
  try_ (deleteFile c "input.mp4") ;;;
  try_ (deleteFile c "audio.wav") ;;;
  setStatus extracting ;;;
  setDetail "Extracting audio track..." ;;;
  let inputName := if endsWith ".webm" (name video) then "input.webm" else "input.mp4" in
  writeFile c inputName (bytes video) ;;;
  exec c ["-i"; inputName; "-vn"; "-ac"; "1"; "-ar"; "16000"; "audio.wav"] ;;;
  ret inputName.

(** Lines 112-117: "Create segments of ~60s using ffmpeg segment muxer". *)
Definition segment (c : Closure) : M unit :=
  setStatus segmenting ;;;
  setDetail "Segmenting audio into 60s chunks..." ;;;
  try_ (deleteFile c "segments.txt") ;;;
  exec c ["-i"; "audio.wav"; "-f"; "segment"; "-segment_time"; "60";
          "-c"; "copy"; "seg_%03d.wav"].

Definition is_segment_name (n : string) : bool :=
  startsWith "seg_" n && endsWith ".wav" n.

(** Lines 119-122: "List segments". *)
Definition list_segments (c : Closure) : M (list string) :=
  names <- listDir_names c ;;;
  let files := js_sort (filter (fun n => is_segment_name n = true) names) in
  if (length files =? 0)%nat
  then throw (Error "No segments produced")
  else ret files.

(** Lines 124-126: "Cap by maxMinutes". *)
Definition maxSegments (c : Closure) (files : list string) : JSNum :=
  Math_min (of_Z (Z.of_nat (length files))) (Math_ceil (maxMinutes c)).

Definition cap_by_maxMinutes (c : Closure) (files : list string) : list string :=
  slice0 files (maxSegments c files).

(** [Math.round((i / n) * 100)], for the index [i] and the length [n] of
    an array: the quotient and the product are each rounded to a double. *)
Definition percent (i n : nat) : JSNum :=
  Math_round (js_mul (js_div (of_Z (Z.of_nat i)) (of_Z (Z.of_nat n))) (of_Z 100)).

(** [`tts_${segName}`] *)
Definition tts_name (segName : string) : string := "tts_" +:+ segName.

(** Lines 134-155: the body of the loop, for [usedSegments[i]] out of [n]. *)
Definition process_segment (c : Closure) (n i : nat) (segName : string) : M string :=
  setDetail ("Processing segment " +:+ pretty (i + 1)%nat +:+ "/" +:+ pretty n) ;;;
  setProgress (percent i n) ;;;
  segData <- readFile c segName ;;;
  transcript <- transcribeWithOpenAI (apiKey c) segData ;;;
  translated <- translateWithOpenAI (apiKey c) transcript (targetLang c) ;;;
  ttsWav <- ttsWithOpenAI (apiKey c) translated (voice c) ;;;
  let outName := tts_name segName in
  try_ (deleteFile c outName) ;;;
  writeFile c outName ttsWav ;;;
  ret outName.

(** Lines 131-156: the loop, entered at index [i] with the names pushed so
    far; [segs] is what is left of [usedSegments]. *)
Fixpoint process_segments (c : Closure) (n i : nat) (segs : list string)
    (dubbedSegmentNames : list string) : M (list string) :=
  match segs with
  | [] => ret dubbedSegmentNames
  | segName :: rest =>
      outName <- process_segment c n i segName ;;;
      process_segments c n (S i) rest (dubbedSegmentNames ++ [outName])
  end.

Definition listContent (dubbedSegmentNames : list string) : string :=
  join newline (map (fun n => "file '" +:+ n +:+ "'") dubbedSegmentNames).

Definition concat_args : list string :=
  ["-f"; "concat"; "-safe"; "0"; "-i"; "concat.txt"; "-c"; "copy"; "dubbed.wav"].

(** Lines 158-166: "Concat TTS wavs". *)
Definition concat_tts (c : Closure) (dubbedSegmentNames : list string) : M unit :=
  setStatus concatenating ;;;
  setDetail "Concatenating synthesized audio..." ;;;
  writeFile c "concat.txt" (listContent dubbedSegmentNames) ;;;
  exec c concat_args.

(** Lines 168-194: "Mux with original video -> WebM" and publish. *)
Definition mux (c : Closure) (inputName : string) : M unit :=
  setStatus muxing ;;;
  setDetail "Muxing dubbed audio into WebM video (this can take a while)..." ;;;
  try_ (deleteFile c "output.webm") ;;;
  exec c ["-i"; inputName; "-i"; "dubbed.wav"; "-map"; "0:v:0"; "-map"; "1:a:0";
          "-c:v"; "libvpx"; "-crf"; "32"; "-b:v"; "0"; "-c:a"; "libopus";
          "-shortest"; "output.webm"] ;;;
  outData <- readFile c "output.webm" ;;;
  setDownloadUrl (Some outData) ;;;
  setStatus done ;;;
  setProgress (of_Z 100) ;;;
  setDetail "Completed".

(** Lines 128-194, from the capped list on. *)
Definition dub_and_publish (c : Closure) (inputName : string)
    (usedSegments : list string) : M unit :=
  setStatus transcribing ;;;
  dubbedSegmentNames <-
    process_segments c (length usedSegments) 0 usedSegments [] ;;;
  concat_tts c dubbedSegmentNames ;;;
  mux c inputName.

(** Lines 91-117. *)
Definition start_to_segment (c : Closure) : M string :=
  setDownloadUrl None ;;;
  (if String.eqb (apiKey c) "" then throw (Error "Missing OpenAI API key") else ret tt) ;;;
  video <- match videoFile c with
           | Some f => ret f
           | None => throw (Error "No video uploaded")
           end ;;;
  ensureFFmpeg ;;;
  inputName <- reset_and_extract c video ;;;
  segment c ;;;
  ret inputName.

Definition handleStart (c : Closure) : M unit :=
  inputName <- start_to_segment c ;;;
  files <- list_segments c ;;;
  dub_and_publish c inputName (cap_by_maxMinutes c files).

(** ** The form *)

(** Line 249: [onChange] of the "Max minutes to process" field, with
    [e.target.value || "45"]. *)
Definition onChange_maxMinutes (value : string) (c : Closure) : Closure :=
  {| apiKey := apiKey c; videoFile := videoFile c; targetLang := targetLang c;
     voice := voice c;
     maxMinutes := parseInt (if String.eqb value "" then "45" else value);
     ffmpeg := ffmpeg c |}.

(** The first render: the [useState] defaults of lines 45-53, and the memo
    of line 66 computed while [ffmpegRef.current] is still [null]. *)
Definition first_render : Closure :=
  {| apiKey := ""; videoFile := None; targetLang := "es"; voice := alloy;
     maxMinutes := of_Z 45; ffmpeg := Null |}.

Definition initial_run (w : World) : Run :=
  {| status := idle; detail := ""; progress := of_Z 0; downloadUrl := None;
     ffmpegRef := None; world := w; statusLog := []; fetchLog := [];
     execLog := [] |}.

End Program.

(** ** Segment names

    The engine expands the pattern ["seg_%03d.wav"] of line 117 with the
    index of each segment: [printf]'s [%03d] pads with zeros to a width of
    at least three and never truncates. *)

Fixpoint zeros (k : nat) : string :=
  match k with
  | O => ""
  | S k' => String "0"%char (zeros k')
  end.

Definition printf_03d (i : nat) : string :=
  let digits := pretty i in
  zeros (3 - String.length digits) +:+ digits.

Definition segment_file (i : nat) : string := "seg_" +:+ printf_03d i +:+ ".wav".

(** The names of the first [n] segments, in index order. *)
Definition segment_files (n : nat) : list string := map segment_file (seq 0 n).

(** ** The spec's orchestrator, in the spec's words

    "States, in strict forward order, no backward transitions, no
    skipping", and a terminal [failed] state that is none of them. *)

Definition forward_order : list Step :=
  [idle; preparing; extracting; segmenting; transcribing; concatenating; muxing; done].

Instance Step_eq_dec : EqDecision Step.
Proof. solve_decision. Defined.

(** [b] is the state right after [a] in the forward order. *)
Definition next_in_order (a b : Step) : Prop :=
  ∃ i : nat, forward_order !! i = Some a ∧ forward_order !! S i = Some b.

(** Every move of a sequence of states is one step forward. *)
Fixpoint strict_forward (states : list Step) : Prop :=
  match states with
  | a :: (b :: _) as rest => next_in_order a b ∧ strict_forward rest
  | _ => True
  end.

(** The statuses a run goes through, starting from the one it found. *)
Definition statuses_of_run `{Env} (before after : Run) : list Step :=
  status before :: drop (length (statusLog before)) (statusLog after).

(** The spec's state machine, read on one run of [handleStart]. *)
Definition follows_spec_orchestrator `{Env} (c : Closure) (r : Run) : Prop :=
  strict_forward (statuses_of_run r (handleStart c r).2) ∧
  (∀ e, (handleStart c r).1 = Throw e → status (handleStart c r).2 ∉ forward_order).

(** The stages one run can enter, in the order of the [setStatus] calls;
    [preparing] is set by [ensureFFmpeg] only when no instance exists. *)
Definition stages `{Env} (r : Run) : list Step :=
  match ffmpegRef r with Some _ => [] | None => [preparing] end ++
  [extracting; segmenting; transcribing; concatenating; muxing; done].

(** The spec's budget: [usedCount = min(totalChunks, ceil(maxMinutes))]. *)
Definition spec_usedCount (totalChunks : nat) (maxMinutes : Q) : Z :=
  Z.min (Z.of_nat totalChunks) (Qceiling maxMinutes).

(** ** A small environment to run the model on

    A stand-in engine that keeps one character per minute of audio, and
    services that answer from the request; a script can force the status
    of a response or an answer without content. *)

Inductive Scripted :=
  | Normal
  | Status (code : Z)
  | EmptyContent
  | NullBody.

Definition text_of (v : JSVal) : string :=
  match v with
  | JStr s => s
  | _ => ""
  end.

Definition answer (req : Request) : Response :=
  match req with
  | Transcriptions _ audio =>
      {| res_status := 200; json := Some (JObj [("text", JStr ("heard " +:+ audio))]);
         body := "" |}
  | ChatCompletions _ _ user =>
      {| res_status := 200;
         json := Some (JObj [("choices",
                   JArr [JObj [("message",
                     JObj [("content", JStr ("translated " +:+ text_of user))])]])]);
         body := "" |}
  | Speech _ _ input =>
      {| res_status := 200; json := None; body := "spoken " +:+ text_of input |}
  end.

(** A success response whose message has an empty content. *)
Definition no_content_json : JSVal :=
  JObj [("choices", JArr [JObj [("message", JObj [("content", JStr "")])]])].

Definition no_content : Response :=
  {| res_status := 200; json := Some no_content_json; body := "" |}.

(** A success response whose body is the JSON value [null]. *)
Definition null_body : Response :=
  {| res_status := 200; json := Some JNull; body := "null" |}.

Definition scripted_fetch (req : Request) (script : list Scripted)
    : FetchResult * list Scripted :=
  match script with
  | [] | Normal :: _ => (Resolved (answer req), tail script)
  | Status code :: rest =>
      (Resolved {| res_status := code; json := None; body := "" |}, rest)
  | EmptyContent :: rest => (Resolved no_content, rest)
  | NullBody :: rest => (Resolved null_body, rest)
  end.

Fixpoint write_segments (i : nat) (audio : string) (files : FS) : FS :=
  match audio with
  | "" => files
  | String minute rest =>
      write_segments (S i) rest (<[segment_file i := String minute ""]> files)
  end.

Fixpoint lines_of (cur : string) (s : string) : list string :=
  match s with
  | "" => [String.rev cur]
  | String ch rest =>
      if Ascii.eqb ch "010"%char
      then String.rev cur :: lines_of "" rest
      else lines_of (String ch cur) rest
  end.

(** The file named by a line [file 'name'] of a concat list. *)
Definition listed_file (line : string) : string :=
  String.substring 6 (String.length line - 7) line.

Definition concat_files (files : FS) (names : list string) : option string :=
  foldr (fun n acc => data ← files !! n; rest ← acc; Some (data +:+ rest))
        (Some "") names.

Definition stand_in_exec (args : list string) (files : FS) : FS :=
  if bool_decide (args !! 2%nat = Some "-vn") then
    match args !! 1%nat ≫= (files !!.) with
    | Some video => <["audio.wav" := video]> files
    | None => files
    end
  else if bool_decide (args !! 3%nat = Some "segment") then
    match files !! "audio.wav" with
    | Some audio => write_segments 0 audio files
    | None => files
    end
  else if bool_decide (args !! 1%nat = Some "concat") then
    match files !! "concat.txt" ≫=
          (fun l => concat_files files (listed_file <$> lines_of "" l)) with
    | Some track => <["dubbed.wav" := track]> files
    | None => files
    end
  else
    match args !! 1%nat ≫= (files !!.), files !! "dubbed.wav" with
    | Some video, Some track => <["output.webm" := video +:+ "+" +:+ track]> files
    | _, _ => files
    end.

Definition stand_in : Env :=
  {| World := list Scripted;
     fetch := scripted_fetch;
     engine_load := fun w => (true, w);
     engine_exec := stand_in_exec |}.

(** ** What a run leaves in the logs *)

Definition new_statuses `{Env} (before after : Run) : list Step :=
  drop (length (statusLog before)) (statusLog after).

Definition new_fetches `{Env} (before after : Run) : list (Request * FetchResult) :=
  drop (length (fetchLog before)) (fetchLog after).

Definition new_execs `{Env} (before after : Run) : list (list string * FS) :=
  drop (length (execLog before)) (execLog after).

(** The audio of the transcription requests of a log, in order. *)
Definition transcribed_audio (log : list (Request * FetchResult)) : list Content :=
  omap (fun e => match e.1 with
                 | Transcriptions _ audio => Some audio
                 | _ => None
                 end) log.

(** The bodies of the answers to the speech requests of a log, in order. *)
Definition speech_bodies (log : list (Request * FetchResult)) : list Content :=
  omap (fun e => match e with
                 | (Speech _ _ _, Resolved res) => Some (body res)
                 | _ => None
                 end) log.

(** The message of the error a helper throws on a response that is not ok. *)
Definition failure_message (req : Request) (res : Response) : string :=
  match req with
  | Transcriptions _ _ => "Transcription failed: "
  | ChatCompletions _ _ _ => "Translation failed: "
  | Speech _ _ _ => "TTS failed: "
  end +:+ pretty (res_status res).

Definition error_of {A} (res : Result A) : option Exn :=
  match res with
  | Ok _ => None
  | Throw e => Some e
  end.

(** A helper [m] that sends [req] sends it once, and throws the error
    carrying the status exactly when the answer is not ok. *)
Definition fails_exactly_on_not_ok `{Env} {A} (m : M A) (req : Request) (r : Run) : Prop :=
  ∃ outcome,
    fetchLog (m r).2 = fetchLog r ++ [(req, outcome)] ∧
    ∀ res, outcome = Resolved res →
      (res_ok res = false ↔ error_of (m r).1 = Some (Error (failure_message req res))).

(** Requests sent during a computation, against its outcome: a response
    that is not ok is the last thing the log holds, and the computation
    ended by throwing the error that carries its status. *)
Definition fail_fast (entries : list (Request * FetchResult)) (err : option Exn) : Prop :=
  ∀ pre req res post,
    entries = pre ++ (req, Resolved res) :: post →
    res_ok res = false →
    post = [] ∧ err = Some (Error (failure_message req res)).

(** The segment files of the instance, as line 121 lists them. *)
Definition listed_segments `{Env} (r : Run) : list string :=
  match ffmpegRef r with
  | Some inst =>
      js_sort (filter (fun n => is_segment_name n = true)
                      ("." :: ".." :: (map_to_list (fs inst)).*1))
  | None => []
  end.

(** The files [files] with each synthesized chunk stored under the name
    the loop gives it. *)
Definition store_all (files : FS) (names : list string) (bodies : list Content) : FS :=
  foldl (fun f nb => <[tts_name nb.1 := nb.2]> f) files (zip names bodies).

(** The files of the instance. *)
Definition files_of `{Env} (r : Run) : FS :=
  match ffmpegRef r with
  | Some inst => fs inst
  | None => ∅
  end.

(** *** Frames: the parts of the state a computation leaves alone *)

Definition ui `{Env} (r : Run) : Step * list Step * option Content :=
  (status r, statusLog r, downloadUrl r).

Definition net `{Env} (r : Run) : World * list (Request * FetchResult) :=
  (world r, fetchLog r).

Definition engine `{Env} (r : Run) : option Instance * list (list string * FS) :=
  (ffmpegRef r, execLog r).

(** [m] leaves [part] of the state as it found it, whatever its outcome. *)
Definition keeps `{Env} {X A} (part : Run -> X) (m : M A) : Prop :=
  ∀ r, part (m r).2 = part r.

(** [m] only ever adds to the log [part], and only [allowed] entries. *)
Definition adds_only `{Env} {X A} (part : Run -> list X) (allowed : X -> Prop)
    (m : M A) : Prop :=
  ∀ r, ∃ added, part (m r).2 = part r ++ added ∧ Forall allowed added.

(** Every run of [m] is fail-fast on the requests it sends. *)
Definition fails_fast `{Env} {A} (m : M A) : Prop :=
  ∀ r, ∃ entries,
    fetchLog (m r).2 = fetchLog r ++ entries ∧
    fail_fast entries (error_of (m r).1).

(** Where a run that started in [r0] stands after entering [k] of its
    stages, with no artifact published. *)
Definition at_stage `{Env} (r0 : Run) (k : nat) (r : Run) : Prop :=
  statusLog r = statusLog r0 ++ take k (stages r0) ∧
  status r = List.last (take k (stages r0)) (status r0) ∧
  downloadUrl r = None.

(** A triple for code that may throw: from a state in [P], [m] returns in
    [Q] or throws in [E]. *)
Definition triple `{Env} {A} (P : Run -> Prop) (m : M A)
    (Q : A -> Run -> Prop) (E : Run -> Prop) : Prop :=
  ∀ r, P r → match m r with
             | (Ok a, r') => Q a r'
             | (Throw _, r') => E r'
             end.

(** A run that started in [r0] stopped before its last stage. *)
Definition stopped_early `{Env} (r0 : Run) (r : Run) : Prop :=
  ∃ k : nat, (k < length (stages r0))%nat ∧ at_stage r0 k r.

(** The engine can be used: the memoised binding is the loaded instance. *)
Definition ready `{Env} (c : Closure) (r : Run) : Prop :=
  ffmpeg c = RefCurrent ∧ ∃ files, ffmpegRef r = Some {| loaded := true; fs := files |}.

(** ** Scenarios on the stand-in environment *)

Definition three_minutes : File := {| name := "talk.mp4"; bytes := "abc" |}.
Definition one_minute : File := {| name := "clip.mp4"; bytes := "x" |}.
Definition silent : File := {| name := "empty.mp4"; bytes := "" |}.

(** The form filled in, as the first render's [handleStart] sees it. *)
Definition first_click : Closure :=
  {| apiKey := "sk-test"; videoFile := Some three_minutes; targetLang := "es";
     voice := alloy; maxMinutes := of_Z 45; ffmpeg := Null |}.

(** The same form once the memo has been recomputed after the instance
    was created. *)
Definition later_click (video : File) (minutes : JSNum) : Closure :=
  {| apiKey := "sk-test"; videoFile := Some video; targetLang := "es";
     voice := alloy; maxMinutes := minutes; ffmpeg := RefCurrent |}.

Definition fresh (script : list Scripted) : @Run stand_in :=
  @initial_run stand_in script.

(** The state after the first click (which loads the engine). *)
Definition engine_ready (script : list Scripted) : @Run stand_in :=
  (@handleStart stand_in first_click (fresh script)).2.

(** Two chunks go through, then the transcription service answers 401. *)
Definition unauthorized_on_third_chunk : list Scripted :=
  [Normal; Normal; Normal; Normal; Normal; Normal; Status 401].

(** The state after a complete run on the three-minute video. *)
Definition after_long_video : @Run stand_in :=
  (@handleStart stand_in (later_click three_minutes (of_Z 45)) (engine_ready [])).2.

(** A recording of 1001 minutes, the last minute unlike the others. *)
Fixpoint repeated (k : nat) (minute : Ascii.ascii) : string :=
  match k with
  | O => ""
  | S k' => String minute (repeated k' minute)
  end.

Definition long_recording : File :=
  {| name := "recording.mp4"; bytes := repeated 1000 "a" +:+ "z" |}.

(** ** The rest of the page *)

(** Line 210: [onChange] of the "OpenAI API Key" field. *)
Definition onChange_apiKey (value : string) (c : Closure) : Closure :=
  {| apiKey := value; videoFile := videoFile c; targetLang := targetLang c;
     voice := voice c; maxMinutes := maxMinutes c; ffmpeg := ffmpeg c |}.

(** Lines 57-60: the effect run once after mount, on [localStorage] as a
    map; [getItem] gives [null] for a key that is not there. *)
Definition restore_apiKey (storage : gmap string string) (c : Closure) : Closure :=
  match storage !! "openai_api_key" with
  | Some saved => if String.eqb saved "" then c else onChange_apiKey saved c
  | None => c
  end.

(** Lines 62-64: the effect run after a render in which [apiKey] changed. *)
Definition persist_apiKey (c : Closure) (storage : gmap string string)
    : gmap string string :=
  if String.eqb (apiKey c) "" then storage
  else <["openai_api_key" := apiKey c]> storage.

(** The statuses the [disabled] attribute of line 255 lists. *)
Definition busy (s : Step) : bool :=
  match s with
  | preparing | extracting | segmenting | transcribing | translating
  | synthesizing | concatenating | muxing => true
  | idle | done => false
  end.

(** Line 255: the [disabled] attribute of the "Start dubbing" button. *)
Definition start_disabled `{Env} (c : Closure) (r : Run) : bool :=
  String.eqb (apiKey c) "" ||
  match videoFile c with Some _ => false | None => true end ||
  busy (status r).

(** The name the upload is written under (line 106). *)
Definition input_name (video : File) : string :=
  if endsWith ".webm" (name video) then "input.webm" else "input.mp4".

(** The arguments of the engine commands of lines 110, 117 and 174-185. *)
Definition extract_args (inputName : string) : list string :=
  ["-i"; inputName; "-vn"; "-ac"; "1"; "-ar"; "16000"; "audio.wav"].

Definition segment_args : list string :=
  ["-i"; "audio.wav"; "-f"; "segment"; "-segment_time"; "60";
   "-c"; "copy"; "seg_%03d.wav"].

Definition mux_args (inputName : string) : list string :=
  ["-i"; inputName; "-i"; "dubbed.wav"; "-map"; "0:v:0"; "-map"; "1:a:0";
   "-c:v"; "libvpx"; "-crf"; "32"; "-b:v"; "0"; "-c:a"; "libopus";
   "-shortest"; "output.webm"].

(** The commands of one run, in the order [handleStart] issues them. *)
Definition commands (c : Closure) : list (list string) :=
  match videoFile c with
  | Some video =>
      [extract_args (input_name video); segment_args; concat_args;
       mux_args (input_name video)]
  | None => []
  end.

(** [m] issues the commands [cmds] in order: all of them when it returns,
    the first ones when it throws. *)
Definition issues `{Env} {A} (cmds : list (list string)) (m : M A) : Prop :=
  ∀ r, ∃ added,
    execLog (m r).2 = execLog r ++ added ∧
    added.*1 `prefix_of` cmds ∧
    (∀ a, (m r).1 = Ok a -> added.*1 = cmds).

(** [m] sends at most [k] requests. *)
Definition sends_at_most `{Env} {A} (k : nat) (m : M A) : Prop :=
  ∀ r, ∃ entries,
    fetchLog (m r).2 = fetchLog r ++ entries ∧ (length entries ≤ k)%nat.

(** From [r], [m] sets the status [s] before anything else is shown. *)
Definition enters `{Env} {A} (s : Step) (m : M A) (r : Run) : Prop :=
  ∃ added, statusLog (m r).2 = statusLog r ++ s :: added.

(** * Properties *)

(** ** Sequencing *)

Section Sequencing.
Context `{Env}.

Lemma bind_Ok {A B} (m : M A) (k : A -> M B) r b r' :
  bind m k r = (Ok b, r') ->
  ∃ a r1, m r = (Ok a, r1) ∧ k a r1 = (Ok b, r').
Proof.
  unfold bind. destruct (m r) as [[a|e] r1]; [eauto | discriminate].
Qed.

Lemma bind_eq_Ok {A B} (m : M A) (k : A -> M B) r a r1 :
  m r = (Ok a, r1) -> bind m k r = k a r1.
Proof. unfold bind. by intros ->. Qed.

Lemma bind_eq_Throw {A B} (m : M A) (k : A -> M B) r e r1 :
  m r = (Throw e, r1) -> bind m k r = (Throw e, r1).
Proof. unfold bind. by intros ->. Qed.

(** *** Frame rules *)

Lemma keeps_bind {X A B} (part : Run -> X) (m : M A) (k : A -> M B) :
  keeps part m -> (∀ a, keeps part (k a)) -> keeps part (bind m k).
Proof.
  intros Hm Hk r. unfold bind. specialize (Hm r).
  destruct (m r) as [[a|e] r1]; simpl in *; [|done].
  rewrite <- Hm. apply Hk.
Qed.

Lemma keeps_ret {X A} (part : Run -> X) (a : A) : keeps part (ret a).
Proof. by intros r. Qed.

Lemma keeps_throw {X A} (part : Run -> X) e : keeps part (throw (A := A) e).
Proof. by intros r. Qed.

Lemma keeps_try {X A} (part : Run -> X) (m : M A) :
  keeps part m -> keeps part (try_ m).
Proof. intros Hm r. apply Hm. Qed.

Lemma adds_only_bind {X A B} (part : Run -> list X) allowed (m : M A) (k : A -> M B) :
  adds_only part allowed m -> (∀ a, adds_only part allowed (k a)) ->
  adds_only part allowed (bind m k).
Proof.
  intros Hm Hk r. unfold bind. destruct (Hm r) as (l1 & H1 & Hall1).
  destruct (m r) as [[a|e] r1]; simpl in *; [|eauto].
  destruct (Hk a r1) as (l2 & H2 & Hall2). exists (l1 ++ l2).
  split; [by rewrite H2, H1, (assoc_L (++)) | by apply Forall_app].
Qed.

Lemma keeps_adds_only {X A} (part : Run -> list X) allowed (m : M A) :
  keeps part m -> adds_only part allowed m.
Proof. intros Hm r. exists []. by rewrite app_nil_r. Qed.

Lemma adds_only_setStatus (allowed : Step -> Prop) s :
  allowed s -> adds_only statusLog allowed (setStatus s).
Proof. intros Hs r. exists [s]. split; [done | by constructor]. Qed.

Lemma adds_only_record_exec args files :
  adds_only execLog (fun _ => True) (record_exec args files).
Proof. intros r. exists [(args, files)]. split; [done | by constructor]. Qed.

Lemma keeps_ui_statusLog {A} (m : M A) : keeps ui m -> keeps statusLog m.
Proof. intros Hm r. specialize (Hm r). unfold ui in Hm. congruence. Qed.

Lemma keeps_engine_execLog {A} (m : M A) : keeps engine m -> keeps execLog m.
Proof. intros Hm r. specialize (Hm r). unfold engine in Hm. congruence. Qed.

Lemma keeps_net_fetchLog {A} (m : M A) : keeps net m -> keeps fetchLog m.
Proof. intros Hm r. specialize (Hm r). unfold net in Hm. congruence. Qed.

End Sequencing.

Create HintDb frames.

#[export] Hint Resolve keeps_ret keeps_throw
  keeps_ui_statusLog keeps_engine_execLog keeps_net_fetchLog : frames.

(** Splits a frame goal along the structure of the program. *)
Ltac frame :=
  repeat first
    [ match goal with
      | |- keeps _ (bind _ _) => apply keeps_bind; [|intros ?]
      | |- keeps _ (try_ _) => apply keeps_try
      | |- keeps _ (if ?b then _ else _) => destruct b
      | |- keeps _ (match ?x with _ => _ end) => destruct x
      end
    | solve [auto with frames] ].

(** Splits a goal on a log along the program: the [setStatus] calls and
    the engine commands add to it, the rest keeps it. *)
Ltac adds_seq :=
  repeat match goal with
  | |- adds_only _ _ (bind _ _) => apply adds_only_bind; [|intros ?]
  | |- adds_only _ _ (if ?b then _ else _) => destruct b
  | |- adds_only _ _ (match ?x with _ => _ end) => destruct x
  | |- adds_only statusLog _ (setStatus _) => apply adds_only_setStatus; set_solver
  | |- adds_only execLog _ (record_exec _ _) => apply adds_only_record_exec
  | |- adds_only _ _ _ => assumption
  | |- adds_only _ _ _ => apply keeps_adds_only; frame
  end.

Section Frames.
Context `{Env}.

Lemma call_keeps_ui {A} c method (op : FS -> Result A * FS) : keeps ui (call c method op).
Proof.
  intros r. unfold call.
  destruct (ffmpeg c), (ffmpegRef r) as [inst|]; try done.
  destruct (loaded inst); [|done]. by destruct (op (fs inst)).
Qed.

Lemma call_keeps_net {A} c method (op : FS -> Result A * FS) : keeps net (call c method op).
Proof.
  intros r. unfold call.
  destruct (ffmpeg c), (ffmpegRef r) as [inst|]; try done.
  destruct (loaded inst); [|done]. by destruct (op (fs inst)).
Qed.

Lemma call_keeps_execLog {A} c method (op : FS -> Result A * FS) :
  keeps execLog (call c method op).
Proof.
  intros r. unfold call.
  destruct (ffmpeg c), (ffmpegRef r) as [inst|]; try done.
  destruct (loaded inst); [|done]. by destruct (op (fs inst)).
Qed.

Lemma record_exec_keeps_ui args files : keeps ui (record_exec args files).
Proof. by intros r. Qed.
Lemma record_exec_keeps_net args files : keeps net (record_exec args files).
Proof. by intros r. Qed.

Lemma setDownloadUrl_keeps_statusLog u : keeps statusLog (setDownloadUrl u).
Proof. by intros r. Qed.
Lemma record_exec_keeps_statusLog args files : keeps statusLog (record_exec args files).
Proof. by intros r. Qed.
Lemma new_FFmpeg_keeps_execLog : keeps execLog new_FFmpeg.
Proof. by intros r. Qed.
Lemma instance_load_keeps_execLog : keeps execLog instance_load.
Proof.
  intros r. unfold instance_load. destruct (ffmpegRef r); [|done].
  by destruct (engine_load (world r)) as [[] w].
Qed.
Lemma new_FFmpeg_keeps_ui : keeps ui new_FFmpeg.
Proof. by intros r. Qed.
Lemma new_FFmpeg_keeps_net : keeps net new_FFmpeg.
Proof. by intros r. Qed.
Lemma setDetail_keeps_ui d : keeps ui (setDetail d).
Proof. by intros r. Qed.
Lemma setDetail_keeps_net d : keeps net (setDetail d).
Proof. by intros r. Qed.
Lemma setDetail_keeps_engine d : keeps engine (setDetail d).
Proof. by intros r. Qed.
Lemma setProgress_keeps_ui p : keeps ui (setProgress p).
Proof. by intros r. Qed.
Lemma setProgress_keeps_net p : keeps net (setProgress p).
Proof. by intros r. Qed.
Lemma setProgress_keeps_engine p : keeps engine (setProgress p).
Proof. by intros r. Qed.
Lemma setStatus_keeps_net s : keeps net (setStatus s).
Proof. by intros r. Qed.
Lemma setStatus_keeps_engine s : keeps engine (setStatus s).
Proof. by intros r. Qed.
Lemma setDownloadUrl_keeps_net u : keeps net (setDownloadUrl u).
Proof. by intros r. Qed.
Lemma setDownloadUrl_keeps_engine u : keeps engine (setDownloadUrl u).
Proof. by intros r. Qed.

Lemma do_fetch_keeps_ui req : keeps ui (do_fetch req).
Proof.
  intros r. unfold do_fetch. destruct (fetch req (world r)) as [[|res] w]; done.
Qed.

Lemma do_fetch_keeps_engine req : keeps engine (do_fetch req).
Proof.
  intros r. unfold do_fetch. destruct (fetch req (world r)) as [[|res] w]; done.
Qed.

Lemma instance_load_keeps_ui : keeps ui instance_load.
Proof.
  intros r. unfold instance_load. destruct (ffmpegRef r); [|done].
  by destruct (engine_load (world r)) as [[] w].
Qed.

Lemma instance_load_keeps_fetchLog : keeps fetchLog instance_load.
Proof.
  intros r. unfold instance_load. destruct (ffmpegRef r); [|done].
  by destruct (engine_load (world r)) as [[] w].
Qed.

End Frames.

#[export] Hint Resolve call_keeps_ui call_keeps_net call_keeps_execLog
  setDownloadUrl_keeps_statusLog record_exec_keeps_statusLog
  new_FFmpeg_keeps_execLog instance_load_keeps_execLog
  new_FFmpeg_keeps_ui new_FFmpeg_keeps_net
  record_exec_keeps_ui record_exec_keeps_net
  setDetail_keeps_ui setDetail_keeps_net setDetail_keeps_engine
  setProgress_keeps_ui setProgress_keeps_net setProgress_keeps_engine
  setStatus_keeps_net setStatus_keeps_engine
  setDownloadUrl_keeps_net setDownloadUrl_keeps_engine
  do_fetch_keeps_ui do_fetch_keeps_engine
  instance_load_keeps_ui instance_load_keeps_fetchLog : frames.

Section Helpers.
Context `{Env}.

Lemma deleteFile_keeps_ui c path : keeps ui (deleteFile c path).
Proof. unfold deleteFile. frame. Qed.
Lemma deleteFile_keeps_net c path : keeps net (deleteFile c path).
Proof. unfold deleteFile. frame. Qed.
Lemma writeFile_keeps_ui c path data : keeps ui (writeFile c path data).
Proof. unfold writeFile. frame. Qed.
Lemma writeFile_keeps_net c path data : keeps net (writeFile c path data).
Proof. unfold writeFile. frame. Qed.
Lemma readFile_keeps_ui c path : keeps ui (readFile c path).
Proof. unfold readFile. frame. Qed.
Lemma readFile_keeps_net c path : keeps net (readFile c path).
Proof. unfold readFile. frame. Qed.
Lemma listDir_names_keeps_ui c : keeps ui (listDir_names c).
Proof. unfold listDir_names. frame. Qed.
Lemma listDir_names_keeps_net c : keeps net (listDir_names c).
Proof. unfold listDir_names. frame. Qed.
Lemma exec_keeps_ui c args : keeps ui (exec c args).
Proof. unfold exec. frame. Qed.
Lemma exec_keeps_net c args : keeps net (exec c args).
Proof. unfold exec. frame. Qed.

Lemma deleteFile_keeps_execLog c path : keeps execLog (deleteFile c path).
Proof. unfold deleteFile. frame. Qed.
Lemma writeFile_keeps_execLog c path data : keeps execLog (writeFile c path data).
Proof. unfold writeFile. frame. Qed.
Lemma readFile_keeps_execLog c path : keeps execLog (readFile c path).
Proof. unfold readFile. frame. Qed.
Lemma listDir_names_keeps_execLog c : keeps execLog (listDir_names c).
Proof. unfold listDir_names. frame. Qed.

Lemma res_json_keeps {X} (part : Run -> X) res : keeps part (res_json res).
Proof. unfold res_json. frame. Qed.

Lemma member_keeps {X} (part : Run -> X) data k : keeps part (member data k).
Proof. unfold member. frame. Qed.

End Helpers.

#[export] Hint Resolve deleteFile_keeps_ui deleteFile_keeps_net
  writeFile_keeps_ui writeFile_keeps_net readFile_keeps_ui readFile_keeps_net
  listDir_names_keeps_ui listDir_names_keeps_net exec_keeps_ui exec_keeps_net
  deleteFile_keeps_execLog writeFile_keeps_execLog readFile_keeps_execLog
  listDir_names_keeps_execLog
  res_json_keeps member_keeps : frames.

Section Services.
Context `{Env}.

Lemma transcribeWithOpenAI_keeps_ui key audio : keeps ui (transcribeWithOpenAI key audio).
Proof. unfold transcribeWithOpenAI. frame. Qed.
Lemma transcribeWithOpenAI_keeps_engine key audio :
  keeps engine (transcribeWithOpenAI key audio).
Proof. unfold transcribeWithOpenAI. frame. Qed.
Lemma translateWithOpenAI_keeps_ui key text lang : keeps ui (translateWithOpenAI key text lang).
Proof. unfold translateWithOpenAI. frame. Qed.
Lemma translateWithOpenAI_keeps_engine key text lang :
  keeps engine (translateWithOpenAI key text lang).
Proof. unfold translateWithOpenAI. frame. Qed.
Lemma ttsWithOpenAI_keeps_ui key text v : keeps ui (ttsWithOpenAI key text v).
Proof. unfold ttsWithOpenAI. frame. Qed.
Lemma ttsWithOpenAI_keeps_engine key text v : keeps engine (ttsWithOpenAI key text v).
Proof. unfold ttsWithOpenAI. frame. Qed.

End Services.

#[export] Hint Resolve transcribeWithOpenAI_keeps_ui transcribeWithOpenAI_keeps_engine
  translateWithOpenAI_keeps_ui translateWithOpenAI_keeps_engine
  ttsWithOpenAI_keeps_ui ttsWithOpenAI_keeps_engine : frames.

Section Loop.
Context `{Env}.

Lemma process_segment_keeps_ui c n i segName : keeps ui (process_segment c n i segName).
Proof. unfold process_segment. frame. Qed.

Lemma process_segments_keeps_ui c n segs :
  ∀ i dubbed, keeps ui (process_segments c n i segs dubbed).
Proof.
  induction segs as [|seg rest IH]; intros i dubbed; simpl.
  - frame.
  - apply keeps_bind; [apply process_segment_keeps_ui | intros ?; apply IH].
Qed.

Lemma list_segments_keeps_ui c : keeps ui (list_segments c).
Proof. unfold list_segments. frame. Qed.

End Loop.

(** ** The status protocol of one run *)

Section Stages.
Context `{Env}.

Lemma triple_bind {A B} P (m : M A) (k : A -> M B) Q Q' E :
  triple P m Q E -> (∀ a, triple (Q a) (k a) Q' E) -> triple P (bind m k) Q' E.
Proof.
  intros Hm Hk r HP. unfold bind. specialize (Hm r HP).
  destruct (m r) as [[a|e] r1]; [by apply Hk | done].
Qed.

Lemma triple_ret {A} (P : Run -> Prop) (a : A) E : triple P (ret a) (fun _ => P) E.
Proof. by intros r HP. Qed.

Lemma triple_throw {A} (P : Run -> Prop) e (Q : A -> Run -> Prop) (E : Run -> Prop) :
  (∀ r, P r -> E r) -> triple P (throw e) Q E.
Proof. intros HE r HP. by apply HE. Qed.

Lemma at_stage_ui r0 k r r' : ui r' = ui r -> at_stage r0 k r -> at_stage r0 k r'.
Proof.
  unfold ui, at_stage. intros [= -> -> ->]. done.
Qed.

(** A step that keeps the interface state stays at its stage. *)
Lemma triple_stay {A} r0 (j : nat) (m : M A) :
  (j < length (stages r0))%nat ->
  keeps ui m ->
  triple (at_stage r0 j) m (fun _ => at_stage r0 j) (stopped_early r0).
Proof.
  intros Hj Hm r HP. specialize (Hm r).
  destruct (m r) as [[a|e] r1]; simpl in *.
  - by apply (at_stage_ui r0 j r).
  - exists j. split; [done|]. by apply (at_stage_ui r0 j r).
Qed.

(** [setStatus] of the next stage moves one stage forward. *)
Lemma triple_setStatus r0 (j : nat) s :
  stages r0 !! j = Some s ->
  triple (at_stage r0 j) (setStatus s) (fun _ => at_stage r0 (S j)) (stopped_early r0).
Proof.
  intros Hs r (Hlog & Hst & Hurl). unfold setStatus, at_stage; simpl.
  rewrite (take_S_r _ _ _ Hs), last_last, Hlog, (assoc_L (++)). done.
Qed.

Lemma ensureFFmpeg_stage r0 :
  triple (fun r => at_stage r0 0 r ∧ ffmpegRef r = ffmpegRef r0) ensureFFmpeg
         (fun _ => at_stage r0 (length (stages r0) - 6)) (stopped_early r0).
Proof.
  intros r [Hst Href]. unfold ensureFFmpeg, stages. rewrite Href.
  destruct (ffmpegRef r0) as [inst|] eqn:Hr0.
  - assert (length (stages r0) - 6 = 0)%nat as Hlen
      by (unfold stages; by rewrite Hr0).
    simpl. destruct (loaded inst).
    + done.
    + pose proof (instance_load_keeps_ui r) as Hui.
      destruct (instance_load r) as [[a|e] r1]; simpl in *.
      * by apply (at_stage_ui r0 0%nat r).
      * exists 0%nat. split; [unfold stages; rewrite Hr0; simpl; lia|].
        by apply (at_stage_ui r0 0%nat r).
  - assert (stages r0 = preparing :: [extracting; segmenting; transcribing;
                                      concatenating; muxing; done]) as Hstages
      by (unfold stages; by rewrite Hr0).
    assert (triple (at_stage r0 0)
              (setStatus preparing ;;;
               setDetail "Loading ffmpeg.wasm (~25MB)..." ;;; new_FFmpeg ;;; instance_load)
              (fun _ => at_stage r0 1) (stopped_early r0)) as Ht.
    { eapply triple_bind; [apply triple_setStatus; by rewrite Hstages|intros ?].
      apply triple_stay; [rewrite Hstages; simpl; lia|].
      frame. }
    specialize (Ht r Hst). simpl.
    destruct (bind _ _ r) as [[a|e] r1]; done.
Qed.

End Stages.

(** Side conditions on the stage list, by cases on the instance. *)
Ltac stage_side :=
  unfold stages; destruct (ffmpegRef _); simpl; first [done | lia].

(** One statement of a run, against the stage it is at. *)
Ltac stage_one :=
  first [ apply triple_setStatus; stage_side
        | apply triple_ret
        | apply triple_stay; [stage_side | frame] ].

(** A sequence of statements. *)
Ltac stage_seq :=
  repeat (eapply triple_bind; [stage_one | intros ?]); stage_one.

Section Protocol.
Context `{Env}.

Lemma reset_and_extract_stage c video r0 :
  triple (at_stage r0 (length (stages r0) - 6)) (reset_and_extract c video)
         (fun _ => at_stage r0 (S (length (stages r0) - 6))) (stopped_early r0).
Proof. unfold reset_and_extract. stage_seq. Qed.

Lemma segment_stage c r0 :
  triple (at_stage r0 (S (length (stages r0) - 6))) (segment c)
         (fun _ => at_stage r0 (S (S (length (stages r0) - 6)))) (stopped_early r0).
Proof. unfold segment. stage_seq. Qed.

Lemma start_to_segment_stage c r0 :
  triple (fun r => r = r0) (start_to_segment c)
         (fun _ => at_stage r0 (S (S (length (stages r0) - 6)))) (stopped_early r0).
Proof.
  assert (0 < length (stages r0))%nat as Hpos by stage_side.
  set (P := fun r => at_stage r0 0 r ∧ ffmpegRef r = ffmpegRef r0).
  assert (∀ r, P r -> stopped_early r0 r) as HPE.
  { intros r [Hr _]. by exists 0%nat. }
  unfold start_to_segment.
  apply (triple_bind _ _ _ (fun _ => P)).
  { intros r ->. unfold P, at_stage. simpl. by rewrite app_nil_r. }
  intros ?.
  apply (triple_bind _ _ _ (fun _ => P)).
  { destruct (String.eqb (apiKey c) ""); [by apply triple_throw | apply triple_ret]. }
  intros ?.
  apply (triple_bind _ _ _ (fun _ => P)).
  { destruct (videoFile c); [apply triple_ret | by apply triple_throw]. }
  intros video.
  eapply triple_bind; [apply ensureFFmpeg_stage | intros ?].
  eapply triple_bind; [apply reset_and_extract_stage | intros inputName].
  eapply triple_bind; [apply segment_stage | intros ?].
  apply triple_ret.
Qed.

Lemma mux_stage c inputName r0 :
  triple (at_stage r0 (S (S (S (S (length (stages r0) - 6)))))) (mux c inputName)
         (fun _ r' => statusLog r' = statusLog r0 ++ stages r0 ∧
                      status r' = done ∧ is_Some (downloadUrl r'))
         (stopped_early r0).
Proof.
  unfold mux.
  do 5 (eapply triple_bind; [stage_one | intros ?]).
  intros r (Hlog & _ & _). unfold bind; simpl. rewrite Hlog.
  split_and!; [|done|by eexists].
  rewrite <- (assoc_L (++)). f_equal.
  unfold stages. by destruct (ffmpegRef r0).
Qed.

Lemma dub_and_publish_stage c inputName used r0 :
  triple (at_stage r0 (S (S (length (stages r0) - 6))))
         (dub_and_publish c inputName used)
         (fun _ r' => statusLog r' = statusLog r0 ++ stages r0 ∧
                      status r' = done ∧ is_Some (downloadUrl r'))
         (stopped_early r0).
Proof.
  unfold dub_and_publish.
  eapply triple_bind; [stage_one | intros ?].
  eapply triple_bind; [|intros dubbed].
  { apply triple_stay; [stage_side | apply process_segments_keeps_ui]. }
  eapply triple_bind; [|intros ?; apply mux_stage].
  unfold concat_tts. stage_seq.
Qed.

(** What one run does to the status, its log and the artifact. *)
Lemma handleStart_ui c r0 :
  match handleStart c r0 with
  | (Ok _, r') =>
      statusLog r' = statusLog r0 ++ stages r0 ∧ status r' = done ∧
      is_Some (downloadUrl r')
  | (Throw _, r') => stopped_early r0 r'
  end.
Proof.
  assert (triple (fun r => r = r0) (handleStart c)
            (fun _ r' => statusLog r' = statusLog r0 ++ stages r0 ∧
                         status r' = done ∧ is_Some (downloadUrl r'))
            (stopped_early r0)) as Ht.
  { unfold handleStart.
    eapply triple_bind; [apply start_to_segment_stage | intros inputName].
    eapply triple_bind; [|intros files; apply dub_and_publish_stage].
    apply triple_stay; [stage_side | apply list_segments_keeps_ui]. }
  exact (Ht r0 eq_refl).
Qed.

End Protocol.

(** ** The orchestrator's status and artifact *)

Section Orchestrator.
Context `{Env}.

(** C10: whatever the state a run starts from (a stale artifact
    included), the artifact handle is set after the run exactly when the
    run returned, and then the status is [done]; a run that throws at any
    stage ends with the handle cleared. *)
Theorem artifact_only_when_done (c : Closure) (r : Run) :
  (is_Some (downloadUrl (handleStart c r).2) ↔ (handleStart c r).1 = Ok tt) ∧
  (is_Some (downloadUrl (handleStart c r).2) → status (handleStart c r).2 = done) ∧
  (∀ e, (handleStart c r).1 = Throw e → downloadUrl (handleStart c r).2 = None).
Proof.
  pose proof (handleStart_ui c r) as Hui.
  destruct (handleStart c r) as [[[]|e] r']; simpl.
  - destruct Hui as (_ & Hdone & Hurl). split_and!; done.
  - destruct Hui as (k & _ & _ & _ & Hurl). rewrite Hurl.
    split_and!; [|by intros [? [=]]|done].
    split; [by intros [? [=]]|done].
Qed.

(** C3, as amended: the statuses one run sets are the first [k] of its
    stages, in order and without repetition ([preparing] is a stage only
    when no engine instance exists yet); the status it leaves is the last
    one it set (or the one it found), and the run returns exactly when it
    went through all of them up to [done]. *)
Theorem statuses_follow_stage_order (c : Closure) (r : Run) :
  ∃ k : nat,
    new_statuses r (handleStart c r).2 = take k (stages r) ∧
    status (handleStart c r).2 = List.last (take k (stages r)) (status r) ∧
    ((handleStart c r).1 = Ok tt ↔ k = length (stages r)).
Proof.
  pose proof (handleStart_ui c r) as Hui. unfold new_statuses.
  destruct (handleStart c r) as [[[]|e] r']; simpl.
  - destruct Hui as (Hlog & Hdone & _). exists (length (stages r)).
    rewrite Hlog, drop_app_length, firstn_all, Hdone.
    split_and!; [done| |done].
    unfold stages. by destruct (ffmpegRef r).
  - destruct Hui as (k & Hk & Hlog & Hst & _). exists k.
    rewrite Hlog, drop_app_length. split_and!; [done..|].
    split; [done | lia].
Qed.

End Orchestrator.

(** C3, as stated, fails on the very first click: the memoised [ffmpeg]
    is still [null], [writeFile] throws a [TypeError] during extraction,
    and the status stays [extracting], one of the forward states. *)
Lemma first_click_stays_extracting :
  ¬ @follows_spec_orchestrator stand_in first_click (fresh []).
Proof.
  intros [_ Hfailed].
  assert ((@handleStart stand_in first_click (fresh [])).1 =
          Throw (TypeError "Cannot read properties of null (reading 'writeFile')"))
    as Hthrow by (vm_compute; reflexivity).
  assert (status (@handleStart stand_in first_click (fresh [])).2 = extracting)
    as Hstatus by (vm_compute; reflexivity).
  apply (Hfailed _ Hthrow). rewrite Hstatus.
  unfold forward_order. set_solver.
Qed.

(** ** Fail-fast service calls *)

Section FailFast.
Context `{Env}.

Lemma fail_fast_nil err : fail_fast [] err.
Proof. intros pre req res post Heq. by destruct pre. Qed.

Lemma fail_fast_ok_entry req res err :
  res_ok res = true -> fail_fast [(req, Resolved res)] err.
Proof.
  intros Hok pre req' res' post Heq Hnot.
  destruct pre as [|? [|? ?]]; simplify_eq/=. congruence.
Qed.

Lemma fail_fast_rejected req err : fail_fast [(req, Rejected)] err.
Proof.
  intros pre req' res' post Heq Hnot.
  destruct pre as [|? [|? ?]]; simplify_eq/=.
Qed.

Lemma fail_fast_last req res :
  fail_fast [(req, Resolved res)] (Some (Error (failure_message req res))).
Proof.
  intros pre req' res' post Heq Hnot.
  destruct pre as [|? [|? ?]]; simplify_eq/=. done.
Qed.

Lemma fail_fast_app entries1 entries2 err :
  fail_fast entries1 None -> fail_fast entries2 err ->
  fail_fast (entries1 ++ entries2) err.
Proof.
  intros H1 H2 pre req res post Heq Hnot.
  apply app_eq_app in Heq as [l [[Hl Hr]|[Hl Hr]]].
  - destruct l as [|x l'].
    + simpl in Hr. by apply (H2 [] req res post).
    + simplify_eq/=. by destruct (H1 pre req res l' eq_refl Hnot).
  - by apply (H2 l req res post).
Qed.

Lemma fails_fast_bind {A B} (m : M A) (k : A -> M B) :
  fails_fast m -> (∀ a, fails_fast (k a)) -> fails_fast (bind m k).
Proof.
  intros Hm Hk r. unfold bind. destruct (Hm r) as (es1 & Hlog1 & Hff1).
  destruct (m r) as [[a|e] r1]; simpl in *; [|eauto].
  destruct (Hk a r1) as (es2 & Hlog2 & Hff2).
  exists (es1 ++ es2). split; [by rewrite Hlog2, Hlog1, (assoc_L (++))|].
  by apply fail_fast_app.
Qed.

Lemma keeps_fails_fast {A} (m : M A) : keeps fetchLog m -> fails_fast m.
Proof.
  intros Hm r. exists []. rewrite app_nil_r. split; [apply Hm | apply fail_fast_nil].
Qed.

(** The shape shared by the three helpers: one [fetch], the check of
    [res.ok], and a continuation that sends nothing. *)
Lemma call_then_check {A} req prefix (k : Response -> M A) r :
  (∀ res, keeps fetchLog (k res)) ->
  (∀ res, failure_message req res = prefix +:+ pretty (res_status res)) ->
  (∀ res r' msg, (k res r').1 ≠ Throw (Error msg)) ->
  let m := res <- do_fetch req ;;;
           if negb (res_ok res)
           then throw (Error (prefix +:+ pretty (res_status res)))
           else k res in
  ∃ outcome,
    fetchLog (m r).2 = fetchLog r ++ [(req, outcome)] ∧
    fail_fast [(req, outcome)] (error_of (m r).1) ∧
    ∀ res, outcome = Resolved res ->
      (res_ok res = false ↔ error_of (m r).1 = Some (Error (failure_message req res))).
Proof.
  intros Hk Hmsg Hnever m. subst m. unfold bind, do_fetch.
  destruct (fetch req (world r)) as [[|res] w]; simpl.
  - exists Rejected. split_and!; [done | apply fail_fast_rejected | done].
  - exists (Resolved res). destruct (res_ok res) eqn:Hok; simpl.
    + rewrite Hk. simpl. split_and!; [done | by apply fail_fast_ok_entry |].
      intros ? [= <-]. rewrite Hok. split; [done|].
      specialize (Hnever res (log_fetch req (Resolved res) (set_world w r))
                         (failure_message req res)).
      destruct (k res _) as [[a|e] r']; simpl in *; [done|congruence].
    + rewrite <- Hmsg. split_and!; [done | apply fail_fast_last |].
      intros ? [= <-]. by rewrite Hok.
Qed.

Lemma transcribeWithOpenAI_checks key audio r :
  ∃ outcome,
    fetchLog (transcribeWithOpenAI key audio r).2 =
      fetchLog r ++ [(Transcriptions key audio, outcome)] ∧
    fail_fast [(Transcriptions key audio, outcome)]
              (error_of (transcribeWithOpenAI key audio r).1) ∧
    ∀ res, outcome = Resolved res ->
      (res_ok res = false ↔
       error_of (transcribeWithOpenAI key audio r).1 =
         Some (Error (failure_message (Transcriptions key audio) res))).
Proof.
  apply (call_then_check (Transcriptions key audio) "Transcription failed: "
           (fun res => data <- res_json res ;;; member data "text")).
  - intros res. frame.
  - done.
  - intros res r' msg. unfold bind, res_json, member.
    destruct (json res) as [data|]; [|done]. simpl. by destruct (nullish data).
Qed.

Lemma translateWithOpenAI_checks key text lang r :
  ∃ outcome,
    fetchLog (translateWithOpenAI key text lang r).2 =
      fetchLog r ++ [(ChatCompletions key (system_prompt lang) text, outcome)] ∧
    fail_fast [(ChatCompletions key (system_prompt lang) text, outcome)]
              (error_of (translateWithOpenAI key text lang r).1) ∧
    ∀ res, outcome = Resolved res ->
      (res_ok res = false ↔
       error_of (translateWithOpenAI key text lang r).1 =
         Some (Error (failure_message
                        (ChatCompletions key (system_prompt lang) text) res))).
Proof.
  apply (call_then_check (ChatCompletions key (system_prompt lang) text)
           "Translation failed: "
           (fun res => data <- res_json res ;;;
                       choices <- member data "choices" ;;;
                       ret (js_or (content_field choices) (JStr "")))).
  - intros res. frame.
  - done.
  - intros res r' msg. unfold bind, res_json, member.
    destruct (json res) as [data|]; [|done]. simpl. by destruct (nullish data).
Qed.

Lemma ttsWithOpenAI_checks key text v r :
  ∃ outcome,
    fetchLog (ttsWithOpenAI key text v r).2 =
      fetchLog r ++ [(Speech key v text, outcome)] ∧
    fail_fast [(Speech key v text, outcome)]
              (error_of (ttsWithOpenAI key text v r).1) ∧
    ∀ res, outcome = Resolved res ->
      (res_ok res = false ↔
       error_of (ttsWithOpenAI key text v r).1 =
         Some (Error (failure_message (Speech key v text) res))).
Proof.
  apply (call_then_check (Speech key v text) "TTS failed: " (fun res => ret (body res))).
  - intros res. frame.
  - done.
  - done.
Qed.

Lemma transcribeWithOpenAI_fails_fast key audio : fails_fast (transcribeWithOpenAI key audio).
Proof.
  intros r. destruct (transcribeWithOpenAI_checks key audio r) as (o & ? & ? & _). eauto.
Qed.

Lemma translateWithOpenAI_fails_fast key text lang :
  fails_fast (translateWithOpenAI key text lang).
Proof.
  intros r. destruct (translateWithOpenAI_checks key text lang r) as (o & ? & ? & _).
  eauto.
Qed.

Lemma ttsWithOpenAI_fails_fast key text v : fails_fast (ttsWithOpenAI key text v).
Proof.
  intros r. destruct (ttsWithOpenAI_checks key text v r) as (o & ? & ? & _). eauto.
Qed.

End FailFast.

(** Splits a fail-fast goal along the program; what is left sends nothing. *)
Ltac fail_fast_seq :=
  repeat match goal with
  | |- fails_fast (bind _ _) => apply fails_fast_bind; [|intros ?]
  | |- fails_fast (transcribeWithOpenAI _ _) => apply transcribeWithOpenAI_fails_fast
  | |- fails_fast (translateWithOpenAI _ _ _) => apply translateWithOpenAI_fails_fast
  | |- fails_fast (ttsWithOpenAI _ _ _) => apply ttsWithOpenAI_fails_fast
  | |- fails_fast _ => apply keeps_fails_fast; frame
  end.

Section FailFastRun.
Context `{Env}.

Lemma ensureFFmpeg_keeps_fetchLog : keeps fetchLog ensureFFmpeg.
Proof.
  intros r. unfold ensureFFmpeg. destruct (ffmpegRef r) as [inst|].
  - destruct (loaded inst); [done | apply instance_load_keeps_fetchLog].
  - revert r.
    change (keeps fetchLog (setStatus preparing ;;;
                            setDetail "Loading ffmpeg.wasm (~25MB)..." ;;;
                            new_FFmpeg ;;; instance_load)).
    frame.
Qed.

Lemma process_segment_fails_fast c n i segName : fails_fast (process_segment c n i segName).
Proof. unfold process_segment. fail_fast_seq. Qed.

Lemma process_segments_fails_fast c n segs :
  ∀ i dubbed, fails_fast (process_segments c n i segs dubbed).
Proof.
  induction segs as [|seg rest IH]; intros i dubbed; simpl.
  - fail_fast_seq.
  - apply fails_fast_bind; [apply process_segment_fails_fast | intros ?; apply IH].
Qed.

Lemma handleStart_fails_fast c : fails_fast (handleStart c).
Proof.
  pose proof ensureFFmpeg_keeps_fetchLog.
  unfold handleStart, start_to_segment, reset_and_extract, segment, list_segments,
    dub_and_publish, concat_tts, mux.
  do 3 (apply fails_fast_bind; [fail_fast_seq | intros ?]).
  apply fails_fast_bind; [apply process_segments_fails_fast | intros ?].
  fail_fast_seq.
Qed.

End FailFastRun.

Section FailFastClaim.
Context `{Env}.

(** C5: each helper sends its request once and throws the error carrying
    the HTTP status exactly when the response is not ok; in a run, a
    response that is not ok is the last request sent (nothing is retried,
    no later chunk is touched), the run throws that very error, and no
    artifact is published. *)
Theorem service_failure_aborts_run :
  (∀ key audio r,
     fails_exactly_on_not_ok (transcribeWithOpenAI key audio)
                             (Transcriptions key audio) r) ∧
  (∀ key text lang r,
     fails_exactly_on_not_ok (translateWithOpenAI key text lang)
                             (ChatCompletions key (system_prompt lang) text) r) ∧
  (∀ key text v r,
     fails_exactly_on_not_ok (ttsWithOpenAI key text v) (Speech key v text) r) ∧
  (∀ c r, fail_fast (new_fetches r (handleStart c r).2) (error_of (handleStart c r).1)) ∧
  (∀ c r e, (handleStart c r).1 = Throw e -> downloadUrl (handleStart c r).2 = None).
Proof.
  split_and!.
  - intros key audio r.
    destruct (transcribeWithOpenAI_checks key audio r) as (o & ? & _ & ?).
    by exists o.
  - intros key text lang r.
    destruct (translateWithOpenAI_checks key text lang r) as (o & ? & _ & ?).
    by exists o.
  - intros key text v r.
    destruct (ttsWithOpenAI_checks key text v r) as (o & ? & _ & ?).
    by exists o.
  - intros c r. destruct (handleStart_fails_fast c r) as (entries & Hlog & Hff).
    unfold new_fetches. by rewrite Hlog, drop_app_length.
  - intros c r e Hthrow. pose proof (handleStart_ui c r) as Hui.
    destruct (handleStart c r) as [[[]|e'] r']; simplify_eq/=.
    by destruct Hui as (k & _ & _ & _ & Hurl).
Qed.

End FailFastClaim.

(** Scenario D of the spec on the stand-in environment: a 401 from the
    transcription service on the third chunk. *)
Example unauthorized_on_third_chunk_aborts :
  let run := @handleStart stand_in (later_click three_minutes (of_Z 45))
                          (engine_ready unauthorized_on_third_chunk) in
  run.1 = Throw (Error "Transcription failed: 401") ∧
  length (new_fetches (engine_ready unauthorized_on_third_chunk) run.2) = 7%nat ∧
  status run.2 = transcribing ∧
  downloadUrl run.2 = None.
Proof. vm_compute. done. Qed.

Lemma service_failure_aborts_run_witness :
  let r := engine_ready unauthorized_on_third_chunk in
  let run := @handleStart stand_in (later_click three_minutes (of_Z 45)) r in
  let rejected := {| res_status := 401; json := None; body := "" |} in
  ∃ pre,
    @new_fetches stand_in r run.2 =
      pre ++ [(Transcriptions "sk-test" "c", Resolved rejected)] ∧
    length pre = 6%nat ∧
    error_of run.1 = Some (Error "Transcription failed: 401").
Proof.
  intros r run rejected.
  exists (take 6 (@new_fetches stand_in r run.2)).
  assert (@new_fetches stand_in r run.2 =
          take 6 (@new_fetches stand_in r run.2) ++
          [(Transcriptions "sk-test" "c", Resolved rejected)]) as Hlog
    by (vm_compute; reflexivity).
  split_and!; [exact Hlog | vm_compute; reflexivity |].
  exact (proj2 (proj1 (proj2 (proj2 (proj2 (@service_failure_aborts_run stand_in))))
                 (later_click three_minutes (of_Z 45)) r _ _ rejected [] Hlog eq_refl)).
Defined.

(** ** Calls on a ready engine *)

Section Ready.
Context `{Env}.

Lemma set_ffmpegRef_id r i : ffmpegRef r = i -> set_ffmpegRef i r = r.
Proof. destruct r. simpl. by intros ->. Qed.

Lemma call_ready {A} c method (op : FS -> Result A * FS) r files :
  ffmpeg c = RefCurrent ->
  ffmpegRef r = Some {| loaded := true; fs := files |} ->
  call c method op r =
    ((op files).1, set_ffmpegRef (Some {| loaded := true; fs := (op files).2 |}) r).
Proof. intros Hc Hr. unfold call. rewrite Hc, Hr. simpl. by destruct (op files). Qed.

Lemma call_Ok {A} c method (op : FS -> Result A * FS) r a r' :
  call c method op r = (Ok a, r') ->
  ∃ files, ffmpeg c = RefCurrent ∧
           ffmpegRef r = Some {| loaded := true; fs := files |} ∧
           (op files).1 = Ok a ∧
           r' = set_ffmpegRef (Some {| loaded := true; fs := (op files).2 |}) r.
Proof.
  unfold call. destruct (ffmpeg c); [done|].
  destruct (ffmpegRef r) as [[[] files]|]; [|done..]. simpl.
  destruct (op files) as [res files'] eqn:Hop. intros [= -> <-].
  exists files. by rewrite Hop.
Qed.

Lemma exec_Ok c args r r' :
  exec c args r = (Ok tt, r') ->
  ∃ files, ffmpeg c = RefCurrent ∧
           ffmpegRef r = Some {| loaded := true; fs := files |} ∧
           r' = log_exec args files
                  (set_ffmpegRef (Some {| loaded := true; fs := engine_exec args files |}) r).
Proof.
  unfold exec. intros (files & r1 & Hcall & Hrec)%bind_Ok.
  apply call_Ok in Hcall as (files' & Hc & Hr & [= <-] & ->).
  injection Hrec as <-. by exists files'.
Qed.

Lemma try_deleteFile_ready c path r files :
  ffmpeg c = RefCurrent ->
  ffmpegRef r = Some {| loaded := true; fs := files |} ->
  try_ (deleteFile c path) r =
    (Ok tt, set_ffmpegRef (Some {| loaded := true; fs := delete path files |}) r).
Proof.
  intros Hc Hr. unfold try_, deleteFile. rewrite (call_ready _ _ _ _ files Hc Hr).
  simpl. destruct (files !! path) eqn:Hpath; simpl; [done|].
  by rewrite delete_id.
Qed.

Lemma writeFile_ready c path data r files :
  ffmpeg c = RefCurrent ->
  ffmpegRef r = Some {| loaded := true; fs := files |} ->
  writeFile c path data r =
    (Ok tt, set_ffmpegRef (Some {| loaded := true; fs := <[path := data]> files |}) r).
Proof. intros Hc Hr. unfold writeFile. by rewrite (call_ready _ _ _ _ files Hc Hr). Qed.

Lemma exec_ready c args r files :
  ffmpeg c = RefCurrent ->
  ffmpegRef r = Some {| loaded := true; fs := files |} ->
  exec c args r =
    (Ok tt, log_exec args files
              (set_ffmpegRef (Some {| loaded := true; fs := engine_exec args files |}) r)).
Proof.
  intros Hc Hr. unfold exec, bind. by rewrite (call_ready _ _ _ _ files Hc Hr).
Qed.

Lemma start_to_segment_ready c r inputName r1 :
  start_to_segment c r = (Ok inputName, r1) -> ready c r1.
Proof.
  unfold start_to_segment.
  intros (? & ? & _ & (? & ? & _ & (? & ? & _ & (? & ? & _ &
          (? & ? & _ & ([] & r2 & Hseg & [= _ <-])%bind_Ok)
          %bind_Ok)%bind_Ok)%bind_Ok)%bind_Ok)%bind_Ok.
  unfold segment in Hseg.
  apply bind_Ok in Hseg as (? & ? & _ & (? & ? & _ & (? & ? & _ & Hexec)
          %bind_Ok)%bind_Ok).
  apply exec_Ok in Hexec as (files & Hc & _ & ->).
  split; [done|]. by eexists.
Qed.

Lemma list_segments_ready c r :
  ready c r ->
  list_segments c r =
    if decide (listed_segments r = [])
    then (Throw (Error "No segments produced"), r)
    else (Ok (listed_segments r), r).
Proof.
  intros [Hc [files Hr]]. unfold list_segments, listDir_names, bind, listed_segments.
  rewrite (call_ready _ _ _ _ files Hc Hr), Hr. simpl.
  rewrite (set_ffmpegRef_id r _ Hr).
  destruct (js_sort _); by simpl.
Qed.

Lemma ensureFFmpeg_adds_statuses (allowed : Step -> Prop) :
  allowed preparing -> adds_only statusLog allowed ensureFFmpeg.
Proof.
  intros Hallowed r. unfold ensureFFmpeg. destruct (ffmpegRef r) as [inst|].
  - destruct (loaded inst); [exists []; by rewrite app_nil_r|].
    revert r. apply keeps_adds_only. frame.
  - revert r.
    change (adds_only statusLog allowed
              (setStatus preparing ;;;
               setDetail "Loading ffmpeg.wasm (~25MB)..." ;;;
               new_FFmpeg ;;; instance_load)).
    apply adds_only_bind; [by apply adds_only_setStatus | intros ?].
    apply keeps_adds_only. frame.
Qed.

Lemma ensureFFmpeg_keeps_execLog : keeps execLog ensureFFmpeg.
Proof.
  intros r. unfold ensureFFmpeg. destruct (ffmpegRef r) as [inst|].
  - destruct (loaded inst); [done | apply instance_load_keeps_execLog].
  - revert r.
    change (keeps execLog (setStatus preparing ;;;
                           setDetail "Loading ffmpeg.wasm (~25MB)..." ;;;
                           new_FFmpeg ;;; instance_load)).
    frame.
Qed.

(** Up to segmentation a run sets no other status than these three. *)
Lemma start_to_segment_adds_statuses c :
  adds_only statusLog (fun s => s ∈ [preparing; extracting; segmenting])
            (start_to_segment c).
Proof.
  pose proof (ensureFFmpeg_adds_statuses
                (fun s => s ∈ [preparing; extracting; segmenting])
                ltac:(set_solver)).
  unfold start_to_segment, reset_and_extract, segment, exec. adds_seq.
Qed.

Lemma start_to_segment_adds_execs c :
  adds_only execLog (fun _ => True) (start_to_segment c).
Proof.
  pose proof (keeps_adds_only _ (fun _ : list string * FS => True) _
                ensureFFmpeg_keeps_execLog).
  unfold start_to_segment, reset_and_extract, segment, exec. adds_seq.
Qed.

Lemma dub_and_publish_enters_transcribing c inputName used r :
  ∃ added,
    statusLog (dub_and_publish c inputName used r).2 =
    statusLog r ++ transcribing :: added.
Proof.
  assert (adds_only statusLog (fun _ => True)
            (dubbed <- process_segments c (length used) 0 used [] ;;;
             concat_tts c dubbed ;;; mux c inputName)) as Hrest.
  { apply adds_only_bind; [|intros ?].
    { apply keeps_adds_only, keeps_ui_statusLog, process_segments_keeps_ui. }
    unfold concat_tts, mux, exec. adds_seq. }
  unfold dub_and_publish, bind at 1. simpl.
  destruct (Hrest (setStatus transcribing r).2) as (added & Hadded & _).
  exists added. simpl in Hadded. by rewrite Hadded, <- (assoc_L (++)).
Qed.

(** Once segmentation has run, a listing without segment files makes
    the run throw "No segments produced" on the spot; with at least one
    segment the run goes on into the per-chunk stage with the capped
    list. *)
Theorem no_segments_aborts (c : Closure) (r : Run) (inputName : string) (r1 : Run) :
  start_to_segment c r = (Ok inputName, r1) ->
  (listed_segments r1 = [] ->
   handleStart c r = (Throw (Error "No segments produced"), r1)) ∧
  (listed_segments r1 ≠ [] ->
   handleStart c r =
     dub_and_publish c inputName (cap_by_maxMinutes c (listed_segments r1)) r1 ∧
   transcribing ∈ new_statuses r (handleStart c r).2).
Proof.
  intros Hstart. pose proof (start_to_segment_ready _ _ _ _ Hstart) as Hready.
  pose proof (list_segments_ready c r1 Hready) as Hlist.
  unfold handleStart at 1 2. rewrite (bind_eq_Ok _ _ _ _ _ Hstart).
  split; intros Hfiles.
  - rewrite decide_True in Hlist by done. by rewrite (bind_eq_Throw _ _ _ _ _ Hlist).
  - rewrite decide_False in Hlist by done.
    assert (handleStart c r =
            dub_and_publish c inputName (cap_by_maxMinutes c (listed_segments r1)) r1)
      as Hrun.
    { unfold handleStart. rewrite (bind_eq_Ok _ _ _ _ _ Hstart).
      by rewrite (bind_eq_Ok _ _ _ _ _ Hlist). }
    split; [by rewrite (bind_eq_Ok _ _ _ _ _ Hlist)|].
    rewrite Hrun. unfold new_statuses.
    destruct (start_to_segment_adds_statuses c r) as (l1 & Hl1 & _). rewrite Hstart in Hl1.
    destruct (dub_and_publish_enters_transcribing c inputName
                (cap_by_maxMinutes c (listed_segments r1)) r1) as [l2 Hl2].
    simpl in Hl1. rewrite Hl2, Hl1, <- (assoc_L (++)), drop_app_length.
    set_solver.
Qed.

End Ready.

Lemma no_segments_aborts_witness :
  let c := later_click silent (of_Z 45) in
  let r := engine_ready [] in
  let r1 := (@start_to_segment stand_in c r).2 in
  @start_to_segment stand_in c r = (Ok "input.mp4", r1) ∧
  @listed_segments stand_in r1 = [] ∧
  @handleStart stand_in c r = (Throw (Error "No segments produced"), r1).
Proof.
  intros c r r1.
  assert (@start_to_segment stand_in c r = (Ok "input.mp4", r1)) as Hstart.
  { rewrite (surjective_pairing (@start_to_segment stand_in c r)) at 1.
    f_equal; vm_compute; reflexivity. }
  assert (@listed_segments stand_in r1 = []) as Hnone by (vm_compute; reflexivity).
  split_and!; [exact Hstart | exact Hnone |].
  exact (proj1 (@no_segments_aborts stand_in c r _ r1 Hstart) Hnone).
Defined.

(** ** What a helper that returned has done *)

Section Returned.
Context `{Env}.

Lemma keeps_step {X A} (part : Run -> X) (m : M A) r res r' :
  keeps part m -> m r = (res, r') -> part r' = part r.
Proof. intros Hm Hrun. specialize (Hm r). by rewrite Hrun in Hm. Qed.

Lemma do_fetch_log req r :
  ∃ outcome, fetchLog (do_fetch req r).2 = fetchLog r ++ [(req, outcome)] ∧
             (do_fetch req r).1 = match outcome with
                                  | Resolved res => Ok res
                                  | Rejected => Throw NetworkError
                                  end.
Proof.
  unfold do_fetch. destruct (fetch req (world r)) as [[|res] w]; by eexists.
Qed.

Lemma transcribeWithOpenAI_Ok key audio r text r' :
  transcribeWithOpenAI key audio r = (Ok text, r') ->
  ∃ res, fetchLog r' = fetchLog r ++ [(Transcriptions key audio, Resolved res)].
Proof.
  unfold transcribeWithOpenAI.
  intros (res & r1 & Hfetch & Hrest)%bind_Ok.
  destruct (do_fetch_log (Transcriptions key audio) r) as ([|res'] & Hlog & Hres);
    rewrite Hfetch in Hlog, Hres; simplify_eq/=.
  exists res'. rewrite <- Hlog.
  destruct (negb (res_ok res')); [done|].
  eapply keeps_step; [|exact Hrest]. frame.
Qed.

Lemma translateWithOpenAI_Ok key text lang r translated r' :
  translateWithOpenAI key text lang r = (Ok translated, r') ->
  ∃ res, fetchLog r' =
         fetchLog r ++ [(ChatCompletions key (system_prompt lang) text, Resolved res)].
Proof.
  unfold translateWithOpenAI.
  intros (res & r1 & Hfetch & Hrest)%bind_Ok.
  destruct (do_fetch_log (ChatCompletions key (system_prompt lang) text) r)
    as ([|res'] & Hlog & Hres);
    rewrite Hfetch in Hlog, Hres; simplify_eq/=.
  exists res'. rewrite <- Hlog.
  destruct (negb (res_ok res')); [done|].
  eapply keeps_step; [|exact Hrest]. frame.
Qed.

Lemma ttsWithOpenAI_Ok key text v r wav r' :
  ttsWithOpenAI key text v r = (Ok wav, r') ->
  ∃ res, fetchLog r' = fetchLog r ++ [(Speech key v text, Resolved res)] ∧
         wav = body res.
Proof.
  unfold ttsWithOpenAI.
  intros (res & r1 & Hfetch & Hrest)%bind_Ok.
  destruct (do_fetch_log (Speech key v text) r) as ([|res'] & Hlog & Hres);
    rewrite Hfetch in Hlog, Hres; simplify_eq/=.
  exists res'. rewrite <- Hlog.
  destruct (negb (res_ok res')); [done|]. by injection Hrest as <- <-.
Qed.

(** The translation of an answer that is ok but carries no content. *)
Lemma translateWithOpenAI_no_content key text lang r res data :
  fetchLog (translateWithOpenAI key text lang r).2 =
    fetchLog r ++ [(ChatCompletions key (system_prompt lang) text, Resolved res)] ->
  res_ok res = true ->
  json res = Some data ->
  nullish data = false ->
  truthy (content_field (js_get data "choices")) = false ->
  (translateWithOpenAI key text lang r).1 = Ok (JStr "").
Proof.
  unfold translateWithOpenAI, bind, do_fetch.
  destruct (fetch _ (world r)) as [[|res'] w]; simpl.
  - intros Hlog. apply app_inv_head in Hlog. discriminate.
  - destruct (res_ok res') eqn:Hok'; simpl.
    + unfold res_json, member.
      destruct (json res') as [data'|] eqn:Hjson'; simpl.
      * destruct (nullish data') eqn:Hnull'; simpl;
          intros [= <-]%app_inv_head Hok Hjson Hnull Hcontent; simplify_eq;
          [congruence|].
        unfold js_or. by rewrite Hcontent.
      * intros [= <-]%app_inv_head Hok Hjson; simplify_eq.
    + intros [= <-]%app_inv_head Hok. congruence.
Qed.

End Returned.

Section EmptyTranslation.
Context `{Env}.

Lemma new_fetches_app r r' entries :
  fetchLog r' = fetchLog r ++ entries -> new_fetches r r' = entries.
Proof. intros Hlog. unfold new_fetches. by rewrite Hlog, drop_app_length. Qed.

(** For a success response of the translation service whose JSON has
    no content (the field is missing somewhere along
    [choices[0].message.content]) or an empty one, [translateWithOpenAI]
    returns the empty string without throwing, and in the loop body the
    request that follows is the speech request with that empty string as
    its input. *)
Theorem empty_translation_reaches_synthesis (res : Response) (data : JSVal) :
  res_ok res = true ->
  json res = Some data ->
  nullish data = false ->
  content_field (js_get data "choices") = JUndefined ∨
  content_field (js_get data "choices") = JStr "" ->
  (∀ key text lang r w,
     fetch (ChatCompletions key (system_prompt lang) text) (world r) = (Resolved res, w) ->
     (translateWithOpenAI key text lang r).1 = Ok (JStr "")) ∧
  (∀ c n i segName r pre key sys user post,
     new_fetches r (process_segment c n i segName r).2 =
       pre ++ (ChatCompletions key sys user, Resolved res) :: post ->
     ∃ outcome, post = [(Speech (apiKey c) (voice c) (JStr ""), outcome)]).
Proof.
  intros Hok Hjson Hnull Hcontent.
  assert (truthy (content_field (js_get data "choices")) = false) as Hfalsy
    by (by destruct Hcontent as [-> | ->]).
  split.
  - intros key text lang r w Hfetch.
    apply (translateWithOpenAI_no_content key text lang r res data); try done.
    unfold translateWithOpenAI, bind, do_fetch. rewrite Hfetch. simpl.
    rewrite Hok. simpl. unfold res_json, member. rewrite Hjson. simpl.
    by rewrite Hnull.
  - intros c n i segName r pre key sys user post.
    unfold process_segment.
    unfold bind at 1. simpl. unfold bind at 1. simpl.
    unfold bind at 1.
    destruct (readFile c segName _) as [[segData|e] r3] eqn:Hread;
      pose proof (keeps_step fetchLog _ _ _ _
                    (keeps_net_fetchLog _ (readFile_keeps_net c segName)) Hread) as Hlog3;
      simpl in Hlog3.
    2:{ simpl. rewrite (new_fetches_app r r3 []) by (by rewrite app_nil_r, Hlog3).
        by destruct pre. }
    unfold bind at 1.
    destruct (transcribeWithOpenAI_checks (apiKey c) segData r3) as (o1 & Hlog4 & _).
    destruct (transcribeWithOpenAI (apiKey c) segData r3) as [[transcript|e] r4];
      simpl in Hlog4.
    2:{ simpl. rewrite (new_fetches_app r r4 [(Transcriptions (apiKey c) segData, o1)])
          by (by rewrite Hlog4, Hlog3).
        by destruct pre as [|? [|? ?]]. }
    unfold bind at 1.
    destruct (translateWithOpenAI_checks (apiKey c) transcript (targetLang c) r4)
      as (o2 & Hlog5 & _).
    pose proof (translateWithOpenAI_no_content (apiKey c) transcript (targetLang c) r4)
      as Hempty.
    destruct (translateWithOpenAI (apiKey c) transcript (targetLang c) r4)
      as [[translated|e] r5]; simpl in Hlog5, Hempty.
    2:{ simpl.
        rewrite (new_fetches_app r r5
                   [(Transcriptions (apiKey c) segData, o1);
                    (ChatCompletions (apiKey c) (system_prompt (targetLang c)) transcript, o2)])
          by (by rewrite Hlog5, Hlog4, Hlog3, <- (assoc_L (++))).
        intros Heq. destruct pre as [|? [|? [|? ?]]]; simplify_eq/=.
        by specialize (Hempty res data Hlog5 Hok Hjson Hnull Hfalsy). }
    unfold bind at 1.
    destruct (ttsWithOpenAI_checks (apiKey c) translated (voice c) r5) as (o3 & Hlog6 & _).
    destruct (ttsWithOpenAI (apiKey c) translated (voice c) r5) as [[ttsWav|e] r6] eqn:Htts;
      simpl in Hlog6.
    + set (rest := bind _ _).
      assert (keeps fetchLog rest) as Hrest by (subst rest; frame).
      specialize (Hrest r6).
      rewrite (new_fetches_app r (rest r6).2
                 [(Transcriptions (apiKey c) segData, o1);
                  (ChatCompletions (apiKey c) (system_prompt (targetLang c)) transcript, o2);
                  (Speech (apiKey c) (voice c) translated, o3)])
        by (by rewrite Hrest, Hlog6, Hlog5, Hlog4, Hlog3, <- !(assoc_L (++))).
      intros Heq. destruct pre as [|? [|? [|? [|? ?]]]]; simplify_eq/=.
      specialize (Hempty res data Hlog5 Hok Hjson Hnull Hfalsy). simplify_eq.
      by eexists.
    + simpl.
      rewrite (new_fetches_app r r6
                 [(Transcriptions (apiKey c) segData, o1);
                  (ChatCompletions (apiKey c) (system_prompt (targetLang c)) transcript, o2);
                  (Speech (apiKey c) (voice c) translated, o3)])
        by (by rewrite Hlog6, Hlog5, Hlog4, Hlog3, <- !(assoc_L (++))).
      intros Heq. destruct pre as [|? [|? [|? [|? ?]]]]; simplify_eq/=.
      specialize (Hempty res data Hlog5 Hok Hjson Hnull Hfalsy). simplify_eq.
      by eexists.
Qed.

(** What [translateWithOpenAI] makes of a response that is ok. *)
Lemma translateWithOpenAI_outcome key text lang r res :
  fetchLog (translateWithOpenAI key text lang r).2 =
    fetchLog r ++ [(ChatCompletions key (system_prompt lang) text, Resolved res)] ->
  res_ok res = true ->
  (translateWithOpenAI key text lang r).1 =
    match json res with
    | None => Throw SyntaxError
    | Some data =>
        if nullish data
        then Throw (TypeError "Cannot read properties of null (reading 'choices')")
        else Ok (js_or (content_field (js_get data "choices")) (JStr ""))
    end.
Proof.
  unfold translateWithOpenAI, bind, do_fetch.
  destruct (fetch _ (world r)) as [[|res'] w]; simpl.
  - intros Hlog. apply app_inv_head in Hlog. discriminate.
  - destruct (res_ok res') eqn:Hok'; simpl.
    + unfold res_json, member.
      destruct (json res') as [data|] eqn:Hjson; simpl.
      * destruct (nullish data) eqn:Hnull; simpl;
          intros [= <-]%app_inv_head _; by rewrite Hjson, Hnull.
      * intros [= <-]%app_inv_head _. by rewrite Hjson.
    + intros [= <-]%app_inv_head Hok. congruence.
Qed.

(** C7 on the code: a success response is read with [res.json()] and
    [data.choices?.[0]?.message?.content || ""].  For a JSON body that is
    not [null] this gives the content, or the empty string when the
    content is missing or empty; but a success response with no body at
    all (a 204) makes [res.json()] throw a [SyntaxError], and one whose
    body is [null] makes [data.choices] throw a [TypeError]: the optional
    chain starts one step too late.  In the loop body that error ends the
    iteration at the translation request: nothing is passed on to
    synthesis. *)
Theorem translation_without_a_body_throws :
  (∀ key text lang r res w,
     fetch (ChatCompletions key (system_prompt lang) text) (world r) = (Resolved res, w) ->
     res_ok res = true ->
     (translateWithOpenAI key text lang r).1 =
       match json res with
       | None => Throw SyntaxError
       | Some data =>
           if nullish data
           then Throw (TypeError "Cannot read properties of null (reading 'choices')")
           else Ok (js_or (content_field (js_get data "choices")) (JStr ""))
       end) ∧
  (∀ c n i segName r pre key sys user res post,
     new_fetches r (process_segment c n i segName r).2 =
       pre ++ (ChatCompletions key sys user, Resolved res) :: post ->
     res_ok res = true ->
     (∀ data, json res = Some data -> nullish data = true) ->
     post = [] ∧
     (process_segment c n i segName r).1 =
       Throw (match json res with
              | None => SyntaxError
              | Some _ => TypeError "Cannot read properties of null (reading 'choices')"
              end)).
Proof.
  split.
  - intros key text lang r res w Hfetch Hok.
    apply translateWithOpenAI_outcome; [|done].
    unfold translateWithOpenAI, bind, do_fetch. rewrite Hfetch. simpl.
    rewrite Hok. simpl. unfold res_json, member.
    destruct (json res) as [data|]; simpl; [|done]. by destruct (nullish data).
  - intros c n i segName r pre key sys user res post Hlog Hok Hnull.
    assert (∀ r4 transcript,
              fetchLog (translateWithOpenAI (apiKey c) transcript (targetLang c) r4).2 =
                fetchLog r4 ++
                  [(ChatCompletions (apiKey c) (system_prompt (targetLang c)) transcript,
                    Resolved res)] ->
              (translateWithOpenAI (apiKey c) transcript (targetLang c) r4).1 =
                Throw (match json res with
                       | None => SyntaxError
                       | Some _ =>
                           TypeError "Cannot read properties of null (reading 'choices')"
                       end)) as Hthrows.
    { intros r4 transcript Hlog4.
      rewrite (translateWithOpenAI_outcome _ _ _ _ _ Hlog4 Hok).
      destruct (json res) as [data|] eqn:Hjson; [|done].
      by rewrite (Hnull data eq_refl). }
    revert Hlog. unfold process_segment, bind. cbn [setDetail setProgress fst snd].
    destruct (readFile c segName _) as [[segData|e] r3] eqn:Hread;
      pose proof (keeps_step fetchLog _ _ _ _
                    (keeps_net_fetchLog _ (readFile_keeps_net c segName)) Hread) as Hlog3;
      simpl in Hlog3.
    2:{ simpl. rewrite (new_fetches_app r r3 []) by (by rewrite app_nil_r, Hlog3).
        by destruct pre. }
    destruct (transcribeWithOpenAI_checks (apiKey c) segData r3) as (o1 & Hlog4 & _).
    destruct (transcribeWithOpenAI (apiKey c) segData r3) as [[transcript|e] r4];
      simpl in Hlog4.
    2:{ simpl. rewrite (new_fetches_app r r4 [(Transcriptions (apiKey c) segData, o1)])
          by (by rewrite Hlog4, Hlog3).
        by destruct pre as [|? [|? ?]]. }
    destruct (translateWithOpenAI_checks (apiKey c) transcript (targetLang c) r4)
      as (o2 & Hlog5 & _).
    specialize (Hthrows r4 transcript).
    destruct (translateWithOpenAI (apiKey c) transcript (targetLang c) r4)
      as [[translated|e] r5]; simpl in Hlog5, Hthrows.
    2:{ simpl.
        rewrite (new_fetches_app r r5
                   [(Transcriptions (apiKey c) segData, o1);
                    (ChatCompletions (apiKey c) (system_prompt (targetLang c)) transcript, o2)])
          by (by rewrite Hlog5, Hlog4, Hlog3, <- (assoc_L (++))).
        intros Heq. destruct pre as [|? [|? [|? ?]]]; simplify_eq/=.
        split; [done|]. specialize (Hthrows Hlog5). by injection Hthrows as ->. }
    destruct (ttsWithOpenAI_checks (apiKey c) translated (voice c) r5) as (o3 & Hlog6 & _).
    destruct (ttsWithOpenAI (apiKey c) translated (voice c) r5) as [[ttsWav|e] r6] eqn:Htts;
      simpl in Hlog6.
    + assert (keeps fetchLog (try_ (deleteFile c (tts_name segName)) ;;;
                              writeFile c (tts_name segName) ttsWav ;;;
                              ret (tts_name segName))) as Hrest by frame.
      specialize (Hrest r6). unfold bind in Hrest.
      destruct (try_ (deleteFile c (tts_name segName)) r6) as [[[]|e] r7];
        [destruct (writeFile c (tts_name segName) ttsWav r7) as [[[]|e] r8]|];
        simpl in Hrest |- *;
        rewrite (new_fetches_app r _
                 [(Transcriptions (apiKey c) segData, o1);
                  (ChatCompletions (apiKey c) (system_prompt (targetLang c)) transcript, o2);
                  (Speech (apiKey c) (voice c) translated, o3)])
          by (by rewrite Hrest, Hlog6, Hlog5, Hlog4, Hlog3, <- !(assoc_L (++)));
        intros Heq; destruct pre as [|? [|? [|? [|? ?]]]]; simplify_eq/=;
        by specialize (Hthrows Hlog5).
    + simpl.
      rewrite (new_fetches_app r r6
                 [(Transcriptions (apiKey c) segData, o1);
                  (ChatCompletions (apiKey c) (system_prompt (targetLang c)) transcript, o2);
                  (Speech (apiKey c) (voice c) translated, o3)])
        by (by rewrite Hlog6, Hlog5, Hlog4, Hlog3, <- !(assoc_L (++))).
      intros Heq. destruct pre as [|? [|? [|? [|? ?]]]]; simplify_eq/=.
      by specialize (Hthrows Hlog5).
Qed.

End EmptyTranslation.

(** ** The loop: one synthesized chunk per segment, in order *)

Section Dubbing.
Context `{Env}.

Lemma tts_name_inj : Inj (=) (=) tts_name.
Proof. intros a b Heq. by apply (inj (String.app "tts_")) in Heq. Qed.

Lemma tts_name_not_segment seg s : startsWith "seg_" s = true -> tts_name seg ≠ s.
Proof. intros Hs <-. vm_compute in Hs. discriminate. Qed.

Lemma store_all_lookup_ne files segs bodies k :
  (∀ s, s ∈ segs -> tts_name s ≠ k) ->
  store_all files segs bodies !! k = files !! k.
Proof.
  revert files bodies.
  induction segs as [|seg rest IH]; intros files [|wav bodies] Hk; try done.
  unfold store_all. simpl. fold (store_all (<[tts_name seg := wav]> files) rest bodies).
  rewrite IH by (intros s Hs; apply Hk; by right).
  apply lookup_insert_ne, Hk. by left.
Qed.

Lemma store_all_lookup files segs bodies (i : nat) seg wav :
  NoDup segs ->
  segs !! i = Some seg ->
  bodies !! i = Some wav ->
  store_all files segs bodies !! tts_name seg = Some wav.
Proof.
  revert files bodies i.
  induction segs as [|seg0 rest IH]; intros files [|wav0 bodies] i Hnodup Hseg Hwav;
    try done.
  apply NoDup_cons in Hnodup as [Hnotin Hnodup].
  unfold store_all. simpl. fold (store_all (<[tts_name seg0 := wav0]> files) rest bodies).
  destruct i as [|i]; simplify_eq/=.
  - rewrite store_all_lookup_ne; [apply lookup_insert_eq|].
    intros s Hs Heq. apply tts_name_inj in Heq. by subst.
  - by apply (IH _ _ i).
Qed.

(** Storing a synthesized chunk does not touch the segment files. *)
Lemma segments_untouched (files : FS) seg0 wav segs audios :
  Forall (fun s => startsWith "seg_" s = true) segs ->
  Forall2 (fun seg audio => <[tts_name seg0 := wav]> files !! seg = Some audio)
          segs audios ->
  Forall2 (fun seg audio => files !! seg = Some audio) segs audios.
Proof.
  intros Hnames Hall. induction Hall as [|seg audio segs audios Hlook _ IH].
  - constructor.
  - apply Forall_cons in Hnames as [Hseg Hnames]. constructor; [|by apply IH].
    rewrite lookup_insert_ne in Hlook; [done|]. by apply tts_name_not_segment.
Qed.

Lemma process_segment_Ok c n i segName r outName r' :
  process_segment c n i segName r = (Ok outName, r') ->
  ∃ files audio wav entries,
    ffmpeg c = RefCurrent ∧
    ffmpegRef r = Some {| loaded := true; fs := files |} ∧
    files !! segName = Some audio ∧
    outName = tts_name segName ∧
    fetchLog r' = fetchLog r ++ entries ∧
    transcribed_audio entries = [audio] ∧
    speech_bodies entries = [wav] ∧
    ffmpegRef r' = Some {| loaded := true; fs := <[outName := wav]> files |} ∧
    execLog r' = execLog r.
Proof.
  unfold process_segment.
  intros ([] & r1 & [= <-] & ([] & r2 & [= <-] & (segData & r3 & Hread &
          (transcript & r4 & Htranscribe & (translated & r5 & Htranslate &
          (ttsWav & r6 & Htts & ([] & r7 & [= <-] & ([] & r8 & Hwrite & [= <- <-])
          %bind_Ok)%bind_Ok)%bind_Ok)%bind_Ok)%bind_Ok)%bind_Ok)%bind_Ok)%bind_Ok.
  unfold readFile in Hread.
  apply call_Ok in Hread as (files & Hc & Hr & Hdata & ->). simpl in Hr.
  destruct (files !! segName) as [audio|] eqn:Haudio; [|done].
  simpl in Hdata. injection Hdata as <-. simpl in *.
  set (r3 := set_ffmpegRef _ _) in *.
  assert (ffmpegRef r3 = Some {| loaded := true; fs := files |}) as Hr3 by done.
  pose proof (keeps_step engine _ _ _ _
                (transcribeWithOpenAI_keeps_engine _ _) Htranscribe) as [= He4 Hx4].
  pose proof (keeps_step engine _ _ _ _
                (translateWithOpenAI_keeps_engine _ _ _) Htranslate) as [= He5 Hx5].
  pose proof (keeps_step engine _ _ _ _
                (ttsWithOpenAI_keeps_engine _ _ _) Htts) as [= He6 Hx6].
  apply transcribeWithOpenAI_Ok in Htranscribe as (res1 & Hlog4).
  apply translateWithOpenAI_Ok in Htranslate as (res2 & Hlog5).
  apply ttsWithOpenAI_Ok in Htts as (res3 & Hlog6 & ->).
  assert (ffmpegRef r6 = Some {| loaded := true; fs := files |}) as Hr6 by congruence.
  unfold deleteFile, writeFile in Hwrite.
  rewrite (call_ready _ _ _ r6 files Hc Hr6) in Hwrite. simpl in Hwrite.
  erewrite call_ready in Hwrite by done. injection Hwrite as <-.
  exists files, audio, (body res3),
    [(Transcriptions (apiKey c) audio, Resolved res1);
     (ChatCompletions (apiKey c) (system_prompt (targetLang c)) transcript, Resolved res2);
     (Speech (apiKey c) (voice c) translated, Resolved res3)].
  split_and!; try done.
  - simpl. by rewrite Hlog6, Hlog5, Hlog4, <- !(assoc_L (++)).
  - simpl. do 2 f_equal.
    destruct (files !! tts_name segName) eqn:Hold; simpl.
    + apply insert_delete_eq.
    + done.
  - simpl. congruence.
Qed.

Lemma process_segments_Ok c n segs :
  ∀ i dubbed0 r dubbed r' files,
    Forall (fun s => startsWith "seg_" s = true) segs ->
    ffmpeg c = RefCurrent ->
    ffmpegRef r = Some {| loaded := true; fs := files |} ->
    process_segments c n i segs dubbed0 r = (Ok dubbed, r') ->
    ∃ entries,
      dubbed = dubbed0 ++ (tts_name <$> segs) ∧
      fetchLog r' = fetchLog r ++ entries ∧
      Forall2 (fun seg audio => files !! seg = Some audio) segs (transcribed_audio entries) ∧
      length (speech_bodies entries) = length segs ∧
      ffmpegRef r' =
        Some {| loaded := true; fs := store_all files segs (speech_bodies entries) |} ∧
      execLog r' = execLog r.
Proof.
  induction segs as [|seg rest IH]; intros i dubbed0 r dubbed r' files Hnames Hc Hr; simpl.
  - intros [= <- <-]. exists []. rewrite !app_nil_r. by split_and!.
  - intros (outName & r1 & Hone & Hrest)%bind_Ok.
    apply Forall_cons in Hnames as [Hseg Hnames].
    apply process_segment_Ok in Hone
      as (files' & audio & wav & es1 & _ & Hr' & Haudio & -> & Hlog1 & Ha1 & Hb1 & Hr1 & Hx1).
    assert (files' = files) as -> by congruence.
    destruct (IH _ _ _ _ _ _ Hnames Hc Hr1 Hrest)
      as (es2 & -> & Hlog2 & Ha2 & Hlen2 & Hr2 & Hx2).
    exists (es1 ++ es2). unfold transcribed_audio, speech_bodies in *.
    rewrite !omap_app, Ha1, Hb1. simpl.
    split_and!.
    + by rewrite <- (assoc_L (++)).
    + by rewrite Hlog2, Hlog1, (assoc_L (++)).
    + constructor; [done|]. by apply (segments_untouched files seg wav).
    + by rewrite Hlen2.
    + done.
    + congruence.
Qed.

End Dubbing.

Section Order.
Context `{Env}.

Lemma listed_segments_Permutation r :
  listed_segments r ≡ₚ
  filter (fun n => is_segment_name n = true) (map_to_list (files_of r)).*1.
Proof.
  unfold listed_segments, files_of. destruct (ffmpegRef r) as [inst|].
  - unfold js_sort. rewrite merge_sort_Permutation.
    by rewrite !filter_cons_False by done.
  - by rewrite map_to_list_empty.
Qed.

Lemma listed_segments_NoDup r : NoDup (listed_segments r).
Proof.
  rewrite listed_segments_Permutation.
  apply NoDup_filter, NoDup_fst_map_to_list.
Qed.

Lemma listed_segments_names r :
  Forall (fun s => startsWith "seg_" s = true) (listed_segments r).
Proof.
  rewrite listed_segments_Permutation. apply Forall_forall.
  intros s [Hs _]%list_elem_of_filter.
  unfold is_segment_name in Hs. by apply andb_true_iff in Hs as [? _].
Qed.

Lemma concat_tts_ready c dubbed r files :
  ffmpeg c = RefCurrent ->
  ffmpegRef r = Some {| loaded := true; fs := files |} ->
  ∃ r', concat_tts c dubbed r = (Ok tt, r') ∧
        fetchLog r' = fetchLog r ∧
        execLog r' = execLog r ++ [(concat_args, <["concat.txt" := listContent dubbed]> files)].
Proof.
  intros Hc Hr. unfold concat_tts. unfold bind at 1. simpl. unfold bind at 1. simpl.
  set (r1 := (setDetail "Concatenating synthesized audio..."
                (setStatus concatenating r).2).2).
  change (∃ r', bind (writeFile c "concat.txt" (listContent dubbed))
                  (fun _ => exec c concat_args) r1 = (Ok tt, r') ∧
                fetchLog r' = fetchLog r ∧
                execLog r' = execLog r ++
                  [(concat_args, <["concat.txt" := listContent dubbed]> files)]).
  rewrite (bind_eq_Ok _ _ _ _ _ (writeFile_ready c _ _ r1 files Hc Hr)).
  erewrite exec_ready by done. by eexists.
Qed.

(** In a run that reaches assembly, with [usedSegments] the capped
    list of segment names, the i-th transcription request carried the
    audio of [usedSegments[i]], the answer to the i-th speech request is
    the file [tts_usedSegments[i]] (one synthesized chunk per processed
    chunk, at the same index), and the concat command was given, together
    with these files, the list that names them in that same order, once
    each. *)
Theorem dubbed_track_follows_chunk_order (c : Closure) (r : Run) :
  concatenating ∈ new_statuses r (handleStart c r).2 ->
  ∃ inputName r1 files_in,
    let usedSegments := cap_by_maxMinutes c (listed_segments r1) in
    let requests := new_fetches r (handleStart c r).2 in
    start_to_segment c r = (Ok inputName, r1) ∧
    Forall2 (fun seg audio => files_of r1 !! seg = Some audio)
            usedSegments (transcribed_audio requests) ∧
    Forall2 (fun seg wav => files_in !! tts_name seg = Some wav)
            usedSegments (speech_bodies requests) ∧
    files_in !! "concat.txt" = Some (listContent (tts_name <$> usedSegments)) ∧
    (concat_args, files_in) ∈ new_execs r (handleStart c r).2.
Proof.
  intros Hreached.
  destruct (start_to_segment_adds_statuses c r) as (l1 & Hl1 & Hall1).
  destruct (start_to_segment_adds_execs c r) as (x1 & Hx1 & _).
  assert (concatenating ∉ l1) as Hnot1.
  { intros Hin. rewrite Forall_forall in Hall1. specialize (Hall1 _ Hin).
    rewrite !elem_of_cons, elem_of_nil in Hall1.
    by destruct Hall1 as [?|[?|[?|[]]]]. }
  assert (fetchLog (start_to_segment c r).2 = fetchLog r) as Hlog1.
  { pose proof ensureFFmpeg_keeps_fetchLog.
    assert (keeps fetchLog (start_to_segment c)) as Hkeeps
      by (unfold start_to_segment, reset_and_extract, segment; frame).
    apply Hkeeps. }
  destruct (start_to_segment c r) as [[inputName|e] r1] eqn:Hstart; simpl in *.
  2:{ exfalso. unfold handleStart in Hreached.
      rewrite (bind_eq_Throw _ _ _ _ _ Hstart) in Hreached. simpl in Hreached.
      unfold new_statuses in Hreached. by rewrite Hl1, drop_app_length in Hreached. }
  pose proof (start_to_segment_ready _ _ _ _ Hstart) as Hready.
  pose proof (list_segments_ready c r1 Hready) as Hlist.
  destruct Hready as [Hc [files Hr1]].
  destruct (decide (listed_segments r1 = [])) as [Hnone|Hsome].
  { exfalso. unfold handleStart in Hreached.
    rewrite (bind_eq_Ok _ _ _ _ _ Hstart), (bind_eq_Throw _ _ _ _ _ Hlist) in Hreached.
    simpl in Hreached. unfold new_statuses in Hreached.
    by rewrite Hl1, drop_app_length in Hreached. }
  set (used := cap_by_maxMinutes c (listed_segments r1)) in *.
  assert (NoDup used ∧ Forall (fun s => startsWith "seg_" s = true) used)
    as [Hnodup Hnames].
  { unfold used, cap_by_maxMinutes, slice0. split.
    - eapply sublist_NoDup; [apply listed_segments_NoDup | apply sublist_take].
    - apply Forall_take, listed_segments_names. }
  set (r2 := (setStatus transcribing r1).2).
  assert (handleStart c r =
          (dubbed <- process_segments c (length used) 0 used [] ;;;
           concat_tts c dubbed ;;; mux c inputName) r2) as Hrun.
  { unfold handleStart. rewrite (bind_eq_Ok _ _ _ _ _ Hstart).
    by rewrite (bind_eq_Ok _ _ _ _ _ Hlist). }
  rewrite Hrun in Hreached |- *. clear Hrun.
  destruct (process_segments c (length used) 0 used [] r2)
    as [[dubbed|e] r3] eqn:Hloop.
  2:{ exfalso. rewrite (bind_eq_Throw _ _ _ _ _ Hloop) in Hreached. simpl in Hreached.
      pose proof (keeps_step statusLog _ _ _ _
                    (keeps_ui_statusLog _ (process_segments_keeps_ui c _ used _ _))
                    Hloop) as Hlog.
      simpl in Hlog. unfold new_statuses in Hreached.
      rewrite Hlog, Hl1, <- (assoc_L (++)), drop_app_length in Hreached.
      apply elem_of_app in Hreached as [?|Hin]; [done|].
      by apply list_elem_of_singleton in Hin. }
  rewrite (bind_eq_Ok _ _ _ _ _ Hloop).
  apply (process_segments_Ok c _ used 0%nat [] _ dubbed r3 files Hnames Hc) in Hloop;
    [|exact Hr1].
  destruct Hloop as (entries & -> & Hlog3 & Haudio & Hlen & Hr3 & Hx3).
  simpl in Hlog3, Hx3.
  destruct (concat_tts_ready c (tts_name <$> used) r3 _ Hc Hr3)
    as (r4 & Hconcat & Hlog4 & Hx4).
  rewrite (bind_eq_Ok _ _ _ _ _ Hconcat).
  assert (keeps fetchLog (mux c inputName)) as Hmuxlog by (unfold mux; frame).
  assert (adds_only execLog (fun _ => True) (mux c inputName)) as Hmuxexec
    by (unfold mux, exec; adds_seq).
  destruct (Hmuxexec r4) as (x2 & Hx5 & _).
  assert (new_fetches r (mux c inputName r4).2 = entries) as ->.
  { apply new_fetches_app. by rewrite Hmuxlog, Hlog4, Hlog3, Hlog1. }
  exists inputName, r1,
    (<["concat.txt" := listContent (tts_name <$> used)]>
       (store_all files used (speech_bodies entries))).
  split_and!.
  - done.
  - unfold files_of. by rewrite Hr1.
  - apply Forall2_same_length_lookup. split; [done|].
    intros i seg wav Hseg Hwav.
    rewrite lookup_insert_ne by (by vm_compute).
    by apply (store_all_lookup _ _ _ i).
  - apply lookup_insert_eq.
  - unfold new_execs. rewrite Hx5, Hx4, Hx3, Hx1, <- !(assoc_L (++)), drop_app_length.
    rewrite !elem_of_app, list_elem_of_singleton. auto.
Qed.

End Order.

(** ** Integers as doubles *)

Lemma Qred_inject_Z (z : Z) : Qred (inject_Z z) = inject_Z z.
Proof.
  unfold Qred, inject_Z.
  pose proof (Z.ggcd_gcd z 1) as Hgcd.
  pose proof (Z.ggcd_correct_divisors z 1) as Hdiv.
  destruct (Z.ggcd z 1) as [g [a b]]. simpl in Hgcd, Hdiv.
  rewrite Z.gcd_1_r in Hgcd. subst g. destruct Hdiv as [Ha Hb].
  rewrite Z.mul_1_l in Ha, Hb. by subst.
Qed.

Lemma Qred_integer (x : Q) (w : Z) : (x == inject_Z w)%Q -> Qred x = inject_Z w.
Proof. intros Hx. rewrite <- (Qred_inject_Z w). by apply Qred_complete. Qed.

Lemma round_half_even_integer (x : Q) (w : Z) :
  (x == inject_Z w)%Q -> round_half_even x = w.
Proof.
  intros Hx. unfold round_half_even.
  rewrite (Qfloor_comp _ _ Hx), Qfloor_Z.
  assert ((x - inject_Z w ?= 1 # 2)%Q = Lt) as ->; [|done].
  apply (proj1 (Qlt_alt _ _)). rewrite Hx.
  assert (inject_Z w - inject_Z w == 0)%Q as -> by ring. reflexivity.
Qed.

Lemma Qpow2_nonneg (k : Z) : 0 ≤ k -> Qpow2 k = inject_Z (2 ^ k).
Proof. intros Hk. unfold Qpow2. by rewrite (proj2 (Z.leb_le 0 k) Hk). Qed.

Lemma Qpow2_inverse (k : Z) : k ≤ 0 -> (Qpow2 k * inject_Z (2 ^ (- k)) == 1)%Q.
Proof.
  intros Hk. unfold Qpow2. destruct (Z.leb_spec 0 k) as [Hk'|Hk'].
  - assert (k = 0) as -> by lia. reflexivity.
  - assert (0 < 2 ^ (- k)) as Hpos by (apply Z.pow_pos_nonneg; lia).
    unfold Qeq, Qmult, inject_Z. simpl.
    rewrite Pos.mul_1_r, Z2Pos.id by done. lia.
Qed.

Lemma Qlog2_integer (a : Z) : 0 < a -> Qlog2 (inject_Z a) = Z.log2 a.
Proof.
  intros Ha. unfold Qlog2. simpl. rewrite Z.sub_0_r.
  pose proof (Z.log2_nonneg a) as Hk.
  rewrite Qpow2_nonneg by done.
  assert (Qle_bool (inject_Z (2 ^ Z.log2 a)) (inject_Z a) = true) as ->; [|done].
  apply Qle_bool_iff. rewrite <- Zle_Qle. by apply Z.log2_spec.
Qed.

(** What rounding leaves of an integer: an integer, and the integer
    itself below [2^53]. *)
Lemma rounded_integer (a : Z) :
  0 < a ->
  let e := Z.max (Qlog2 (inject_Z a) - 52) (-1074) in
  ∃ w, (inject_Z (round_half_even (inject_Z a / Qpow2 e)) * Qpow2 e == inject_Z w)%Q ∧
       (a < 2 ^ 53 -> w = a).
Proof.
  intros Ha. simpl. rewrite Qlog2_integer by done.
  pose proof (Z.log2_nonneg a) as Hk.
  rewrite Z.max_l by lia.
  destruct (Z.le_gt_cases (Z.log2 a) 52) as [Hsmall|Hlarge].
  - exists a. split; [|done].
    set (e := Z.log2 a - 52).
    assert ((inject_Z a / Qpow2 e == inject_Z (a * 2 ^ (- e)))%Q) as Hscaled.
    { rewrite inject_Z_mult.
      pose proof (Qpow2_inverse e ltac:(lia)) as Hinv.
      assert (¬ (Qpow2 e == 0)%Q) as Hne.
      { intros Hzero. rewrite Hzero in Hinv. by ring_simplify in Hinv. }
      rewrite <- (Qmult_1_r (inject_Z a)) at 1. rewrite <- Hinv. by field. }
    rewrite (round_half_even_integer _ _ Hscaled), inject_Z_mult.
    rewrite <- Qmult_assoc, (Qmult_comm (inject_Z (2 ^ (- e)))).
    rewrite (Qpow2_inverse e ltac:(lia)). ring.
  - set (e := Z.log2 a - 52).
    exists (round_half_even (inject_Z a / Qpow2 e) * 2 ^ e). split.
    + rewrite (Qpow2_nonneg e) by lia. by rewrite inject_Z_mult.
    + intros Hlt. apply Z.log2_lt_pow2 in Hlt; lia.
Qed.

Lemma to_double_integer (z : Z) :
  (∃ negative, to_double (inject_Z z) = Infinity negative) ∨
  (∃ w, to_double (inject_Z z) = of_Z w).
Proof.
  unfold to_double.
  destruct (Qeq_bool (inject_Z z) 0) eqn:Hzero; [right; by exists 0|].
  assert (z ≠ 0) as Hz by (intros ->; done).
  change (Qabs (inject_Z z)) with (inject_Z (Z.abs z)).
  destruct (rounded_integer (Z.abs z) ltac:(lia)) as (w & Hw & _). simpl in Hw.
  destruct (Qle_bool (Qpow2 1024) _); [left; by eexists|right].
  destruct (Qle_bool 0 (inject_Z z)).
  - exists w. unfold of_Z. f_equal. by apply Qred_integer.
  - exists (- w). unfold of_Z. f_equal. apply Qred_integer.
    by rewrite Hw, inject_Z_opp.
Qed.

Lemma to_double_exact (z : Z) : Z.abs z ≤ 2 ^ 53 -> to_double (inject_Z z) = of_Z z.
Proof.
  intros Hz.
  destruct (decide (Z.abs z = 2 ^ 53)) as [Hmax|Hlt].
  { assert (z = 2 ^ 53 ∨ z = - 2 ^ 53) as [-> | ->] by lia; vm_compute; reflexivity. }
  unfold to_double.
  destruct (Qeq_bool (inject_Z z) 0) eqn:Hzero.
  { apply Qeq_bool_iff in Hzero. unfold Qeq in Hzero. simpl in Hzero.
    by assert (z = 0) as -> by lia. }
  assert (z ≠ 0) as Hne by (intros ->; done).
  change (Qabs (inject_Z z)) with (inject_Z (Z.abs z)).
  destruct (rounded_integer (Z.abs z) ltac:(lia)) as (w & Hw & Hexact). simpl in Hw.
  rewrite Hexact in Hw by lia.
  assert (Qle_bool (Qpow2 1024) (inject_Z (round_half_even
            (inject_Z (Z.abs z) / Qpow2 (Z.max (Qlog2 (inject_Z (Z.abs z)) - 52) (-1074))))
          * Qpow2 (Z.max (Qlog2 (inject_Z (Z.abs z)) - 52) (-1074))) = false) as ->.
  { apply not_true_iff_false. intros Hle%Qle_bool_iff. rewrite Hw in Hle.
    rewrite Qpow2_nonneg in Hle by done. rewrite <- Zle_Qle in Hle.
    assert (2 ^ 53 < 2 ^ 1024) by (by apply Z.pow_lt_mono_r). lia. }
  unfold of_Z. f_equal. apply Qred_integer.
  destruct (Qle_bool 0 (inject_Z z)) eqn:Hsign.
  - apply Qle_bool_iff in Hsign. change 0%Q with (inject_Z 0) in Hsign.
    rewrite <- Zle_Qle in Hsign.
    rewrite Hw. by rewrite Z.abs_eq.
  - assert (z < 0) as Hneg.
    { apply Z.lt_nge. intros Hpos. rewrite (Zle_Qle 0 z) in Hpos.
      apply Qle_bool_iff in Hpos. change (inject_Z 0) with 0%Q in Hpos. congruence. }
    rewrite Hw, <- inject_Z_opp. by rewrite Z.abs_neq, Z.opp_involutive by lia.
Qed.

(** The progress shown at chunk 23 of 40: the quotient 23/40 is not a
    double, and the product of the nearest double with 100 lies just
    below 57.5. *)
Example progress_at_chunk_23_of_40 : percent 23 40 = of_Z 57.
Proof. vm_compute. reflexivity. Qed.

Lemma dubbed_track_follows_chunk_order_witness :
  let c := later_click three_minutes (of_Z 45) in
  let r := engine_ready [] in
  concatenating ∈ @new_statuses stand_in r (@handleStart stand_in c r).2 ∧
  ∃ inputName r1 files_in,
    let usedSegments := cap_by_maxMinutes c (@listed_segments stand_in r1) in
    let requests := @new_fetches stand_in r (@handleStart stand_in c r).2 in
    @start_to_segment stand_in c r = (Ok inputName, r1) ∧
    Forall2 (fun seg audio => @files_of stand_in r1 !! seg = Some audio)
            usedSegments (transcribed_audio requests) ∧
    Forall2 (fun seg wav => files_in !! tts_name seg = Some wav)
            usedSegments (speech_bodies requests) ∧
    files_in !! "concat.txt" = Some (listContent (tts_name <$> usedSegments)) ∧
    (concat_args, files_in) ∈ @new_execs stand_in r (@handleStart stand_in c r).2.
Proof.
  intros c r.
  assert (concatenating ∈ @new_statuses stand_in r (@handleStart stand_in c r).2)
    as Hreached by (apply (bool_decide_unpack _); vm_compute; exact I).
  split; [exact Hreached|].
  exact (@dubbed_track_follows_chunk_order stand_in c r Hreached).
Defined.

(** The run of the witness above, evaluated: three chunks in, three
    synthesized chunks out, listed and concatenated in index order. *)
Example three_chunks_in_order :
  transcribed_audio (@new_fetches stand_in (engine_ready []) after_long_video) =
    ["a"; "b"; "c"] ∧
  @files_of stand_in after_long_video !! "concat.txt" =
    Some (join newline ["file 'tts_seg_000.wav'"; "file 'tts_seg_001.wav'";
                        "file 'tts_seg_002.wav'"]) ∧
  @files_of stand_in after_long_video !! "dubbed.wav" =
    Some "spoken translated heard aspoken translated heard bspoken translated heard c".
Proof. vm_compute. done. Qed.

Lemma empty_translation_reaches_synthesis_witness :
  res_ok no_content = true ∧
  json no_content = Some no_content_json ∧
  nullish no_content_json = false ∧
  content_field (js_get no_content_json "choices") = JStr "" ∧
  (@translateWithOpenAI stand_in "sk-test" (JStr "heard a") "es"
     (fresh [EmptyContent])).1 = Ok (JStr "").
Proof.
  split_and!; [reflexivity..|].
  apply (proj1 (@empty_translation_reaches_synthesis stand_in no_content no_content_json
                  eq_refl eq_refl eq_refl (or_intror eq_refl))
           "sk-test" (JStr "heard a") "es" (fresh [EmptyContent]) []).
  reflexivity.
Defined.

(** Scenario C of the spec on the stand-in environment: the empty
    translation of the first chunk is synthesized like any other. *)
Example empty_translation_is_synthesized :
  let run := @process_segment stand_in (later_click three_minutes (of_Z 45)) 3 0
               "seg_000.wav" (@set_world stand_in [Normal; EmptyContent] after_long_video) in
  run.1 = Ok "tts_seg_000.wav" ∧
  speech_bodies (@new_fetches stand_in after_long_video run.2) = ["spoken "].
Proof. vm_compute. done. Qed.

(** ** The budget *)

Section Budget.

Lemma inject_Z_min (a b : Z) :
  (if Qle_bool (inject_Z a) (inject_Z b) then inject_Z a else inject_Z b) =
  inject_Z (Z.min a b).
Proof.
  unfold Qle_bool. simpl. rewrite !Z.mul_1_r.
  destruct (Z.leb_spec a b); [by rewrite Z.min_l | by rewrite Z.min_r by lia].
Qed.

Lemma ToIntegerOrInfinity_of_Z (z : Z) : ToIntegerOrInfinity (of_Z z) = Finite z.
Proof.
  unfold ToIntegerOrInfinity, of_Z. f_equal. destruct (Qle_bool 0 (inject_Z z));
    [apply Qfloor_Z | apply Qceiling_Z].
Qed.

(** Within the advertised range, and for every budget that is not
    negative, the cap is the spec's: the first
    [min(total, ceil(maxMinutes))] names. *)
Lemma cap_by_maxMinutes_in_budget (c : Closure) (files : list string) (q : Q) :
  maxMinutes c = Num q ->
  (0 <= q)%Q ->
  cap_by_maxMinutes c files =
    take (Z.to_nat (spec_usedCount (length files) q)) files ∧
  0 ≤ spec_usedCount (length files) q ≤ Z.of_nat (length files).
Proof.
  intros Hmax Hq.
  assert (0 ≤ Qceiling q) as Hceil.
  { change 0 with (Qceiling 0). by apply Qceiling_resp_le. }
  assert (maxSegments c files = of_Z (Z.min (Z.of_nat (length files)) (Qceiling q)))
    as Hcap.
  { unfold maxSegments, Math_min, Math_ceil, of_Z. rewrite Hmax.
    by rewrite inject_Z_min. }
  unfold cap_by_maxMinutes, slice0, spec_usedCount.
  rewrite Hcap, ToIntegerOrInfinity_of_Z.
  split; [|lia].
  destruct (Z.ltb_spec (Z.min (Z.of_nat (length files)) (Qceiling q)) 0); [lia|].
  f_equal. lia.
Qed.

(** C2 at a budget below zero: the field accepts "-3", the cap becomes
    [min(10, -3) = -3], and [slice(0, -3)] keeps the first seven of ten
    segments, where the claim's [usedCount] is [-3]. *)
Theorem negative_budget_cuts_from_the_end :
  let c := onChange_maxMinutes "-3" (later_click three_minutes (of_Z 45)) in
  maxSegments c (segment_files 10) = of_Z (-3) ∧
  spec_usedCount 10 (inject_Z (-3)) = -3 ∧
  cap_by_maxMinutes c (segment_files 10) = segment_files 7.
Proof. vm_compute. done. Qed.

(** C9 on the code: the handler stores what [parseInt] returns; only an
    empty field falls back to 45, and nothing clamps the value to the
    [min] and [max] the input element declares. *)
Theorem maxMinutes_is_not_clamped :
  maxMinutes first_render = of_Z 45 ∧
  maxMinutes (onChange_maxMinutes "" first_render) = of_Z 45 ∧
  maxMinutes (onChange_maxMinutes "120" first_render) = of_Z 120 ∧
  maxMinutes (onChange_maxMinutes "500" first_render) = of_Z 500 ∧
  maxMinutes (onChange_maxMinutes "0" first_render) = of_Z 0 ∧
  maxMinutes (onChange_maxMinutes "-3" first_render) = of_Z (-3) ∧
  maxMinutes (onChange_maxMinutes ".5" first_render) = NaN.
Proof. vm_compute. done. Qed.

End Budget.

(** ** The working area across runs *)

(** C4 on the code: after a complete run on a three-minute video, a run
    on a one-minute video finds [seg_001.wav] and [seg_002.wav] of the
    first run still listed, and dubs them after its own single chunk. *)
Theorem stale_segments_are_dubbed_again :
  let before := after_long_video in
  let run := @handleStart stand_in (later_click one_minute (of_Z 45)) before in
  @files_of stand_in before !! "seg_002.wav" = Some "c" ∧
  run.1 = Ok tt ∧
  transcribed_audio (@new_fetches stand_in before run.2) = ["x"; "b"; "c"] ∧
  downloadUrl run.2 =
    Some "x+spoken translated heard xspoken translated heard bspoken translated heard c".
Proof. vm_compute. done. Qed.

Section WorkingArea.
Context `{Env}.

(** A binding that is still [null] stops every run at the first engine
    call that is not wrapped in [try]: the write of the upload. *)
Lemma null_binding_stops_extraction c video r :
  ffmpeg c = Null ->
  ∃ e r', reset_and_extract c video r = (Throw e, r').
Proof.
  intros Hc. unfold reset_and_extract, bind, try_, deleteFile, writeFile, call.
  rewrite Hc. simpl. eauto.
Qed.

(** "Reset FS" (lines 97-99) deletes [input.mp4] and [audio.wav] only:
    the extraction command is given every segment file the instance held
    when the run started. *)
Lemma reset_leaves_segment_files c video r files :
  ffmpeg c = RefCurrent ->
  ffmpegRef r = Some {| loaded := true; fs := files |} ->
  ∃ inputName args files_in,
    (reset_and_extract c video r).1 = Ok inputName ∧
    new_execs r (reset_and_extract c video r).2 = [(args, files_in)] ∧
    ∀ n, is_segment_name n = true -> files_in !! n = files !! n.
Proof.
  intros Hc Hr.
  set (inputName := if endsWith ".webm" (name video) then "input.webm" else "input.mp4").
  set (args := ["-i"; inputName; "-vn"; "-ac"; "1"; "-ar"; "16000"; "audio.wav"]).
  set (files1 := delete "input.mp4" files).
  set (files2 := delete "audio.wav" files1).
  set (files3 := <[inputName := bytes video]> files2).
  set (r1 := set_ffmpegRef (Some {| loaded := true; fs := files1 |}) r).
  set (r2 := set_ffmpegRef (Some {| loaded := true; fs := files2 |}) r1).
  set (r3 := (setDetail "Extracting audio track..." (setStatus extracting r2).2).2).
  set (r4 := set_ffmpegRef (Some {| loaded := true; fs := files3 |}) r3).
  assert (reset_and_extract c video r =
          (Ok inputName,
           log_exec args files3
             (set_ffmpegRef (Some {| loaded := true; fs := engine_exec args files3 |}) r4)))
    as Hrun.
  { unfold reset_and_extract.
    rewrite (bind_eq_Ok _ _ _ _ _ (try_deleteFile_ready c _ r files Hc Hr)).
    rewrite (bind_eq_Ok _ _ _ _ _ (try_deleteFile_ready c _ r1 files1 Hc eq_refl)).
    fold r2. unfold bind at 1. simpl. unfold bind at 1. simpl. fold r3.
    rewrite (bind_eq_Ok _ _ _ _ _ (writeFile_ready c _ _ r3 files2 Hc eq_refl)).
    fold r4.
    by rewrite (bind_eq_Ok _ _ _ _ _ (exec_ready c _ r4 files3 Hc eq_refl)). }
  exists inputName, args, files3. rewrite Hrun. split_and!; [done| |].
  - unfold new_execs. simpl. by rewrite drop_app_length.
  - intros n Hn.
    assert (n ≠ "input.mp4" ∧ n ≠ "audio.wav" ∧ n ≠ "input.webm") as (? & ? & ?).
    { split_and!; intros ->; by vm_compute in Hn. }
    unfold files3, files2, files1.
    rewrite lookup_insert_ne
      by (subst inputName; by destruct (endsWith ".webm" (name video))).
    by rewrite !lookup_delete_ne.
Qed.

End WorkingArea.

(** ** Order of the segment names *)

Lemma segment_files_1000_sorted : Sorted String.le (segment_files 1000).
Proof. apply (bool_decide_unpack _). vm_compute. exact I. Qed.

Lemma segment_files_take (n m : nat) :
  (n ≤ m)%nat -> segment_files n = take n (segment_files m).
Proof.
  intros Hnm. unfold segment_files.
  rewrite firstn_map. f_equal.
  replace m with (n + (m - n))%nat by lia.
  rewrite seq_app, take_app_length'; [done|]. by rewrite length_seq.
Qed.

Lemma segment_files_sorted (n : nat) :
  (n ≤ 1000)%nat -> Sorted String.le (segment_files n).
Proof.
  intros Hn. rewrite (segment_files_take n 1000 Hn).
  apply StronglySorted_Sorted.
  apply (StronglySorted_app_1_l _ _ (drop n (segment_files 1000))).
  rewrite take_drop. apply Sorted_StronglySorted; [apply _|].
  apply segment_files_1000_sorted.
Qed.

(** For up to 1000 segments (indices 000 to 999, all of width three) the
    default sort of the names, whatever the order the listing returned
    them in, is their order by index. *)
Theorem sorted_names_in_index_order (n : nat) (names : list string) :
  (n ≤ 1000)%nat ->
  names ≡ₚ segment_files n ->
  js_sort names = segment_files n.
Proof.
  intros Hn Hperm. unfold js_sort.
  apply (Sorted_unique String.le).
  - apply Sorted_merge_sort; apply _.
  - by apply segment_files_sorted.
  - by rewrite merge_sort_Permutation.
Qed.

Lemma sorted_names_in_index_order_witness :
  (3 ≤ 1000)%nat ∧
  ["seg_001.wav"; "seg_000.wav"; "seg_002.wav"] ≡ₚ segment_files 3 ∧
  js_sort ["seg_001.wav"; "seg_000.wav"; "seg_002.wav"] = segment_files 3.
Proof.
  assert (["seg_001.wav"; "seg_000.wav"; "seg_002.wav"] ≡ₚ segment_files 3) as Hperm
    by (vm_compute; apply perm_swap).
  split_and!; [lia | exact Hperm |].
  apply (sorted_names_in_index_order 3); [lia | exact Hperm].
Defined.

(** With 1001 segments the sort no longer gives the order by index:
    [%03d] prints index 1000 with four digits, and "seg_1000.wav" sorts
    before "seg_101.wav". *)
Lemma sort_breaks_index_order_at_1001 :
  js_sort (segment_files 1001) ≠ segment_files 1001.
Proof.
  intros Heq.
  assert (js_sort (segment_files 1001) !! 101%nat = Some "seg_1000.wav") as H1
    by (vm_compute; reflexivity).
  rewrite Heq in H1. vm_compute in H1. discriminate H1.
Qed.

Lemma segment_file_listed (i n : nat) : (i < n)%nat -> segment_file i ∈ segment_files n.
Proof.
  intros Hi. unfold segment_files. apply list_elem_of_fmap.
  exists i. split; [done|]. apply elem_of_seq. lia.
Qed.

Lemma sorted_before (l : list string) (i j : nat) (x y : string) :
  StronglySorted String.le l ->
  (i < j)%nat -> l !! i = Some x -> l !! j = Some y -> String.le x y.
Proof.
  intros Hsorted Hij Hx Hy. rewrite <- (take_drop j l) in Hsorted.
  apply (StronglySorted_app_1_elem_of _ _ _ _ _ Hsorted).
  - apply list_elem_of_lookup. exists i. by rewrite lookup_take_lt.
  - apply list_elem_of_lookup. exists 0%nat. by rewrite lookup_drop, Nat.add_0_r.
Qed.

(** C8 on the code: from 1001 segments on, whatever the order the listing
    returns the names in, the sort of line 121 does not give the order by
    index: it places chunk 1000 ("seg_1000.wav", the first name of four
    digits) before chunk 101 ("seg_101.wav"). *)
Theorem sort_places_chunk_1000_before_chunk_101 (n : nat) (names : list string) :
  (1001 ≤ n)%nat ->
  names ≡ₚ segment_files n ->
  js_sort names ≠ segment_files n ∧
  ∃ i j : nat,
    (i < j)%nat ∧
    js_sort names !! i = Some (segment_file 1000) ∧
    js_sort names !! j = Some (segment_file 101).
Proof.
  intros Hn Hperm.
  assert (StronglySorted String.le (js_sort names)) as Hsorted.
  { apply Sorted_StronglySorted; [apply _|]. apply Sorted_merge_sort; apply _. }
  assert (js_sort names ≡ₚ segment_files n) as Hperm'.
  { unfold js_sort. by rewrite merge_sort_Permutation. }
  split.
  - intros Heq. rewrite Heq in Hsorted.
    apply sort_breaks_index_order_at_1001. unfold js_sort.
    apply (Sorted_unique String.le).
    + apply Sorted_merge_sort; apply _.
    + rewrite (segment_files_take 1001 n Hn).
      apply StronglySorted_Sorted.
      apply (StronglySorted_app_1_l _ _ (drop 1001 (segment_files n))).
      by rewrite take_drop.
    + apply merge_sort_Permutation.
  - assert (segment_file 1000 ∈ js_sort names) as [i Hi]%list_elem_of_lookup.
    { rewrite Hperm'. apply segment_file_listed. lia. }
    assert (segment_file 101 ∈ js_sort names) as [j Hj]%list_elem_of_lookup.
    { rewrite Hperm'. apply segment_file_listed. lia. }
    exists i, j. split; [|done].
    destruct (Nat.lt_trichotomy i j) as [Hlt | [-> | Hgt]]; [done|..].
    + rewrite Hi in Hj. by vm_compute in Hj.
    + pose proof (sorted_before _ _ _ _ _ Hsorted Hgt Hj Hi) as Hle.
      exfalso. revert Hle. apply (bool_decide_unpack _). vm_compute. exact I.
Qed.

Lemma sort_places_chunk_1000_before_chunk_101_witness :
  (1001 ≤ 1001)%nat ∧
  segment_files 1001 ≡ₚ segment_files 1001 ∧
  js_sort (segment_files 1001) ≠ segment_files 1001.
Proof.
  split_and!; [lia | done |].
  exact (proj1 (sort_places_chunk_1000_before_chunk_101 1001 (segment_files 1001)
                  ltac:(lia) ltac:(done))).
Defined.

(** ** The claims on the inputs where the code departs from them *)

(** C1 on the code: a recording of 1001 minutes with a budget of 102.
    The engine writes the chunks [seg_000.wav] to [seg_1000.wav]; the
    sort of line 121 places [seg_1000.wav] right after [seg_100.wav], so
    the run returns with 102 chunks dubbed of which the last one, at
    position 101, is chunk 1000 (the minute "z") and not chunk 101 (a
    minute "a"): the request, the synthesized file and the line of
    [concat.txt] at position 101 are those of chunk 1000, and the dubbed
    track ends on it. *)
Theorem chunk_1000_is_dubbed_at_position_101 :
  let c := later_click long_recording (of_Z 102) in
  let r := engine_ready [] in
  let run := @handleStart stand_in c r in
  let requests := @new_fetches stand_in r run.2 in
  run.1 = Ok tt ∧
  @files_of stand_in run.2 !! segment_file 101 = Some "a" ∧
  @files_of stand_in run.2 !! segment_file 1000 = Some "z" ∧
  length (transcribed_audio requests) = 102%nat ∧
  transcribed_audio requests !! 100%nat = Some "a" ∧
  transcribed_audio requests !! 101%nat = Some "z" ∧
  speech_bodies requests !! 101%nat = Some "spoken translated heard z" ∧
  @files_of stand_in run.2 !! tts_name (segment_file 1000) =
    Some "spoken translated heard z" ∧
  @files_of stand_in run.2 !! tts_name (segment_file 101) = None ∧
  (∃ names,
     @files_of stand_in run.2 !! "concat.txt" = Some (listContent names) ∧
     length names = 102%nat ∧
     names !! 100%nat = Some "tts_seg_100.wav" ∧
     names !! 101%nat = Some "tts_seg_1000.wav") ∧
  (∃ track,
     @files_of stand_in run.2 !! "dubbed.wav" = Some track ∧
     endsWith "spoken translated heard aspoken translated heard z" track = true).
Proof.
  cbv zeta. split_and!; try (vm_compute; reflexivity).
  - exists (tts_name <$> take 102 (js_sort (segment_files 1001))).
    split_and!; vm_compute; reflexivity.
  - exists (default "" (@files_of stand_in
                          (@handleStart stand_in (later_click long_recording (of_Z 102))
                             (engine_ready [])).2 !! "dubbed.wav")).
    split; vm_compute; reflexivity.
Qed.

Lemma segmenting_silence_writes_nothing (files : FS) :
  files !! "audio.wav" = Some "" -> stand_in_exec segment_args files = files.
Proof. intros Haudio. unfold stand_in_exec. simpl. by rewrite Haudio. Qed.

(** C6 on the code: a silent upload after a complete run on a video of
    three minutes.  On a new engine the run throws "No segments
    produced".  Here the extracted track is empty as well and the segment
    command leaves the files as it found them, so segmentation yields no
    chunk; but the listing of line 120 finds the three segment files the
    earlier run left, the check of line 122 passes, and the run returns
    with an artifact dubbed from the chunks of the earlier video. *)
Theorem silent_upload_after_a_run_is_dubbed :
  let c := later_click silent (of_Z 45) in
  let before := after_long_video in
  let run := @handleStart stand_in c before in
  (@handleStart stand_in c (engine_ready [])).1 = Throw (Error "No segments produced") ∧
  @files_of stand_in run.2 !! "audio.wav" = Some "" ∧
  (∃ files_in,
     @new_execs stand_in before run.2 !! 1%nat = Some (segment_args, files_in) ∧
     stand_in_exec segment_args files_in = files_in) ∧
  @listed_segments stand_in before = ["seg_000.wav"; "seg_001.wav"; "seg_002.wav"] ∧
  run.1 = Ok tt ∧
  transcribed_audio (@new_fetches stand_in before run.2) = ["a"; "b"; "c"] ∧
  downloadUrl run.2 =
    Some "+spoken translated heard aspoken translated heard bspoken translated heard c".
Proof.
  cbv zeta. split_and!; try (vm_compute; reflexivity).
  assert (fst <$> @new_execs stand_in after_long_video
                    (@handleStart stand_in (later_click silent (of_Z 45))
                       after_long_video).2 !! 1%nat = Some segment_args) as Hargs
    by (vm_compute; reflexivity).
  assert (@new_execs stand_in after_long_video
            (@handleStart stand_in (later_click silent (of_Z 45)) after_long_video).2
            !! 1%nat ≫= (fun e => e.2 !! "audio.wav") = Some "") as Haudio
    by (vm_compute; reflexivity).
  destruct (@new_execs stand_in after_long_video _ !! 1%nat) as [[args files_in]|];
    [|done].
  injection Hargs as ->. exists files_in. split; [done|].
  by apply segmenting_silence_writes_nothing.
Qed.

Lemma translation_without_a_body_throws_witness :
  (@process_segment stand_in (later_click three_minutes (of_Z 45)) 3 0 "seg_000.wav"
     (@set_world stand_in [Normal; NullBody] after_long_video)).1 =
    Throw (TypeError "Cannot read properties of null (reading 'choices')") ∧
  speech_bodies
    (@new_fetches stand_in (@set_world stand_in [Normal; NullBody] after_long_video)
       (@process_segment stand_in (later_click three_minutes (of_Z 45)) 3 0 "seg_000.wav"
          (@set_world stand_in [Normal; NullBody] after_long_video)).2) = [] ∧
  (@translateWithOpenAI stand_in "sk-test" (JStr "heard a") "es" (fresh [Status 204])).1 =
    Throw SyntaxError.
Proof.
  assert (@new_fetches stand_in (@set_world stand_in [Normal; NullBody] after_long_video)
            (@process_segment stand_in (later_click three_minutes (of_Z 45)) 3 0
               "seg_000.wav"
               (@set_world stand_in [Normal; NullBody] after_long_video)).2 =
          [(Transcriptions "sk-test" "a", Resolved (answer (Transcriptions "sk-test" "a")))]
          ++ (ChatCompletions "sk-test" (system_prompt "es") (JStr "heard a"),
              Resolved null_body) :: []) as Hlog
    by (vm_compute; reflexivity).
  destruct (proj2 (@translation_without_a_body_throws stand_in) _ _ _ _ _ _ _ _ _ _ _
              Hlog eq_refl) as [_ Hthrow].
  { by intros data [= <-]. }
  split_and!.
  - exact Hthrow.
  - rewrite Hlog. reflexivity.
  - exact (proj1 (@translation_without_a_body_throws stand_in) "sk-test" (JStr "heard a")
             "es" (fresh [Status 204])
             {| res_status := 204; json := None; body := "" |} [] eq_refl eq_refl).
Defined.

(** * Further properties of the page *)

(** ** The stored API key *)

(** X1: a key typed into the field is stored and comes back on the next
    mount; clearing the field afterwards writes nothing, so the stored key
    is still the one restored, and no other entry of the storage is
    touched. *)
Theorem stored_key_survives_clearing (key : string) (c c0 : Closure)
    (storage : gmap string string) :
  key ≠ "" ->
  let typed := persist_apiKey (onChange_apiKey key c) storage in
  let cleared := persist_apiKey (onChange_apiKey "" c) typed in
  apiKey (restore_apiKey typed c0) = key ∧
  apiKey (restore_apiKey cleared c0) = key ∧
  ∀ other, other ≠ "openai_api_key" -> cleared !! other = storage !! other.
Proof.
  intros Hkey. simpl. unfold persist_apiKey, restore_apiKey. simpl.
  apply String.eqb_neq in Hkey. rewrite Hkey, lookup_insert_eq, Hkey.
  split_and!; [done..|]. intros other Hother. by rewrite lookup_insert_ne.
Qed.

Lemma stored_key_survives_clearing_witness :
  "sk-test" ≠ "" ∧
  apiKey (restore_apiKey
            (persist_apiKey (onChange_apiKey "" first_render)
               (persist_apiKey (onChange_apiKey "sk-test" first_render) ∅))
            first_render) = "sk-test".
Proof.
  split; [discriminate|].
  exact (proj1 (proj2 (stored_key_survives_clearing "sk-test" first_render first_render ∅
                         ltac:(discriminate)))).
Defined.

(** ** Before the engine is touched *)

Section Guards.
Context `{Env}.

(** X2: without a key the run throws "Missing OpenAI API key", and with a
    key but no file "No video uploaded"; in both cases the only effect is
    that the previous artifact is cleared: no status, no engine instance,
    no request. *)
Theorem missing_inputs_abort_before_the_engine (c : Closure) (r : Run) :
  (apiKey c = "" ->
   handleStart c r = (Throw (Error "Missing OpenAI API key"), (setDownloadUrl None r).2)) ∧
  (apiKey c ≠ "" -> videoFile c = None ->
   handleStart c r = (Throw (Error "No video uploaded"), (setDownloadUrl None r).2)).
Proof.
  unfold handleStart, start_to_segment, bind. simpl. split.
  - by intros ->.
  - intros Hkey%String.eqb_neq ->. by rewrite Hkey.
Qed.

(** X3: [ensureFFmpeg] creates the instance only when there is none and
    loads it only when it is not loaded.  When it returns the instance is
    loaded and holds the files it held before (none for a new one), a
    second call changes nothing, and [preparing] was set exactly when the
    instance was created; when it throws the instance exists, unloaded,
    with the same files. *)
Theorem ensureFFmpeg_loads_once (r : Run) :
  match ensureFFmpeg r with
  | (Ok _, r') =>
      ffmpegRef r' = Some {| loaded := true; fs := files_of r |} ∧
      ensureFFmpeg r' = (Ok tt, r') ∧
      new_statuses r r' = match ffmpegRef r with Some _ => [] | None => [preparing] end
  | (Throw _, r') => ffmpegRef r' = Some {| loaded := false; fs := files_of r |}
  end.
Proof.
  unfold ensureFFmpeg, files_of, new_statuses.
  destruct (ffmpegRef r) as [[[] files]|] eqn:Href; simpl.
  - rewrite Href. simpl. by rewrite drop_all.
  - unfold instance_load. rewrite Href.
    destruct (engine_load (world r)) as [[] w]; simpl; [|done].
    by rewrite drop_all.
  - unfold bind, instance_load. simpl.
    destruct (engine_load (world r)) as [[] w]; simpl; [|done].
    by rewrite drop_app_length.
Qed.

End Guards.

(** ** The memoised binding *)

Section Binding.
Context `{Env}.

Lemma call_null {A} c method (op : FS -> Result A * FS) r :
  ffmpeg c = Null ->
  call c method op r =
    (Throw (TypeError ("Cannot read properties of null (reading '"
                       +:+ method +:+ "')")), r).
Proof. intros Hnull. unfold call. by rewrite Hnull. Qed.

Lemma ensureFFmpeg_keeps_files : keeps files_of ensureFFmpeg.
Proof.
  intros r. unfold ensureFFmpeg, files_of.
  destruct (ffmpegRef r) as [[[] files]|] eqn:Href; simpl.
  - by rewrite Href.
  - unfold instance_load. rewrite Href.
    by destruct (engine_load (world r)) as [[] w]; simpl; rewrite ?Href.
  - unfold bind, instance_load. simpl.
    by destruct (engine_load (world r)) as [[] w].
Qed.

Lemma reset_and_extract_null c video r :
  ffmpeg c = Null ->
  reset_and_extract c video r =
    (Throw (TypeError "Cannot read properties of null (reading 'writeFile')"),
     (setDetail "Extracting audio track..." (setStatus extracting r).2).2).
Proof.
  intros Hnull.
  unfold reset_and_extract, bind, try_, deleteFile, writeFile. simpl.
  repeat (rewrite call_null by done; simpl). done.
Qed.

(** X4: while the memoised binding is [null] no run returns: whatever the
    form holds, the run throws without sending a request, without issuing
    an engine command and without touching a file of the engine; once
    [extracting] is shown, the error is the [TypeError] of the call to
    [writeFile]. *)
Theorem null_binding_never_reaches_the_engine (c : Closure) (r : Run) :
  ffmpeg c = Null ->
  ∃ e,
    (handleStart c r).1 = Throw e ∧
    new_fetches r (handleStart c r).2 = [] ∧
    new_execs r (handleStart c r).2 = [] ∧
    files_of (handleStart c r).2 = files_of r ∧
    (extracting ∈ new_statuses r (handleStart c r).2 ->
     e = TypeError "Cannot read properties of null (reading 'writeFile')").
Proof.
  intros Hnull.
  assert (∃ e r', start_to_segment c r = (Throw e, r') ∧
            fetchLog r' = fetchLog r ∧ execLog r' = execLog r ∧
            files_of r' = files_of r ∧
            (extracting ∈ new_statuses r r' ->
             e = TypeError "Cannot read properties of null (reading 'writeFile')"))
    as (e & r' & Hrun & Hfetch & Hexec & Hfiles & Herr).
  { unfold start_to_segment, bind. simpl.
    destruct (String.eqb (apiKey c) "") eqn:Hkey; simpl.
    { eexists _, _. split_and!; try done.
      unfold new_statuses. simpl. rewrite drop_all. by intros ?%elem_of_nil. }
    destruct (videoFile c) as [video|]; simpl; last first.
    { eexists _, _. split_and!; try done.
      unfold new_statuses. simpl. rewrite drop_all. by intros ?%elem_of_nil. }
    match goal with |- context [ensureFFmpeg ?x] => set (r0 := x) end.
    pose proof (ensureFFmpeg_keeps_fetchLog r0) as Hf.
    pose proof (ensureFFmpeg_keeps_execLog r0) as Hx.
    pose proof (ensureFFmpeg_keeps_files r0) as Hfs.
    pose proof (ensureFFmpeg_adds_statuses (fun s => s = preparing) eq_refl r0)
      as (added & Hs & Hadded).
    change (files_of r0) with (files_of r) in Hfs.
    change (fetchLog r0) with (fetchLog r) in Hf.
    change (execLog r0) with (execLog r) in Hx.
    change (statusLog r0) with (statusLog r) in Hs.
    destruct (ensureFFmpeg r0) as [[[]|e] r1]; simpl in Hf, Hx, Hfs, Hs.
    - rewrite reset_and_extract_null by done.
      eexists _, _. split_and!; done.
    - eexists _, _. split_and!; try done.
      unfold new_statuses. rewrite Hs. simpl. rewrite drop_app_length.
      intros Hin. rewrite Forall_forall in Hadded.
      by apply Hadded in Hin. }
  exists e. unfold handleStart. rewrite (bind_eq_Throw _ _ _ _ _ Hrun). simpl.
  unfold new_fetches, new_execs. rewrite Hfetch, Hexec, !drop_all. done.
Qed.

End Binding.

Lemma null_binding_never_reaches_the_engine_witness :
  ffmpeg first_click = Null ∧
  ∃ e, (@handleStart stand_in first_click (fresh [])).1 = Throw e ∧
       @new_fetches stand_in (fresh []) (@handleStart stand_in first_click (fresh [])).2 = [].
Proof.
  split; [reflexivity|].
  destruct (@null_binding_never_reaches_the_engine stand_in first_click (fresh []) eq_refl)
    as (e & Hthrow & Hfetch & _).
  exists e. split; [exact Hthrow | exact Hfetch].
Defined.

(** ** Listing the segments *)

Lemma substring_all (s : string) : String.substring 0 (String.length s) s = s.
Proof. induction s as [|ch s IH]; simpl; [done | by rewrite IH]. Qed.

Lemma substring_skip (a p : string) :
  String.substring (String.length a) (String.length p) (a +:+ p) = p.
Proof. induction a as [|ch a IH]; simpl; [apply substring_all | exact IH]. Qed.

Lemma length_append (a p : string) :
  String.length (a +:+ p) = (String.length a + String.length p)%nat.
Proof. induction a as [|ch a IH]; simpl; [done | by rewrite IH]. Qed.

Lemma endsWith_append (a p : string) : endsWith p (a +:+ p) = true.
Proof.
  unfold endsWith. rewrite length_append.
  replace (String.length a + String.length p - String.length p)%nat
    with (String.length a) by lia.
  rewrite substring_skip, String.eqb_refl, andb_true_r.
  apply Nat.leb_le. lia.
Qed.

(** X5: the filter of line 121 accepts every name the pattern
    ["seg_%03d.wav"] of line 117 expands to, whatever the index, and
    rejects every file the run writes itself (the upload, the audio track,
    the synthesized chunks, the concat list, the dubbed track, the
    output) and the directory entries [.] and [..]. *)
Theorem filter_accepts_segments_only :
  (∀ i : nat, is_segment_name (segment_file i) = true) ∧
  (∀ segName : string, is_segment_name (tts_name segName) = false) ∧
  (∀ video : File, is_segment_name (input_name video) = false) ∧
  Forall (fun n => is_segment_name n = false)
         ["."; ".."; "audio.wav"; "segments.txt"; "concat.txt"; "dubbed.wav";
          "output.webm"].
Proof.
  split_and!.
  - intros i. unfold is_segment_name. apply andb_true_iff. split.
    { unfold startsWith, segment_file. simpl.
      by destruct (printf_03d i +:+ ".wav"). }
    exact (endsWith_append ("seg_" +:+ printf_03d i) ".wav").
  - done.
  - intros video. unfold input_name. by destruct (endsWith _ _).
  - by repeat constructor.
Qed.

Section Listing.
Context `{Env}.

(** X6: when [list_segments] returns, the state is as it was and the
    list is not empty, sorted, without duplicates, and holds exactly the
    names of the files of the engine that the filter accepts. *)
Theorem list_segments_lists_the_segment_files (c : Closure) (r r' : Run)
    (files : list string) :
  list_segments c r = (Ok files, r') ->
  r' = r ∧
  files ≠ [] ∧
  Sorted String.le files ∧
  NoDup files ∧
  ∀ n, n ∈ files ↔ is_segment_name n = true ∧ is_Some (files_of r !! n).
Proof.
  intros Hrun. unfold list_segments in Hrun.
  apply bind_Ok in Hrun as (names & r1 & Hlist & Hrun).
  apply call_Ok in Hlist as (fs0 & Hbinding & Href & Hnames & ->).
  simpl in Hnames. injection Hnames as <-. simpl in Hrun.
  rewrite (set_ffmpegRef_id r) in Hrun by done.
  set (listed := js_sort _) in Hrun.
  destruct (length listed =? 0)%nat eqn:Hlen; [done|].
  injection Hrun as <- <-.
  assert (listed ≡ₚ filter (fun n => is_segment_name n = true) (map_to_list fs0).*1)
    as Hperm.
  { unfold listed, js_sort. rewrite merge_sort_Permutation.
    by rewrite !filter_cons_False by done. }
  split_and!.
  - done.
  - apply Nat.eqb_neq in Hlen. by intros Hnil; rewrite Hnil in Hlen.
  - apply Sorted_merge_sort; apply _.
  - rewrite Hperm. apply NoDup_filter, NoDup_fst_map_to_list.
  - intros n. rewrite Hperm, list_elem_of_filter.
    unfold files_of. rewrite Href. simpl.
    rewrite list_elem_of_fmap. split.
    + intros [Hn ([n' data] & -> & Hin%elem_of_map_to_list)]. eauto.
    + intros [Hn [data Hdata]]. split; [done|].
      exists (n, data). split; [done|]. by apply elem_of_map_to_list.
Qed.

End Listing.

Lemma list_segments_lists_the_segment_files_witness :
  let c := later_click one_minute (of_Z 45) in
  let r := @set_ffmpegRef stand_in
             (Some {| loaded := true;
                      fs := {[ "seg_001.wav" := "b"; "seg_000.wav" := "a";
                               "tts_seg_000.wav" := "spoken" ]} |}) (fresh []) in
  @list_segments stand_in c r = (Ok ["seg_000.wav"; "seg_001.wav"], r) ∧
  Sorted String.le ["seg_000.wav"; "seg_001.wav"].
Proof.
  intros c r.
  assert (@listed_segments stand_in r = ["seg_000.wav"; "seg_001.wav"]) as Hlisted
    by (vm_compute; reflexivity).
  assert (@list_segments stand_in c r = (Ok ["seg_000.wav"; "seg_001.wav"], r)) as Hrun.
  { rewrite (@list_segments_ready stand_in c r)
      by (split; [reflexivity | eexists; reflexivity]).
    rewrite Hlisted. by destruct (decide _). }
  split; [exact Hrun|].
  exact (proj1 (proj2 (proj2
    (@list_segments_lists_the_segment_files stand_in c r r _ Hrun)))).
Defined.

(** ** The budget field *)

Lemma digit_value_pretty (d : N) :
  (d < 10)%N -> digit_value 10 (pretty_N_char d) = Some (Z.of_N d).
Proof.
  intros Hd.
  assert (d = 0 ∨ d = 1 ∨ d = 2 ∨ d = 3 ∨ d = 4 ∨ d = 5 ∨ d = 6 ∨ d = 7 ∨ d = 8 ∨ d = 9)%N
    as Hcases by lia.
  repeat (destruct Hcases as [-> | Hcases]; [reflexivity|]).
  by subst.
Qed.

Lemma parse_digits_pretty (x : N) :
  (0 < x)%N ->
  ∀ s, parse_digits 10 None (pretty_N_go x s) = parse_digits 10 (Some (Z.of_N x)) s.
Proof.
  induction (N.lt_wf_0 x) as [x _ IH]. intros Hx s.
  rewrite pretty_N_go_step by done.
  pose proof (N.div_mod x 10 ltac:(done)) as Hdiv.
  pose proof (N.mod_lt x 10 ltac:(done)) as Hmod.
  destruct (decide (x `div` 10 = 0)%N) as [Hzero|Hpos].
  - rewrite Hzero, pretty_N_go_0. cbn [parse_digits].
    rewrite digit_value_pretty by done. cbn [default]. do 2 f_equal.
    rewrite Hzero in Hdiv. revert Hdiv. generalize (x `mod` 10)%N. lia.
  - rewrite IH by (try apply N.div_lt; lia). cbn [parse_digits].
    rewrite digit_value_pretty by done. cbn [default]. do 2 f_equal.
    unfold id. revert Hdiv. generalize (x `mod` 10)%N (x `div` 10)%N. lia.
Qed.

Lemma pretty_N_go_head (x : N) :
  (0 < x)%N ->
  ∀ s, ∃ d rest, (0 < d < 10)%N ∧ pretty_N_go x s = String (pretty_N_char d) rest.
Proof.
  induction (N.lt_wf_0 x) as [x _ IH]. intros Hx s.
  rewrite pretty_N_go_step by done.
  pose proof (N.div_mod x 10 ltac:(done)) as Hdiv.
  pose proof (N.mod_lt x 10 ltac:(done)) as Hmod.
  destruct (decide (x `div` 10 = 0)%N) as [Hzero|Hpos].
  - rewrite Hzero, pretty_N_go_0. exists (x `mod` 10)%N, s. split; [|done].
    rewrite Hzero in Hdiv. revert Hdiv Hmod. generalize (x `mod` 10)%N. lia.
  - apply IH; [apply N.div_lt|]; lia.
Qed.

Lemma parseInt_decimal (d : N) (rest : string) :
  (0 < d < 10)%N ->
  let digits := String (pretty_N_char d) rest in
  parseInt digits =
    from_option (fun v => to_double (inject_Z v)) NaN (parse_digits 10 None digits) ∧
  parseInt (String "-" digits) =
    from_option (fun v => to_double (inject_Z (- v))) NaN (parse_digits 10 None digits).
Proof.
  intros Hd.
  assert (d = 1 ∨ d = 2 ∨ d = 3 ∨ d = 4 ∨ d = 5 ∨ d = 6 ∨ d = 7 ∨ d = 8 ∨ d = 9)%N
    as Hcases by lia.
  unfold parseInt. generalize to_double. intros rounded.
  repeat (destruct Hcases as [-> | Hcases];
          [split; simpl; by destruct (parse_digits _ _ _)|]).
  subst. split; simpl; by destruct (parse_digits _ _ _).
Qed.

Lemma pretty_N_go_append (x : N) (s t : string) :
  pretty_N_go x s +:+ t = pretty_N_go x (s +:+ t).
Proof.
  revert s. induction (N.lt_wf_0 x) as [x _ IH]. intros s.
  destruct (decide (0 < x)%N) as [Hx|Hx].
  - rewrite (pretty_N_go_step x s), (pretty_N_go_step x (s +:+ t)) by done.
    by rewrite IH by (apply N.div_lt; lia).
  - assert (x = 0%N) as -> by lia. by rewrite !pretty_N_go_0.
Qed.

(** What [parseInt] reads from the decimal print of an integer, alone or
    followed by a fraction: the integer, as a double. *)
Lemma parseInt_pretty (z : Z) (t : string) :
  t = "" ∨ (∃ fraction, t = String "." fraction) ->
  parseInt (pretty z +:+ t) = to_double (inject_Z z) ∧
  (pretty z +:+ t =? "")%string = false.
Proof.
  intros Ht.
  assert (∀ acc, parse_digits 10 acc t = acc) as Hstop.
  { intros acc. by destruct Ht as [-> | [fraction ->]]. }
  assert (∀ p, pretty (N.pos p) +:+ t = pretty_N_go (N.pos p) t) as Hpos.
  { intros p. change (pretty (N.pos p)) with (pretty_N_go (N.pos p) "").
    by rewrite pretty_N_go_append. }
  assert (∀ p, parse_digits 10 None (pretty_N_go (N.pos p) t) = Some (Z.pos p))
    as Hdigits.
  { intros p. by rewrite parse_digits_pretty, Hstop. }
  destruct z as [|p|p].
  - by destruct Ht as [-> | [fraction ->]].
  - change (pretty (Z.pos p)) with (pretty (N.pos p)). rewrite Hpos.
    pose proof (Hdigits p) as Hp.
    destruct (pretty_N_go_head (N.pos p) ltac:(done) t) as (d & rest & Hd & Heq).
    rewrite Heq in Hp |- *. split; [|done].
    rewrite (proj1 (parseInt_decimal d rest Hd)). by rewrite Hp.
  - change (pretty (Z.neg p) +:+ t) with (String "-" (pretty (N.pos p) +:+ t)).
    rewrite Hpos. pose proof (Hdigits p) as Hp.
    destruct (pretty_N_go_head (N.pos p) ltac:(done) t) as (d & rest & Hd & Heq).
    rewrite Heq in Hp |- *. split; [|done].
    rewrite (proj2 (parseInt_decimal d rest Hd)). by rewrite Hp.
Qed.

Lemma append_empty (s : string) : s +:+ "" = s.
Proof.
  induction s as [|ch s IH]; [done|].
  change (String ch (s +:+ "") = String ch s). by rewrite IH.
Qed.

(** X7: [parseInt] reads back every integer up to [2^53] in absolute
    value as JavaScript prints it, so the handler of the budget field
    stores such an integer as it is, of either sign and beyond the range
    the field declares.  The result is a double: a larger integer is
    rounded to the nearest one ([2^53 + 1] becomes [2^53]), and a numeral
    of 401 digits gives [Infinity]. *)
Theorem parseInt_reads_back_safe_integers (c : Closure) :
  (∀ z : Z, Z.abs z ≤ 2 ^ 53 ->
     parseInt (pretty z) = of_Z z ∧
     maxMinutes (onChange_maxMinutes (pretty z) c) = of_Z z) ∧
  parseInt "9007199254740993" = of_Z 9007199254740992 ∧
  parseInt (pretty (10 ^ 400)) = Infinity false.
Proof.
  split_and!.
  - intros z Hz.
    destruct (parseInt_pretty z "" ltac:(by left)) as [Hparse Hne].
    rewrite append_empty in Hparse, Hne. rewrite to_double_exact in Hparse by done.
    split; [done|]. simpl. by rewrite Hne.
  - vm_compute. reflexivity.
  - vm_compute. reflexivity.
Qed.

Lemma parseInt_reads_back_safe_integers_witness :
  Z.abs 500 ≤ 2 ^ 53 ∧
  maxMinutes (onChange_maxMinutes (pretty 500) first_render) = of_Z 500.
Proof.
  assert (Z.abs 500 ≤ 2 ^ 53) as Hz by (vm_compute; discriminate).
  split; [exact Hz|].
  exact (proj2 (proj1 (parseInt_reads_back_safe_integers first_render) 500 Hz)).
Defined.

(** ** The cap *)

(** X8: whatever the budget field holds, the chunks processed are the
    first ones of the list, in its order: none when the budget is not a
    number, and [min(total, ceil(maxMinutes))] of them when it is not
    negative. *)
Theorem cap_keeps_the_first_names (c : Closure) (files : list string) :
  cap_by_maxMinutes c files `prefix_of` files ∧
  (maxMinutes c = NaN -> cap_by_maxMinutes c files = []) ∧
  (∀ q, maxMinutes c = Num q -> (0 <= q)%Q ->
     length (cap_by_maxMinutes c files) =
       Z.to_nat (Z.min (Z.of_nat (length files)) (Qceiling q))).
Proof.
  split_and!.
  - unfold cap_by_maxMinutes, slice0.
    eexists. symmetry. apply take_drop.
  - intros Hnan. unfold cap_by_maxMinutes, maxSegments, slice0.
    rewrite Hnan. simpl. by rewrite Z.min_l by lia.
  - intros q Hq Hpos.
    destruct (cap_by_maxMinutes_in_budget c files q Hq Hpos) as [-> Hrange].
    unfold spec_usedCount in *. rewrite length_take. lia.
Qed.

Lemma cap_keeps_the_first_names_witness :
  length (cap_by_maxMinutes (later_click three_minutes (Num (5 # 2))) (segment_files 10)) =
    3%nat.
Proof.
  exact (proj2 (proj2 (cap_keeps_the_first_names
                         (later_click three_minutes (Num (5 # 2))) (segment_files 10)))
           (5 # 2) eq_refl ltac:(unfold Qle; simpl; lia)).
Defined.

(** ** One chunk through the three services *)

Section Chunk.
Context `{Env}.

Lemma do_fetch_Ok req r res r' :
  do_fetch req r = (Ok res, r') ->
  fetchLog r' = fetchLog r ++ [(req, Resolved res)] ∧ engine r' = engine r.
Proof.
  unfold do_fetch. destruct (fetch req (world r)) as [[|res'] w]; [done|].
  by intros [= <- <-].
Qed.

Lemma transcribeWithOpenAI_value key audio r text r' :
  transcribeWithOpenAI key audio r = (Ok text, r') ->
  ∃ res data,
    fetchLog r' = fetchLog r ++ [(Transcriptions key audio, Resolved res)] ∧
    engine r' = engine r ∧
    res_ok res = true ∧ json res = Some data ∧ text = js_get data "text".
Proof.
  unfold transcribeWithOpenAI, res_json, member.
  intros (res & r1 & [Hlog Hengine]%do_fetch_Ok & Hrest)%bind_Ok.
  destruct (res_ok res) eqn:Hok; [|done]. simpl in Hrest.
  destruct (json res) as [data|] eqn:Hjson; [|done].
  rewrite (bind_eq_Ok _ _ r1 data r1) in Hrest by done.
  destruct (nullish data); [done|]. injection Hrest as <- <-.
  by exists res, data.
Qed.

Lemma translateWithOpenAI_value key text lang r translated r' :
  translateWithOpenAI key text lang r = (Ok translated, r') ->
  ∃ res data,
    fetchLog r' =
      fetchLog r ++ [(ChatCompletions key (system_prompt lang) text, Resolved res)] ∧
    engine r' = engine r ∧
    res_ok res = true ∧ json res = Some data ∧
    translated = js_or (content_field (js_get data "choices")) (JStr "").
Proof.
  unfold translateWithOpenAI, res_json, member.
  intros (res & r1 & [Hlog Hengine]%do_fetch_Ok & Hrest)%bind_Ok.
  destruct (res_ok res) eqn:Hok; [|done]. simpl in Hrest.
  destruct (json res) as [data|] eqn:Hjson; [|done].
  rewrite (bind_eq_Ok _ _ r1 data r1) in Hrest by done.
  destruct (nullish data); [done|].
  rewrite (bind_eq_Ok _ _ r1 (js_get data "choices") r1) in Hrest by done.
  injection Hrest as <- <-.
  by exists res, data.
Qed.

Lemma ttsWithOpenAI_value key text v r wav r' :
  ttsWithOpenAI key text v r = (Ok wav, r') ->
  ∃ res,
    fetchLog r' = fetchLog r ++ [(Speech key v text, Resolved res)] ∧
    engine r' = engine r ∧
    res_ok res = true ∧ wav = body res.
Proof.
  unfold ttsWithOpenAI.
  intros (res & r1 & [Hlog Hengine]%do_fetch_Ok & Hrest)%bind_Ok.
  destruct (res_ok res) eqn:Hok; [|done]. injection Hrest as <- <-.
  by exists res.
Qed.

(** X9: a chunk that went through was read from the engine's files, sent
    to the transcription service, the [text] of that answer to the
    translation service, and the content of that answer (or the empty
    string) to the speech service; the three answers were ok, nothing
    else was sent, and the body of the last one is stored under the
    chunk's [tts_] name, the other files being as they were. *)
Theorem chunk_goes_through_the_three_services (c : Closure) (n i : nat)
    (segName outName : string) (r r' : Run) :
  process_segment c n i segName r = (Ok outName, r') ->
  ∃ audio res1 data1 res2 data2 res3,
    files_of r !! segName = Some audio ∧
    new_fetches r r' =
      [(Transcriptions (apiKey c) audio, Resolved res1);
       (ChatCompletions (apiKey c) (system_prompt (targetLang c)) (js_get data1 "text"),
        Resolved res2);
       (Speech (apiKey c) (voice c)
          (js_or (content_field (js_get data2 "choices")) (JStr "")),
        Resolved res3)] ∧
    json res1 = Some data1 ∧ json res2 = Some data2 ∧
    res_ok res1 = true ∧ res_ok res2 = true ∧ res_ok res3 = true ∧
    outName = tts_name segName ∧
    files_of r' = <[outName := body res3]> (files_of r).
Proof.
  unfold process_segment.
  intros ([] & r1 & [= <-] & ([] & r2 & [= <-] & (segData & r3 & Hread &
          (transcript & r4 & Htranscribe & (translated & r5 & Htranslate &
          (ttsWav & r6 & Htts & ([] & r7 & [= <-] & ([] & r8 & Hwrite & [= <- <-])
          %bind_Ok)%bind_Ok)%bind_Ok)%bind_Ok)%bind_Ok)%bind_Ok)%bind_Ok)%bind_Ok.
  unfold readFile in Hread.
  apply call_Ok in Hread as (files & Hc & Hr & Hdata & ->). simpl in Hr.
  destruct (files !! segName) as [audio|] eqn:Haudio; [|done].
  simpl in Hdata. injection Hdata as <-. simpl in *.
  set (r3 := set_ffmpegRef _ _) in *.
  assert (ffmpegRef r3 = Some {| loaded := true; fs := files |}) as Hr3 by done.
  apply transcribeWithOpenAI_value in Htranscribe
    as (res1 & data1 & Hlog4 & [= He4 _] & Hok1 & Hjson1 & ->).
  apply translateWithOpenAI_value in Htranslate
    as (res2 & data2 & Hlog5 & [= He5 _] & Hok2 & Hjson2 & ->).
  apply ttsWithOpenAI_value in Htts as (res3 & Hlog6 & [= He6 _] & Hok3 & ->).
  assert (ffmpegRef r6 = Some {| loaded := true; fs := files |}) as Hr6 by congruence.
  unfold deleteFile, writeFile in Hwrite.
  rewrite (call_ready _ _ _ r6 files Hc Hr6) in Hwrite. simpl in Hwrite.
  erewrite call_ready in Hwrite by done. injection Hwrite as <-.
  exists audio, res1, data1, res2, data2, res3.
  unfold files_of, new_fetches. rewrite Hr. simpl.
  split_and!; try done.
  - rewrite Hlog6, Hlog5, Hlog4, <- !(assoc_L (++)).
    by rewrite drop_app_length.
  - destruct (files !! tts_name segName) eqn:Hold; simpl.
    + apply insert_delete_eq.
    + done.
Qed.

End Chunk.

Lemma chunk_goes_through_the_three_services_witness :
  let c := later_click three_minutes (of_Z 45) in
  let run := @process_segment stand_in c 3 0 "seg_000.wav" after_long_video in
  run.1 = Ok "tts_seg_000.wav" ∧
  ∃ res3, @files_of stand_in run.2 =
          <["tts_seg_000.wav" := body res3]> (@files_of stand_in after_long_video).
Proof.
  intros c run.
  assert (run.1 = Ok "tts_seg_000.wav") as Hok by (vm_compute; reflexivity).
  split; [exact Hok|].
  assert (run = (Ok "tts_seg_000.wav", run.2)) as Hrun
    by (rewrite <- Hok; apply surjective_pairing).
  destruct (@chunk_goes_through_the_three_services stand_in c 3 0 "seg_000.wav" _ _ _ Hrun)
    as (_ & _ & _ & _ & _ & res3 & _ & _ & _ & _ & _ & _ & _ & _ & Hfiles).
  by exists res3.
Defined.

(** ** The budget and the number of requests *)

Section Requests.
Context `{Env}.

Lemma sends_at_most_bind {A B} (a b n : nat) (m : M A) (k : A -> M B) :
  sends_at_most a m -> (∀ x, sends_at_most b (k x)) -> (a + b ≤ n)%nat ->
  sends_at_most n (bind m k).
Proof.
  intros Hm Hk Hn r. unfold bind.
  destruct (Hm r) as (es1 & Hlog1 & Hlen1).
  destruct (m r) as [[x|e] r1]; simpl in *.
  - destruct (Hk x r1) as (es2 & Hlog2 & Hlen2).
    exists (es1 ++ es2). rewrite Hlog2, Hlog1, (assoc_L (++)), length_app.
    split; [done | lia].
  - exists es1. split; [done | lia].
Qed.

Lemma sends_nothing {A} (n : nat) (m : M A) : keeps fetchLog m -> sends_at_most n m.
Proof.
  intros Hm r. exists []. rewrite app_nil_r. split; [apply Hm | simpl; lia].
Qed.

Lemma sends_one {A} (m : M A) (req : Request) :
  (∀ r, ∃ outcome, fetchLog (m r).2 = fetchLog r ++ [(req, outcome)]) ->
  sends_at_most 1 m.
Proof. intros Hm r. destruct (Hm r) as (outcome & Hlog). by eexists. Qed.

Lemma process_segment_sends_three c n i segName :
  sends_at_most 3 (process_segment c n i segName).
Proof.
  unfold process_segment.
  do 2 (apply (sends_at_most_bind 0 3); [apply sends_nothing; frame | intros ? | lia]).
  apply (sends_at_most_bind 0 3); [apply sends_nothing; frame | intros segData | lia].
  apply (sends_at_most_bind 1 2); [|intros transcript|lia].
  { eapply sends_one. intros r.
    destruct (transcribeWithOpenAI_checks (apiKey c) segData r) as (outcome & Hlog & _).
    by exists outcome. }
  apply (sends_at_most_bind 1 1); [|intros translated|lia].
  { eapply sends_one. intros r.
    destruct (translateWithOpenAI_checks (apiKey c) transcript (targetLang c) r)
      as (outcome & Hlog & _).
    by exists outcome. }
  apply (sends_at_most_bind 1 0); [|intros ttsWav|lia].
  { eapply sends_one. intros r.
    destruct (ttsWithOpenAI_checks (apiKey c) translated (voice c) r)
      as (outcome & Hlog & _).
    by exists outcome. }
  apply sends_nothing. frame.
Qed.

Lemma process_segments_sends c n segs :
  ∀ i dubbed, sends_at_most (3 * length segs) (process_segments c n i segs dubbed).
Proof.
  induction segs as [|seg rest IH]; intros i dubbed; simpl.
  - apply sends_nothing. frame.
  - apply (sends_at_most_bind 3 (3 * length rest));
      [apply process_segment_sends_three | intros ?; apply IH | lia].
Qed.

Lemma handleStart_sends c (n : nat) :
  (∀ files, (length (cap_by_maxMinutes c files) ≤ n)%nat) ->
  sends_at_most (3 * n) (handleStart c).
Proof.
  intros Hcap.
  pose proof ensureFFmpeg_keeps_fetchLog.
  unfold handleStart, start_to_segment, reset_and_extract, segment, list_segments,
    dub_and_publish, concat_tts, mux.
  apply (sends_at_most_bind 0 (3 * n));
    [apply sends_nothing; frame | intros inputName | lia].
  apply (sends_at_most_bind 0 (3 * n));
    [apply sends_nothing; frame | intros files | lia].
  apply (sends_at_most_bind 0 (3 * n)); [apply sends_nothing; frame | intros ? | lia].
  apply (sends_at_most_bind (3 * n) 0); [|intros ?; apply sends_nothing; frame|lia].
  intros r.
  destruct (process_segments_sends c (length (cap_by_maxMinutes c files))
              (cap_by_maxMinutes c files) 0%nat [] r) as (entries & Hlog & Hlen).
  exists entries. split; [done|]. specialize (Hcap files). lia.
Qed.

(** X10: the budget bounds what a run sends: with a budget that is not
    negative, one run sends at most three requests for each minute of the
    budget (rounded up), however many segments the engine produced and
    whether or not the run goes through. *)
Theorem budget_bounds_the_requests (c : Closure) (r : Run) (q : Q) :
  maxMinutes c = Num q ->
  (0 <= q)%Q ->
  (length (new_fetches r (handleStart c r).2) ≤ 3 * Z.to_nat (Qceiling q))%nat.
Proof.
  intros Hq Hpos.
  destruct (handleStart_sends c (Z.to_nat (Qceiling q))) with (r := r)
    as (entries & Hlog & Hlen).
  { intros files.
    destruct (cap_by_maxMinutes_in_budget c files q Hq Hpos) as [-> Hrange].
    unfold spec_usedCount in *. rewrite length_take. lia. }
  unfold new_fetches. by rewrite Hlog, drop_app_length.
Qed.

End Requests.

Lemma budget_bounds_the_requests_witness :
  let c := later_click three_minutes (Num (3 # 2)) in
  (length (@new_fetches stand_in (engine_ready [])
             (@handleStart stand_in c (engine_ready [])).2) ≤ 6)%nat.
Proof.
  exact (@budget_bounds_the_requests stand_in
           (later_click three_minutes (Num (3 # 2))) (engine_ready []) (3 # 2)
           eq_refl ltac:(unfold Qle; simpl; lia)).
Defined.

(** ** The engine commands of a run *)

Section Commands.
Context `{Env}.

Lemma issues_bind {A B} (P : A -> Prop) (cmds1 cmds2 : list (list string))
    (m : M A) (k : A -> M B) :
  issues cmds1 m ->
  (∀ r a r', m r = (Ok a, r') -> P a) ->
  (∀ a, P a -> issues cmds2 (k a)) ->
  issues (cmds1 ++ cmds2) (bind m k).
Proof.
  intros Hm HP Hk r. unfold bind.
  destruct (Hm r) as (added1 & Hlog1 & Hpre1 & Hall1).
  specialize (HP r).
  destruct (m r) as [[a|e] r1]; simpl in *.
  - destruct (Hk a (HP _ _ eq_refl) r1) as (added2 & Hlog2 & Hpre2 & Hall2).
    exists (added1 ++ added2).
    rewrite Hlog2, Hlog1, (assoc_L (++)), fmap_app, (Hall1 a eq_refl).
    split_and!; [done | by apply prefix_app |].
    intros b Hb. by rewrite (Hall2 b Hb).
  - exists added1. split_and!; [done | by apply prefix_app_r | done].
Qed.

Lemma issues_nothing {A} (m : M A) : keeps execLog m -> issues [] m.
Proof. intros Hm r. exists []. rewrite app_nil_r. by split_and!; [apply Hm|..]. Qed.

Lemma issues_exec c args : issues [args] (exec c args).
Proof.
  intros r. unfold exec, bind.
  pose proof (call_keeps_execLog c "exec" (fun fs => (Ok fs, engine_exec args fs)) r)
    as Hcall.
  destruct (call c "exec" _ r) as [[files|e] r1]; simpl in *.
  - exists [(args, files)]. by rewrite Hcall.
  - exists []. rewrite app_nil_r. split_and!; [done | apply prefix_nil | done].
Qed.

Lemma process_segment_keeps_execLog c n i segName :
  keeps execLog (process_segment c n i segName).
Proof. unfold process_segment. frame. Qed.

Lemma process_segments_keeps_execLog c n segs :
  ∀ i dubbed, keeps execLog (process_segments c n i segs dubbed).
Proof.
  induction segs as [|seg rest IH]; intros i dubbed; simpl.
  - frame.
  - apply keeps_bind; [apply process_segment_keeps_execLog | intros ?; apply IH].
Qed.

Lemma reset_and_extract_returns c video r inputName r' :
  reset_and_extract c video r = (Ok inputName, r') -> inputName = input_name video.
Proof.
  unfold reset_and_extract.
  intros (? & ? & _ & (? & ? & _ & (? & ? & _ & (? & ? & _ & (? & ? & _ &
         (? & ? & _ & [= <- _])%bind_Ok)%bind_Ok)%bind_Ok)%bind_Ok)%bind_Ok)%bind_Ok.
  done.
Qed.

Lemma start_to_segment_returns c r inputName r' :
  start_to_segment c r = (Ok inputName, r') ->
  ∃ video, videoFile c = Some video ∧ inputName = input_name video.
Proof.
  unfold start_to_segment.
  intros (? & ? & _ & (? & ? & _ & (video & ? & Hvideo & (? & ? & _ &
         (n & ? & Hn%reset_and_extract_returns & (? & ? & _ & [= <- _])
         %bind_Ok)%bind_Ok)%bind_Ok)%bind_Ok)%bind_Ok)%bind_Ok.
  exists video. split; [|done].
  destruct (videoFile c); [by injection Hvideo as -> _ | done].
Qed.

Ltac issue_nothing :=
  apply (issues_bind (fun _ => True) []);
    [apply issues_nothing; frame | done | intros ? _].

Lemma reset_and_extract_issues c video :
  issues [extract_args (input_name video)] (reset_and_extract c video).
Proof.
  unfold reset_and_extract. do 5 issue_nothing.
  apply (issues_bind (fun _ => True) [extract_args (input_name video)] []);
    [apply issues_exec | done | intros ? _].
  apply issues_nothing. frame.
Qed.

Lemma segment_issues c : issues [segment_args] (segment c).
Proof. unfold segment. do 3 issue_nothing. apply issues_exec. Qed.

Lemma start_to_segment_issues c :
  issues (take 2 (commands c)) (start_to_segment c).
Proof.
  pose proof ensureFFmpeg_keeps_execLog.
  unfold start_to_segment, commands. do 2 issue_nothing.
  destruct (videoFile c) as [video|]; last first.
  { apply (issues_bind (fun _ => False) [] []);
      [apply issues_nothing; frame | done | by intros ? ?]. }
  apply (issues_bind (fun f => f = video) []);
    [apply issues_nothing; frame | by intros ??? [= <- _] | intros ? ->].
  issue_nothing.
  apply (issues_bind (fun _ => True) [extract_args (input_name video)] [segment_args]);
    [apply reset_and_extract_issues | done | intros ? _].
  apply (issues_bind (fun _ => True) [segment_args] []);
    [apply segment_issues | done | intros ? _].
  apply issues_nothing. frame.
Qed.

Lemma dub_and_publish_issues c inputName used :
  issues [concat_args; mux_args inputName] (dub_and_publish c inputName used).
Proof.
  unfold dub_and_publish. issue_nothing.
  apply (issues_bind (fun _ => True) []);
    [apply issues_nothing, process_segments_keeps_execLog | done | intros ? _].
  apply (issues_bind (fun _ => True) [concat_args] [mux_args inputName]);
    [|done | intros ? _].
  { unfold concat_tts. do 3 issue_nothing. apply issues_exec. }
  unfold mux. do 3 issue_nothing.
  apply (issues_bind (fun _ => True) [mux_args inputName] []);
    [apply issues_exec | done | intros ? _].
  apply issues_nothing. frame.
Qed.

(** X11: the engine commands of a run are the four of [commands], in
    that order: extract, segment, concat, mux.  A run that returns has
    issued each of them once, a run that throws the first ones only, and
    no run issues any other command. *)
Theorem commands_are_issued_in_order (c : Closure) (r : Run) :
  (new_execs r (handleStart c r).2).*1 `prefix_of` commands c ∧
  ((handleStart c r).1 = Ok tt -> (new_execs r (handleStart c r).2).*1 = commands c).
Proof.
  assert (issues (commands c) (handleStart c)) as Hissues.
  { unfold handleStart.
    assert (commands c = take 2 (commands c) ++ drop 2 (commands c)) as ->
      by (by rewrite take_drop).
    apply (issues_bind (fun n => ∃ video, videoFile c = Some video ∧ n = input_name video));
      [apply start_to_segment_issues | apply start_to_segment_returns |].
    intros inputName (video & Hvideo & ->). unfold commands. rewrite Hvideo. simpl.
    apply (issues_bind (fun _ => True) []);
      [apply issues_nothing; unfold list_segments; frame | done | intros ? _].
    apply dub_and_publish_issues. }
  destruct (Hissues r) as (added & Hlog & Hpre & Hall).
  unfold new_execs. rewrite Hlog, drop_app_length. split; [done | apply Hall].
Qed.

End Commands.

(** ** What the engine is given *)

Section Engine.
Context `{Env}.

Lemma try_deleteFile_back c path r r' files' :
  try_ (deleteFile c path) r = (Ok tt, r') ->
  ffmpeg c = RefCurrent ->
  ffmpegRef r' = Some {| loaded := true; fs := files' |} ->
  ∃ files, ffmpegRef r = Some {| loaded := true; fs := files |} ∧
           files' = delete path files ∧
           r' = set_ffmpegRef (Some {| loaded := true; fs := delete path files |}) r.
Proof.
  intros Htry Hc Hr'.
  destruct (ffmpegRef r) as [[[] files]|] eqn:Hr.
  - rewrite (try_deleteFile_ready c path r files Hc Hr) in Htry.
    injection Htry as <-. simpl in Hr'. injection Hr' as <-. by exists files.
  - unfold try_, deleteFile, call in Htry. rewrite Hc, Hr in Htry. simpl in Htry.
    injection Htry as <-. congruence.
  - unfold try_, deleteFile, call in Htry. rewrite Hc, Hr in Htry. simpl in Htry.
    injection Htry as <-. congruence.
Qed.

Lemma mux_Ok c inputName r r' :
  mux c inputName r = (Ok tt, r') ->
  ∃ files outData,
    ffmpegRef r = Some {| loaded := true; fs := files |} ∧
    execLog r' = execLog r ++ [(mux_args inputName, delete "output.webm" files)] ∧
    engine_exec (mux_args inputName) (delete "output.webm" files) !! "output.webm" =
      Some outData ∧
    downloadUrl r' = Some outData ∧
    files_of r' = engine_exec (mux_args inputName) (delete "output.webm" files).
Proof.
  unfold mux.
  intros ([] & r1 & [= <-] & ([] & r2 & [= <-] & ([] & r3 & Htry &
         ([] & r4 & Hexec & (outData & r5 & Hread & ([] & r6 & [= <-] &
         ([] & r7 & [= <-] & ([] & r8 & [= <-] & [= <-])
         %bind_Ok)%bind_Ok)%bind_Ok)%bind_Ok)%bind_Ok)%bind_Ok)%bind_Ok)%bind_Ok.
  apply exec_Ok in Hexec as (files3 & Hc & Hr3 & ->).
  destruct (try_deleteFile_back _ _ _ _ _ Htry Hc Hr3) as (files & Hr & -> & ->).
  unfold readFile in Hread.
  apply call_Ok in Hread as (files4 & _ & Hr4 & Hdata & ->).
  simpl in Hr4. injection Hr4 as <-.
  fold (mux_args inputName) in *.
  destruct (engine_exec (mux_args inputName) (delete "output.webm" files) !! "output.webm")
    as [data|] eqn:Hout; [|done].
  simpl in Hdata. injection Hdata as <-.
  exists files, data. by split_and!.
Qed.

Lemma concat_tts_issues c dubbed : issues [concat_args] (concat_tts c dubbed).
Proof.
  unfold concat_tts.
  do 3 (apply (issues_bind (fun _ => True) []);
        [apply issues_nothing; frame | done | intros ? _]).
  apply issues_exec.
Qed.

(** X12: the artifact a run publishes is the [output.webm] its own mux
    command wrote: an output left by an earlier run is deleted before
    the command runs, the command is the last one of the run, and the
    link is made from the file as the engine has it when the run
    returns. *)
Theorem published_artifact_is_this_runs_output (c : Closure) (r : Run) :
  (handleStart c r).1 = Ok tt ->
  ∃ video files_in,
    videoFile c = Some video ∧
    last (new_execs r (handleStart c r).2) = Some (mux_args (input_name video), files_in) ∧
    files_in !! "output.webm" = None ∧
    files_of (handleStart c r).2 = engine_exec (mux_args (input_name video)) files_in ∧
    is_Some (downloadUrl (handleStart c r).2) ∧
    downloadUrl (handleStart c r).2 = files_of (handleStart c r).2 !! "output.webm".
Proof.
  destruct (handleStart c r) as [res r'] eqn:Hrun. simpl. intros ->.
  unfold handleStart in Hrun.
  apply bind_Ok in Hrun as (inputName & r1 & Hstart & Hrun).
  apply bind_Ok in Hrun as (files & r2 & Hlist & Hrun).
  unfold dub_and_publish in Hrun.
  apply bind_Ok in Hrun as ([] & r3 & [= <-] & Hrun).
  apply bind_Ok in Hrun as (dubbed & r4 & Hloop & Hrun).
  apply bind_Ok in Hrun as ([] & r5 & Hconcat & Hmux).
  destruct (start_to_segment_returns _ _ _ _ Hstart) as (video & Hvideo & ->).
  destruct (start_to_segment_adds_execs c r) as (added1 & Hlog1 & _).
  rewrite Hstart in Hlog1. simpl in Hlog1.
  assert (execLog r2 = execLog r1) as Hlog2.
  { eapply keeps_step; [|exact Hlist]. unfold list_segments. frame. }
  pose proof (keeps_step _ _ _ _ _ (process_segments_keeps_execLog _ _ _ _ _) Hloop)
    as Hlog4. simpl in Hlog4.
  destruct (concat_tts_issues c dubbed r4) as (added5 & Hlog5 & _).
  rewrite Hconcat in Hlog5. simpl in Hlog5.
  apply mux_Ok in Hmux as (files5 & outData & Hr5 & Hlog & Hout & Hurl & Hfiles).
  exists video, (delete "output.webm" files5).
  split_and!; try done.
  - unfold new_execs.
    rewrite Hlog, Hlog5, Hlog4, Hlog2, Hlog1, <- !(assoc_L (++)), drop_app_length.
    by rewrite !(assoc_L (++)), last_snoc.
  - apply lookup_delete_eq.
  - by rewrite Hurl, Hfiles.
Qed.

(** X13: when the first stages return, the extraction command was given
    the files the engine held at the start, less [input.mp4] and
    [audio.wav], with the bytes of the upload stored under the name the
    command reads; the segment command was given the outcome of the
    extraction, less [segments.txt], and its outcome is what the listing
    then sees. *)
Theorem extraction_reads_the_upload (c : Closure) (r r1 : Run) (inputName : string) :
  start_to_segment c r = (Ok inputName, r1) ->
  ∃ video,
    let staged :=
      <[inputName := bytes video]> (delete "audio.wav" (delete "input.mp4" (files_of r))) in
    let extracted := delete "segments.txt" (engine_exec (extract_args inputName) staged) in
    videoFile c = Some video ∧
    inputName = input_name video ∧
    new_execs r r1 = [(extract_args inputName, staged); (segment_args, extracted)] ∧
    staged !! inputName = Some (bytes video) ∧
    staged !! "audio.wav" = None ∧
    files_of r1 = engine_exec segment_args extracted.
Proof.
  intros Hstart.
  destruct (start_to_segment_returns _ _ _ _ Hstart) as (video & Hvideo & ->).
  exists video. simpl.
  unfold start_to_segment in Hstart.
  apply bind_Ok in Hstart as ([] & r01 & [= <-] & Hstart).
  apply bind_Ok in Hstart as ([] & r02 & Hkey & Hstart).
  destruct (String.eqb (apiKey c) ""); [done|]. injection Hkey as <-.
  rewrite Hvideo in Hstart.
  apply bind_Ok in Hstart as (video' & r03 & [= <- <-] & Hstart).
  apply bind_Ok in Hstart as ([] & r0 & Hensure & Hstart).
  pose proof (keeps_step _ _ _ _ _ ensureFFmpeg_keeps_files Hensure) as Hfiles0.
  pose proof (keeps_step _ _ _ _ _ ensureFFmpeg_keeps_execLog Hensure) as Hlog0.
  change (files_of r0 = files_of r) in Hfiles0. change (execLog r0 = execLog r) in Hlog0.
  apply bind_Ok in Hstart as (n & r4 & Hextract & Hstart).
  apply bind_Ok in Hstart as ([] & r5 & Hsegment & [= -> <-]).
  unfold reset_and_extract in Hextract. fold (input_name video) in Hextract.
  fold (extract_args (input_name video)) in Hextract.
  apply bind_Ok in Hextract as ([] & ra & Hdel1 & Hextract).
  apply bind_Ok in Hextract as ([] & rb & Hdel2 & Hextract).
  apply bind_Ok in Hextract as ([] & rc & [= <-] & Hextract).
  apply bind_Ok in Hextract as ([] & rd & [= <-] & Hextract).
  apply bind_Ok in Hextract as ([] & re & Hwrite & Hextract).
  apply bind_Ok in Hextract as ([] & rf & Hexec & [= <-]).
  unfold writeFile in Hwrite.
  apply call_Ok in Hwrite as (filesb & Hc & Hrb & _ & ->). simpl in Hrb.
  destruct (try_deleteFile_back _ _ _ _ _ Hdel2 Hc Hrb) as (filesa & Hra & -> & ->).
  destruct (try_deleteFile_back _ _ _ _ _ Hdel1 Hc Hra) as (files0 & Hr0 & -> & ->).
  apply exec_Ok in Hexec as (staged & _ & Hstaged & ->).
  simpl in Hstaged. injection Hstaged as <-.
  unfold segment in Hsegment. fold segment_args in Hsegment.
  apply bind_Ok in Hsegment as ([] & rg & [= <-] & Hsegment).
  apply bind_Ok in Hsegment as ([] & rh & [= <-] & Hsegment).
  apply bind_Ok in Hsegment as ([] & ri & Hdel3 & Hexec).
  apply exec_Ok in Hexec as (filesi & _ & Hri & ->).
  destruct (try_deleteFile_back _ _ _ _ _ Hdel3 Hc Hri) as (filesh & Hrh & -> & ->).
  simpl in Hrh. injection Hrh as <-.
  assert (files_of r = files0) as ->.
  { rewrite <- Hfiles0. unfold files_of. by rewrite Hr0. }
  split_and!; try done.
  - unfold new_execs. simpl. rewrite Hlog0, <- (assoc_L (++)). by rewrite drop_app_length.
  - apply lookup_insert_eq.
  - rewrite lookup_insert_ne by (unfold input_name; by destruct (endsWith _ _)).
    apply lookup_delete_eq.
Qed.

End Engine.

Lemma published_artifact_is_this_runs_output_witness :
  (@handleStart stand_in (later_click three_minutes (of_Z 45)) (engine_ready [])).1 = Ok tt ∧
  ∃ files_in,
    last (@new_execs stand_in (engine_ready [])
            (@handleStart stand_in (later_click three_minutes (of_Z 45))
               (engine_ready [])).2) =
      Some (mux_args (input_name three_minutes), files_in) ∧
    files_in !! "output.webm" = None.
Proof.
  assert ((@handleStart stand_in (later_click three_minutes (of_Z 45))
             (engine_ready [])).1 = Ok tt) as Hok by (vm_compute; reflexivity).
  split; [exact Hok|].
  destruct (@published_artifact_is_this_runs_output stand_in
              (later_click three_minutes (of_Z 45)) (engine_ready []) Hok)
    as (video & files_in & Hvideo & Hlast & Hnone & _).
  injection Hvideo as <-.
  exists files_in. split; [exact Hlast | exact Hnone].
Defined.

Lemma extraction_reads_the_upload_witness :
  (@start_to_segment stand_in (later_click three_minutes (of_Z 45)) (engine_ready [])).1 =
    Ok "input.mp4" ∧
  ∃ video staged,
    staged !! "input.mp4" = Some (bytes video) ∧
    @new_execs stand_in (engine_ready [])
       (@start_to_segment stand_in (later_click three_minutes (of_Z 45))
          (engine_ready [])).2 =
      [(extract_args "input.mp4", staged);
       (segment_args,
        delete "segments.txt" (stand_in_exec (extract_args "input.mp4") staged))].
Proof.
  assert ((@start_to_segment stand_in (later_click three_minutes (of_Z 45))
             (engine_ready [])).1 = Ok "input.mp4") as Hok by (vm_compute; reflexivity).
  split; [exact Hok|].
  destruct (@extraction_reads_the_upload stand_in
              (later_click three_minutes (of_Z 45)) (engine_ready [])
              (@start_to_segment stand_in (later_click three_minutes (of_Z 45))
                 (engine_ready [])).2 "input.mp4")
    as (video & _ & _ & Hexecs & Hupload & _).
  { rewrite <- Hok. apply surjective_pairing. }
  exists video. eexists. split; [exact Hupload | exact Hexecs].
Defined.

(** ** The button after a run *)

Section Button.
Context `{Env}.

Lemma enters_bind_l {A B} s (m : M A) (k : A -> M B) r :
  enters s m r -> (∀ a, adds_only statusLog (fun _ => True) (k a)) ->
  enters s (bind m k) r.
Proof.
  intros (added & Hlog) Hk. unfold enters, bind.
  destruct (m r) as [[a|e] r1]; simpl in *.
  - destruct (Hk a r1) as (added2 & Hlog2 & _).
    exists (added ++ added2). by rewrite Hlog2, Hlog, <- (assoc_L (++)).
  - by exists added.
Qed.

Lemma enters_bind_r {A B} s (m : M A) (k : A -> M B) r a r1 :
  m r = (Ok a, r1) -> statusLog r1 = statusLog r -> enters s (k a) r1 ->
  enters s (bind m k) r.
Proof.
  intros Hm Hlog (added & Hk). unfold enters.
  rewrite (bind_eq_Ok _ _ _ _ _ Hm), <- Hlog. by exists added.
Qed.

Lemma enters_setStatus s r : enters s (setStatus s) r.
Proof. by exists []. Qed.

Lemma adds_any_status_setStatus s : adds_only statusLog (fun _ => True) (setStatus s).
Proof. by apply adds_only_setStatus. Qed.

Lemma adds_any_status_keeps {A} (m : M A) :
  keeps ui m -> adds_only statusLog (fun _ => True) m.
Proof. intros Hm. by apply keeps_adds_only, keeps_ui_statusLog. Qed.

Ltac grows :=
  repeat match goal with
  | |- adds_only _ _ (bind _ _) => apply adds_only_bind; [|intros ?]
  | |- adds_only statusLog _ (setStatus _) => apply adds_any_status_setStatus
  | |- adds_only statusLog _ (process_segments _ _ _ _ _) =>
      apply adds_any_status_keeps, process_segments_keeps_ui
  | |- adds_only statusLog _ (list_segments _) =>
      apply adds_any_status_keeps, list_segments_keeps_ui
  | |- adds_only _ _ _ => apply keeps_adds_only; frame
  end.

Lemma after_start_adds_any_status c inputName :
  adds_only statusLog (fun _ => True)
    (files <- list_segments c ;;;
     dub_and_publish c inputName (cap_by_maxMinutes c files)).
Proof. unfold dub_and_publish, concat_tts, mux. grows. Qed.

Lemma reset_and_extract_enters c video r :
  enters extracting (reset_and_extract c video) r.
Proof.
  unfold reset_and_extract.
  eapply enters_bind_r; [reflexivity | apply (keeps_ui_statusLog _ (deleteFile_keeps_ui _ _)) |].
  eapply enters_bind_r; [reflexivity | apply (keeps_ui_statusLog _ (deleteFile_keeps_ui _ _)) |].
  apply enters_bind_l; [apply enters_setStatus | intros _]. grows.
Qed.

Lemma segment_adds_any_status c : adds_only statusLog (fun _ => True) (segment c).
Proof. unfold segment. grows. Qed.

Lemma ensureFFmpeg_enters r : ffmpegRef r = None -> enters preparing ensureFFmpeg r.
Proof.
  intros Hr. unfold enters, ensureFFmpeg. rewrite Hr.
  apply (enters_bind_l preparing (setStatus preparing));
    [apply enters_setStatus | intros _]. grows.
Qed.

Lemma handleStart_enters c r video :
  String.eqb (apiKey c) "" = false ->
  videoFile c = Some video ->
  (∀ inst, ffmpegRef r = Some inst -> loaded inst = true) ->
  ∃ s, enters s (handleStart c) r.
Proof.
  intros Hkey Hvideo Hloaded.
  exists (match ffmpegRef r with Some _ => extracting | None => preparing end).
  unfold handleStart.
  apply enters_bind_l; [|apply after_start_adds_any_status].
  unfold start_to_segment. rewrite Hkey, Hvideo.
  eapply enters_bind_r; [reflexivity | reflexivity |].
  eapply enters_bind_r; [reflexivity | reflexivity |].
  eapply enters_bind_r; [reflexivity | reflexivity |].
  match goal with |- enters _ _ ?x => set (r0 := x) end.
  change (ffmpegRef r) with (ffmpegRef r0) in Hloaded |- *.
  assert (∀ n : string, adds_only statusLog (fun _ => True) (segment c ;;; ret n))
    as Hrest.
  { intros n. apply adds_only_bind; [apply segment_adds_any_status | intros _]. grows. }
  destruct (ffmpegRef r0) as [inst|] eqn:Hr0.
  - eapply (enters_bind_r _ _ _ r0 tt r0); [|done|].
    { unfold ensureFFmpeg. by rewrite Hr0, (Hloaded inst eq_refl). }
    apply enters_bind_l; [apply reset_and_extract_enters | exact Hrest].
  - apply enters_bind_l.
    + by apply ensureFFmpeg_enters.
    + intros _. apply adds_only_bind; [|exact Hrest].
      intros r1. destruct (reset_and_extract_enters c video r1) as (added1 & Hlog).
      exists (extracting :: added1). split; [done|]. by apply Forall_forall.
Qed.

Lemma start_to_segment_guards c r inputName r1 :
  start_to_segment c r = (Ok inputName, r1) ->
  String.eqb (apiKey c) "" = false ∧ is_Some (videoFile c).
Proof.
  unfold start_to_segment.
  intros (? & ? & _ & (? & ? & Hkey & (video & ? & Hvideo & _)%bind_Ok)%bind_Ok)%bind_Ok.
  split.
  - by destruct (String.eqb (apiKey c) "").
  - by destruct (videoFile c).
Qed.

(** X14: the button after a run.  A run that returns leaves the button
    enabled; a run that throws leaves it disabled, stuck on the status of
    the stage that failed, since nothing resets the status (the one
    exception being a run that found an instance it could not load). *)
Theorem only_a_complete_run_frees_the_button (c : Closure) (r : Run) :
  (∀ inst, ffmpegRef r = Some inst -> loaded inst = true) ->
  ((handleStart c r).1 = Ok tt -> start_disabled c (handleStart c r).2 = false) ∧
  (∀ e, (handleStart c r).1 = Throw e -> start_disabled c (handleStart c r).2 = true).
Proof.
  intros Hloaded. unfold start_disabled.
  pose proof (handleStart_ui c r) as Hui.
  split.
  - intros Hok.
    destruct (handleStart c r) as [[[]|e] r'] eqn:Hrun; [|done]. simpl.
    destruct Hui as (_ & -> & _).
    unfold handleStart in Hrun.
    apply bind_Ok in Hrun as (inputName & r1 & Hstart & _).
    apply start_to_segment_guards in Hstart as [-> [video ->]]. done.
  - intros e He.
    destruct (String.eqb (apiKey c) "") eqn:Hkey; [done|].
    destruct (videoFile c) as [video|] eqn:Hvideo; [|done]. simpl.
    destruct (handleStart_enters c r video Hkey Hvideo Hloaded) as (s & added & Hlog).
    destruct (handleStart c r) as [[[]|e'] r'] eqn:Hrun; [done|]. simpl in *.
    destruct Hui as (k & Hk & Hlog' & Hstatus & _).
    rewrite Hlog' in Hlog. apply (inj (app _)) in Hlog.
    rewrite Hstatus. clear Hstatus Hlog' Hrun He.
    unfold stages in *.
    destruct (ffmpegRef r); simpl in *;
      repeat (destruct k as [|k]; simpl in *; try done; try lia).
Qed.

End Button.

Lemma only_a_complete_run_frees_the_button_witness :
  start_disabled first_click (fresh []) = false ∧
  start_disabled first_click (@handleStart stand_in first_click (fresh [])).2 = true.
Proof.
  split; [reflexivity|].
  assert ((@handleStart stand_in first_click (fresh [])).1 =
          Throw (TypeError "Cannot read properties of null (reading 'writeFile')")) as Hthrow
    by (vm_compute; reflexivity).
  refine (proj2 (@only_a_complete_run_frees_the_button stand_in first_click (fresh []) _)
            _ Hthrow).
  intros inst Hinst. discriminate Hinst.
Defined.

(** ** Whole minutes *)

Lemma parseInt_whole (input : string) :
  parseInt input = NaN ∨
  (∃ negative, parseInt input = Infinity negative) ∨
  (∃ z, parseInt input = of_Z z).
Proof.
  unfold parseInt.
  destruct (match trim_start input with
            | String "-"%char rest => (true, rest)
            | String "+"%char rest => (false, rest)
            | _ => (false, trim_start input)
            end) as [neg s2].
  destruct (match s2 with
            | String "0"%char (String "x"%char rest) => (16, rest)
            | String "0"%char (String "X"%char rest) => (16, rest)
            | _ => (10, s2)
            end) as [radix s3].
  destruct (parse_digits radix None s3) as [v|]; [right|by left].
  apply to_double_integer.
Qed.

(** X15: the budget the form holds is a whole number of minutes, an
    infinity, or not a number at all, so the [Math.ceil] of the cap never
    rounds anything: of a value typed with a fraction, [parseInt] keeps
    the integer part (2.5 becomes 2 and -2.5 becomes -2, for every integer
    part up to [2^53]), where rounding up would have given one minute
    more. *)
Theorem budget_is_a_whole_number (c : Closure) :
  (∀ value,
     Math_ceil (maxMinutes (onChange_maxMinutes value c)) =
     maxMinutes (onChange_maxMinutes value c)) ∧
  (∀ (z : Z) (fraction : string),
     Z.abs z ≤ 2 ^ 53 ->
     maxMinutes (onChange_maxMinutes (pretty z +:+ "." +:+ fraction) c) = of_Z z).
Proof.
  split.
  - intros value. simpl.
    destruct (parseInt_whole (if String.eqb value "" then "45" else value))
      as [-> | [[negative ->] | [z ->]]]; [done..|].
    unfold Math_ceil, of_Z. by rewrite Qceiling_Z.
  - intros z fraction Hz.
    destruct (parseInt_pretty z ("." +:+ fraction) ltac:(right; by eexists))
      as [Hparse Hne].
    simpl. rewrite Hne, Hparse. by apply to_double_exact.
Qed.

Lemma budget_is_a_whole_number_witness :
  Z.abs 2 ≤ 2 ^ 53 ∧
  maxMinutes (onChange_maxMinutes "2.5" first_render) = of_Z 2.
Proof.
  assert (Z.abs 2 ≤ 2 ^ 53) as Hz by (vm_compute; discriminate).
  split; [exact Hz|].
  exact (proj2 (budget_is_a_whole_number first_render) 2 "5" Hz).
Defined.

(** ** Statuses that are never shown *)

Section Unused.
Context `{Env}.

(** X16: [translating] and [synthesizing] are declared in [Step] and
    listed in the button's [disabled] attribute, but no run ever sets
    them: translation and synthesis both happen under [transcribing]. *)
Theorem translating_and_synthesizing_are_never_shown (c : Closure) (r : Run) :
  (translating ∉ new_statuses r (handleStart c r).2) ∧
  (synthesizing ∉ new_statuses r (handleStart c r).2).
Proof.
  assert (∃ k : nat, new_statuses r (handleStart c r).2 = take k (stages r))
    as [k Hnew].
  { pose proof (handleStart_ui c r) as Hui. unfold new_statuses.
    destruct (handleStart c r) as [[[]|e] r']; simpl.
    - destruct Hui as (-> & _). exists (length (stages r)).
      by rewrite drop_app_length, firstn_all.
    - destruct Hui as (k & _ & -> & _). exists k. by rewrite drop_app_length. }
  rewrite Hnew.
  assert ((translating ∉ stages r) ∧ (synthesizing ∉ stages r)) as [Ht Hs].
  { unfold stages. destruct (ffmpegRef r); simpl;
      split; intros Hin; repeat (apply elem_of_cons in Hin as [Hin|Hin]; [done|]);
      by apply elem_of_nil in Hin. }
  split; intros Hin; [apply Ht | apply Hs];
    by eapply subseteq_take.
Qed.

End Unused.

(** ** A budget of nothing *)

Section EmptyBudget.
Context `{Env}.

Lemma mux_issues c inputName : issues [mux_args inputName] (mux c inputName).
Proof.
  unfold mux.
  do 3 (apply (issues_bind (fun _ => True) []);
        [apply issues_nothing; frame | done | intros ? _]).
  apply (issues_bind (fun _ => True) [mux_args inputName] []);
    [apply issues_exec | done | intros ? _].
  apply issues_nothing. frame.
Qed.

(** X17: with a budget that is not a number (a field that holds no
    leading digit) or that is zero, a run sends no request; when the
    engine produced segments the run is not stopped for it: it goes on
    to write an empty [concat.txt] and to issue the concat command on
    it. *)
Theorem empty_budget_dubs_nothing (c : Closure) (r : Run) :
  maxMinutes c = NaN ∨ maxMinutes c = of_Z 0 ->
  new_fetches r (handleStart c r).2 = [] ∧
  ∀ inputName r1,
    start_to_segment c r = (Ok inputName, r1) ->
    listed_segments r1 ≠ [] ->
    ∃ files_in,
      (concat_args, files_in) ∈ new_execs r (handleStart c r).2 ∧
      files_in !! "concat.txt" = Some "".
Proof.
  intros Hbudget.
  assert (∀ files, cap_by_maxMinutes c files = []) as Hcap.
  { intros files. destruct Hbudget as [Hnan|Hzero].
    - unfold cap_by_maxMinutes, maxSegments, slice0.
      rewrite Hnan. simpl. by rewrite Z.min_l by lia.
    - destruct (cap_by_maxMinutes_in_budget c files (inject_Z 0) Hzero) as [-> _];
        [done|].
      unfold spec_usedCount. change (Qceiling (inject_Z 0)) with 0.
      by rewrite Z.min_r by lia. }
  split.
  - destruct (handleStart_sends c 0) with (r := r) as (entries & Hlog & Hlen).
    { intros files. by rewrite Hcap. }
    destruct entries; [|simpl in Hlen; lia].
    unfold new_fetches. by rewrite Hlog, app_nil_r, drop_all.
  - intros inputName r1 Hstart Hfiles.
    pose proof (start_to_segment_ready _ _ _ _ Hstart) as Hready.
    pose proof (list_segments_ready c r1 Hready) as Hlist.
    rewrite decide_False in Hlist by done.
    destruct Hready as [Hc [files Hr1]].
    destruct (start_to_segment_adds_execs c r) as (added1 & Hlog1 & _).
    rewrite Hstart in Hlog1. simpl in Hlog1.
    set (r2 := (setStatus transcribing r1).2).
    destruct (concat_tts_ready c [] r2 files Hc Hr1) as (r3 & Hconcat & _ & Hlog3).
    destruct (mux_issues c inputName r3) as (added4 & Hlog4 & _).
    assert (handleStart c r = mux c inputName r3) as ->.
    { unfold handleStart. rewrite (bind_eq_Ok _ _ _ _ _ Hstart).
      rewrite (bind_eq_Ok _ _ _ _ _ Hlist), Hcap.
      unfold dub_and_publish.
      rewrite (bind_eq_Ok _ _ r1 tt r2) by done.
      rewrite (bind_eq_Ok _ _ r2 [] r2) by done.
      by rewrite (bind_eq_Ok _ _ _ _ _ Hconcat). }
    exists (<["concat.txt" := listContent []]> files). split.
    + unfold new_execs. rewrite Hlog4, Hlog3. simpl. rewrite Hlog1.
      rewrite <- !(assoc_L (++)), drop_app_length.
      rewrite !elem_of_app, list_elem_of_singleton. auto.
    + apply lookup_insert_eq.
Qed.

End EmptyBudget.

Lemma empty_budget_dubs_nothing_witness :
  maxMinutes (onChange_maxMinutes ".5" (later_click three_minutes (of_Z 45))) = NaN ∧
  @new_fetches stand_in (engine_ready [])
    (@handleStart stand_in (onChange_maxMinutes ".5" (later_click three_minutes (of_Z 45)))
       (engine_ready [])).2 = [].
Proof.
  split; [reflexivity|].
  exact (proj1 (@empty_budget_dubs_nothing stand_in
                  (onChange_maxMinutes ".5" (later_click three_minutes (of_Z 45)))
                  (engine_ready []) (or_introl eq_refl))).
Defined.

(** ** The properties above on the scenarios *)

Lemma missing_inputs_abort_before_the_engine_witness :
  apiKey first_render = "" ∧
  @handleStart stand_in first_render (fresh []) =
    (Throw (Error "Missing OpenAI API key"), (@setDownloadUrl stand_in None (fresh [])).2).
Proof.
  split; [reflexivity|].
  exact (proj1 (@missing_inputs_abort_before_the_engine stand_in first_render (fresh []))
           eq_refl).
Defined.

Lemma commands_are_issued_in_order_witness :
  (@handleStart stand_in (later_click three_minutes (of_Z 45)) (engine_ready [])).1 = Ok tt ∧
  (@new_execs stand_in (engine_ready [])
     (@handleStart stand_in (later_click three_minutes (of_Z 45)) (engine_ready [])).2).*1 =
    commands (later_click three_minutes (of_Z 45)).
Proof.
  assert ((@handleStart stand_in (later_click three_minutes (of_Z 45))
             (engine_ready [])).1 = Ok tt) as Hok by (vm_compute; reflexivity).
  split; [exact Hok|].
  exact (proj2 (@commands_are_issued_in_order stand_in
                  (later_click three_minutes (of_Z 45)) (engine_ready [])) Hok).
Defined.

(** ** Index order on a working area without stale segments *)

(** Strictly increasing names are pairwise distinct. *)
Lemma strictly_sorted_NoDup (l : list string) :
  Sorted (fun a b => String.le a b ∧ a ≠ b) l -> NoDup l.
Proof.
  intros Hsorted.
  assert (Transitive (fun a b : string => String.le a b ∧ a ≠ b)) as Htrans.
  { intros a b d [Hab Hne] [Hbd Hne']. split; [by etrans|].
    intros ->. apply Hne. by apply (anti_symm String.le). }
  apply (Sorted_StronglySorted _) in Hsorted.
  induction Hsorted as [|a l _ IH Hall]; constructor; [|done].
  intros Hin. rewrite Forall_forall in Hall. by destruct (Hall a Hin).
Qed.

Lemma segment_files_NoDup (n : nat) : (n ≤ 1000)%nat -> NoDup (segment_files n).
Proof.
  intros Hn. rewrite (segment_files_take n 1000 Hn).
  apply (sublist_NoDup _ (segment_files 1000)); [|apply sublist_take].
  apply strictly_sorted_NoDup.
  apply (bool_decide_unpack _). vm_compute. exact I.
Qed.

Lemma listContent_by_index (indices : list nat) :
  listContent (tts_name <$> (segment_file <$> indices)) =
  join newline ((fun i => "file '" +:+ tts_name (segment_file i) +:+ "'") <$> indices).
Proof.
  unfold listContent. f_equal.
  induction indices as [|i indices IH]; [done|].
  change (("file '" +:+ tts_name (segment_file i) +:+ "'")
            :: map (fun n => "file '" +:+ n +:+ "'")
                   (tts_name <$> (segment_file <$> indices)) =
          ("file '" +:+ tts_name (segment_file i) +:+ "'")
            :: ((fun i => "file '" +:+ tts_name (segment_file i) +:+ "'") <$> indices)).
  by rewrite IH.
Qed.

Section IndexOrder.
Context `{Env}.

Lemma listed_segments_Sorted r : Sorted String.le (listed_segments r).
Proof.
  unfold listed_segments. destruct (ffmpegRef r); [|constructor].
  apply Sorted_merge_sort; apply _.
Qed.

(** What the listing gives when the engine holds exactly the first [n]
    files of the naming scheme, [n] at most 1000: their names in index
    order. *)
Lemma listed_segments_by_index r (n : nat) :
  (n ≤ 1000)%nat ->
  (∀ name, is_segment_name name = true ->
     (is_Some (files_of r !! name) ↔ name ∈ segment_files n)) ->
  listed_segments r = segment_files n.
Proof.
  intros Hn Hfiles.
  apply (Sorted_unique String.le);
    [apply listed_segments_Sorted | by apply segment_files_sorted |].
  rewrite listed_segments_Permutation.
  apply NoDup_Permutation;
    [apply NoDup_filter, NoDup_fst_map_to_list | by apply segment_files_NoDup |].
  intros name. rewrite list_elem_of_filter, list_elem_of_fmap. split.
  - intros [Hname ([name' data] & -> & Hin%elem_of_map_to_list)].
    apply Hfiles; [done|]. by eexists.
  - intros Hin.
    assert (is_segment_name name = true) as Hname.
    { apply list_elem_of_fmap in Hin as (i & -> & _).
      unfold is_segment_name. apply andb_true_iff. split.
      - unfold startsWith, segment_file. simpl.
        by destruct (printf_03d i +:+ ".wav").
      - exact (endsWith_append ("seg_" +:+ printf_03d i) ".wav"). }
    split; [done|].
    apply Hfiles in Hin as [data Hdata]; [|done].
    exists (name, data). split; [done|]. by apply elem_of_map_to_list.
Qed.

(** X18: index order, where the sort recovers it.  When the first stages
    leave in the engine exactly the segment files of chunks 0 to [n-1]
    (no file of an earlier run), [n] at most 1000, and the run gets
    through the loop, then the chunks processed are chunks 0 to [k-1] for
    some [k], in that order: the request at position [i] carried the
    audio of chunk [i], the synthesized chunk at position [i] is the file
    [tts_] of chunk [i], and [concat.txt], as given to the concat
    command, lists these files by increasing index, once each. *)
Theorem fresh_chunks_are_dubbed_in_index_order (c : Closure) (r r1 : Run)
    (inputName : string) (n : nat) :
  (n ≤ 1000)%nat ->
  start_to_segment c r = (Ok inputName, r1) ->
  (∀ name, is_segment_name name = true ->
     (is_Some (files_of r1 !! name) ↔ name ∈ segment_files n)) ->
  concatenating ∈ new_statuses r (handleStart c r).2 ->
  ∃ (k : nat) files_in,
    let requests := new_fetches r (handleStart c r).2 in
    (k ≤ n)%nat ∧
    cap_by_maxMinutes c (listed_segments r1) = segment_file <$> seq 0 k ∧
    Forall2 (fun i audio => files_of r1 !! segment_file i = Some audio)
            (seq 0 k) (transcribed_audio requests) ∧
    Forall2 (fun i wav => files_in !! tts_name (segment_file i) = Some wav)
            (seq 0 k) (speech_bodies requests) ∧
    files_in !! "concat.txt" =
      Some (join newline
              ((fun i => "file '" +:+ tts_name (segment_file i) +:+ "'") <$> seq 0 k)) ∧
    (concat_args, files_in) ∈ new_execs r (handleStart c r).2.
Proof.
  intros Hn Hstart Hfiles Hreached.
  destruct (dubbed_track_follows_chunk_order c r Hreached)
    as (inputName' & r1' & files_in & Hstart' & Haudio & Hwav & Hconcat & Hexec).
  simpl in Haudio, Hwav, Hconcat.
  assert (r1' = r1) as -> by congruence.
  rewrite (listed_segments_by_index r1 n Hn Hfiles) in *.
  assert (∃ k : nat, (k ≤ n)%nat ∧
            cap_by_maxMinutes c (segment_files n) = segment_file <$> seq 0 k)
    as (k & Hk & Hcap).
  { unfold cap_by_maxMinutes, slice0.
    set (m := Z.to_nat _). exists (m `min` n)%nat. split; [lia|].
    unfold segment_files. by rewrite <- fmap_take, take_seq. }
  rewrite Hcap in *.
  exists k, files_in. simpl. split_and!; try done.
  - by apply Forall2_fmap_l in Haudio.
  - by apply Forall2_fmap_l in Hwav.
  - by rewrite Hconcat, listContent_by_index.
Qed.

End IndexOrder.

Lemma fresh_chunks_are_dubbed_in_index_order_witness :
  ∃ k : nat,
    (k ≤ 3)%nat ∧
    Forall2 (fun i audio =>
               @files_of stand_in
                 (@start_to_segment stand_in (later_click three_minutes (of_Z 45))
                    (engine_ready [])).2 !! segment_file i = Some audio)
            (seq 0 k)
            (transcribed_audio
               (@new_fetches stand_in (engine_ready [])
                  (@handleStart stand_in (later_click three_minutes (of_Z 45))
                     (engine_ready [])).2)).
Proof.
  assert ((@start_to_segment stand_in (later_click three_minutes (of_Z 45))
             (engine_ready [])).1 = Ok "input.mp4") as Hok by (vm_compute; reflexivity).
  destruct (@fresh_chunks_are_dubbed_in_index_order stand_in
              (later_click three_minutes (of_Z 45)) (engine_ready [])
              (@start_to_segment stand_in (later_click three_minutes (of_Z 45))
                 (engine_ready [])).2 "input.mp4" 3)
    as (k & files_in & Hk & _ & Haudio & _).
  - lia.
  - rewrite <- Hok. by destruct (@start_to_segment stand_in _ _).
  - intros name Hname.
    assert (∀ (m : FS) (key : string), is_Some (m !! key) ↔ key ∈ (map_to_list m).*1)
      as Hdom.
    { intros m key. rewrite list_elem_of_fmap. split.
      - intros [data Hdata]. exists (key, data). split; [done|].
        by apply elem_of_map_to_list.
      - intros ([key' data] & -> & Hin%elem_of_map_to_list). by eexists. }
    rewrite Hdom. split.
    + intros Hin. revert Hname. revert name Hin.
      apply (proj1 (Forall_forall
                      (fun x => is_segment_name x = true -> x ∈ segment_files 3) _)).
      apply (bool_decide_unpack _). vm_compute. exact I.
    + intros Hin. clear Hname. revert name Hin.
      apply (proj1 (Forall_forall
                      (fun x => x ∈ (map_to_list
                                       (@files_of stand_in
                                          (@start_to_segment stand_in
                                             (later_click three_minutes (of_Z 45))
                                             (engine_ready [])).2)).*1)
                      (segment_files 3))).
      apply (bool_decide_unpack _). vm_compute. exact I.
  - apply (bool_decide_unpack _). vm_compute. exact I.
  - exists k. split; [exact Hk | exact Haudio].
Defined.
